(** * Live session manager of the AI-Tools front-end

    A shallow embedding of the two live panels of the audio tools component
    ([VoiceChat] and [VisualAssistant]) and of the text-to-speech request
    handler, followed by the properties of the session life cycle, the
    playback scheduler, the transcript and the outbound PCM conversion.
    The voice chat is also followed on screen, through its clicks, its
    callbacks and its renders. The transcription request of the audio
    tools, the send handler of the chat panel and the recognition handler
    of the translation panel are embedded the same way, with their
    properties at the end.

    Conventions of the embedding.
    - Every React state cell, every [useRef] cell and every variable captured
      by the callbacks is a field of one record per panel; a handler is a
      function from that record to the record after the handler ran.
    - Platform and SDK objects (streams, audio nodes, contexts, sessions) are
      handles allocated from a counter [heap]; every call that reaches the
      platform, the SDK or the [setError] setter is appended to [trace] in
      program order. A call made through the session promise
      ([sessionPromiseRef.current.then(session => ..)]) is recorded at the
      statement that hands it to the promise; the SDK runs it once the promise
      is fulfilled. The order in which a [Set] is iterated is not modelled:
      no statement below depends on the order of the calls within one stop.
    - A handler that can raise returns a [Completion]: either it returns the
      new record, or it throws and leaves the record as it was at the throw.
    - JavaScript numbers that hold times and samples are read as rationals:
      [Math.max] and the scaling by the power of two 32768 are exact on
      finite floats; the rounding of [+=] on times is left out.
    - What an awaited platform call yields (the clock, a capture stream or a
      rejection, the JPEG of a frame) is an argument of the handler.
    - A state setter changes its cell at the call. An updater function
      handed to a setter is run by React when it renders the panel next; it
      reads the variables it closes over as they are then. The render is
      taken to come before the next event is handled. *)

From Stdlib Require Import QArith Qminmax Qround Lqa Ascii String.
From stdpp Require Import base gmap sets list strings.

Set Default Proof Using "Type".

(** ** Platform objects *)

Definition handle := nat.

(** [AudioContextState] of the Web Audio API. *)
Inductive AudioContextState := suspended | running | closed.

#[export] Instance AudioContextState_eq_dec : EqDecision AudioContextState.
Proof. solve_decision. Defined.

Record AudioContext := mkAudioContext {
  ctx_id : handle;
  sampleRate : Z;
  state : AudioContextState;
}.

(** [AudioContext.close()]: the context is [closed] from the call on. *)
Definition close (c : AudioContext) : AudioContext :=
  mkAudioContext (ctx_id c) (sampleRate c) closed.

Record AudioBuffer := mkAudioBuffer {
  duration : Q;
}.

(** The [Blob] of the SDK: a base64 payload and its MIME type. *)
Record Blob := mkBlob {
  data : string;
  mimeType : string;
}.

(** A [Transcription] of the SDK; its [text] is optional. *)
Record Transcription := mkTranscription {
  text : option string;
}.

(** The fields of a [LiveServerMessage] that the handlers read:
    [serverContent?.inputTranscription],
    [serverContent?.outputTranscription],
    [serverContent?.turnComplete],
    [serverContent?.modelTurn?.parts[0]?.inlineData?.data] and
    [serverContent?.interrupted]. The messages of this record are those
    whose model turn, when there is one, has its [parts]: on a model turn
    without [parts] the handler ends at the reading of [parts[0]] with a
    [TypeError], after the statements on the transcription. *)
Record LiveServerMessage := mkMessage {
  inputTranscription : option Transcription;
  outputTranscription : option Transcription;
  turnComplete : bool;
  inlineData : option string;
  interrupted : bool;
}.

(** One entry of the transcript. *)
Record Turn := mkTurn {
  user : string;
  model : string;
}.

(** What the trace records, in the order the code runs: the calls that
    leave the component, the [setError] calls, and the [ended] notification
    of a playback node. *)
Inductive Call :=
  | getUserMedia (audio video : bool)
  | live_connect (session : handle)
  | session_close (session : handle)
  | sendRealtimeInput (session : handle) (media : Blob)
  | track_stop (stream : handle)
  | new_AudioContext (ctx : handle) (rate : Z)
  | createMediaStreamSource (node stream : handle)
  | createScriptProcessor (node : handle) (bufferSize : Z)
  | node_connect (node : handle)
  | node_disconnect (node : handle)
  | context_close (ctx : handle)
  | source_start (source : handle) (when : Q) (buffer : AudioBuffer)
  | source_stop (source : handle)
  | source_ended (source : handle)
  | set_srcObject (video stream : handle)
  | setInterval (timer : handle) (ms : Z)
  | clearInterval (timer : handle)
  | canvas_toBlob (canvas video : handle)
  | generateContent
  | setError (message : option string).

(** What a handler does: it returns, or it throws. *)
Inductive Completion (S : Type) :=
  | Returns (s : S)
  | Throws (exn : string) (s : S).
Arguments Returns {S} s.
Arguments Throws {S} exn s.

Definition andThen {S} (c : Completion S) (k : S → Completion S) : Completion S :=
  match c with
  | Returns s => k s
  | Throws e s => Throws e s
  end.

Definition final {S} (c : Completion S) : S :=
  match c with Returns s | Throws _ s => s end.

Definition returns {S} (c : Completion S) : bool :=
  match c with Returns _ => true | Throws _ _ => false end.

(** What [await navigator.mediaDevices.getUserMedia(..)] yields. *)
Inductive MediaResult :=
  | granted
  | rejected (message : string).

(** What the body of a [try] block does before its first assignment. *)
Inductive TryResult :=
  | proceeds
  | raises (message : string).

(** ** Functions of [utils] used by the panels

    [encode], [decode] and [decodeAudioData] are imported from [../utils],
    which is outside the sources at hand: they are parameters. The audio
    context that [decodeAudioData] receives only serves to allocate the
    buffer and is left out. *)
Class Utils := {
  encode : list Z → string;
  decode : string → list Z;
  decodeAudioData : list Z → Z → Z → AudioBuffer;
}.

(** ** Typed arrays *)

(** Truncation toward zero, the first step of every integer conversion. *)
Definition Qtruncate (v : Q) : Z := Z.quot (Qnum v) (Zpos (Qden v)).

(** [ToInt16] of ECMAScript, the conversion [new Int16Array(..)] applies to
    each element: truncate, reduce modulo 2^16, read as two's complement. *)
Definition ToInt16 (v : Q) : Z :=
  let int16bit := (Qtruncate v mod 65536)%Z in
  if (32768 <=? int16bit)%Z then (int16bit - 65536)%Z else int16bit.

(** [new Int16Array(inputData.map(x => x * 32768))]. *)
Definition Int16Array (inputData : list Q) : list Z :=
  (λ x, ToInt16 (x * 32768)) <$> inputData.

(** [new Uint8Array(int16.buffer)]: the two bytes of each element, low byte
    first (typed arrays use the byte order of the platform, little-endian on
    every platform browsers run on). *)
Definition Uint8Array (int16 : list Z) : list Z :=
  int16 ≫= (λ v, [(v mod 256)%Z; ((v mod 65536) / 256)%Z]).

Section WithUtils.
Context {U : Utils}.

(** The blob built from one capture frame by both [onaudioprocess] handlers. *)
Definition pcmBlob (inputData : list Q) : Blob :=
  {| data := encode (Uint8Array (Int16Array inputData));
     mimeType := "audio/pcm;rate=16000" |}.

End WithUtils.

(** ** The voice chat panel *)

Module VoiceChat.

(** [useState] cells, [useRef] cells, the two variables that
    [startConversation] declares for its callbacks, and the trace. *)
Record VoiceChat := mkVoiceChat {
  isLive : bool;
  transcriptions : list Turn;
  error : option string;
  sessionPromiseRef : option handle;
  streamRef : option handle;
  audioContextRef : option AudioContext;
  scriptProcessorRef : option handle;
  sourceRef : option handle;
  outputAudioContextRef : option AudioContext;
  nextStartTimeRef : Q;
  playingSources : gset handle;
  currentInputTranscription : string;
  currentOutputTranscription : string;
  trace : list Call;
  heap : handle;
}.

(** The panel as first rendered. *)
Definition initial : VoiceChat :=
  {| isLive := false; transcriptions := []; error := None;
     sessionPromiseRef := None; streamRef := None; audioContextRef := None;
     scriptProcessorRef := None; sourceRef := None;
     outputAudioContextRef := None; nextStartTimeRef := 0;
     playingSources := ∅;
     currentInputTranscription := ""; currentOutputTranscription := "";
     trace := []; heap := 0 |}.

Definition setIsLive (b : bool) (s : VoiceChat) : VoiceChat :=
  mkVoiceChat b (transcriptions s) (error s) (sessionPromiseRef s)
    (streamRef s) (audioContextRef s) (scriptProcessorRef s) (sourceRef s)
    (outputAudioContextRef s) (nextStartTimeRef s) (playingSources s)
    (currentInputTranscription s) (currentOutputTranscription s)
    (trace s) (heap s).

Definition setTranscriptions (f : list Turn → list Turn) (s : VoiceChat) : VoiceChat :=
  mkVoiceChat (isLive s) (f (transcriptions s)) (error s) (sessionPromiseRef s)
    (streamRef s) (audioContextRef s) (scriptProcessorRef s) (sourceRef s)
    (outputAudioContextRef s) (nextStartTimeRef s) (playingSources s)
    (currentInputTranscription s) (currentOutputTranscription s)
    (trace s) (heap s).

Definition call (c : Call) (s : VoiceChat) : VoiceChat :=
  mkVoiceChat (isLive s) (transcriptions s) (error s) (sessionPromiseRef s)
    (streamRef s) (audioContextRef s) (scriptProcessorRef s) (sourceRef s)
    (outputAudioContextRef s) (nextStartTimeRef s) (playingSources s)
    (currentInputTranscription s) (currentOutputTranscription s)
    (trace s ++ [c]) (heap s).

(** [setError(v)]: the cell changes and the call is on the trace. *)
Definition set_error (v : option string) (s : VoiceChat) : VoiceChat :=
  call (setError v)
    (mkVoiceChat (isLive s) (transcriptions s) v (sessionPromiseRef s)
       (streamRef s) (audioContextRef s) (scriptProcessorRef s) (sourceRef s)
       (outputAudioContextRef s) (nextStartTimeRef s) (playingSources s)
       (currentInputTranscription s) (currentOutputTranscription s)
       (trace s) (heap s)).

Definition set_sessionPromiseRef (v : option handle) (s : VoiceChat) : VoiceChat :=
  mkVoiceChat (isLive s) (transcriptions s) (error s) v
    (streamRef s) (audioContextRef s) (scriptProcessorRef s) (sourceRef s)
    (outputAudioContextRef s) (nextStartTimeRef s) (playingSources s)
    (currentInputTranscription s) (currentOutputTranscription s)
    (trace s) (heap s).

Definition set_streamRef (v : option handle) (s : VoiceChat) : VoiceChat :=
  mkVoiceChat (isLive s) (transcriptions s) (error s) (sessionPromiseRef s)
    v (audioContextRef s) (scriptProcessorRef s) (sourceRef s)
    (outputAudioContextRef s) (nextStartTimeRef s) (playingSources s)
    (currentInputTranscription s) (currentOutputTranscription s)
    (trace s) (heap s).

Definition set_audioContextRef (v : option AudioContext) (s : VoiceChat) : VoiceChat :=
  mkVoiceChat (isLive s) (transcriptions s) (error s) (sessionPromiseRef s)
    (streamRef s) v (scriptProcessorRef s) (sourceRef s)
    (outputAudioContextRef s) (nextStartTimeRef s) (playingSources s)
    (currentInputTranscription s) (currentOutputTranscription s)
    (trace s) (heap s).

Definition set_scriptProcessorRef (v : option handle) (s : VoiceChat) : VoiceChat :=
  mkVoiceChat (isLive s) (transcriptions s) (error s) (sessionPromiseRef s)
    (streamRef s) (audioContextRef s) v (sourceRef s)
    (outputAudioContextRef s) (nextStartTimeRef s) (playingSources s)
    (currentInputTranscription s) (currentOutputTranscription s)
    (trace s) (heap s).

Definition set_sourceRef (v : option handle) (s : VoiceChat) : VoiceChat :=
  mkVoiceChat (isLive s) (transcriptions s) (error s) (sessionPromiseRef s)
    (streamRef s) (audioContextRef s) (scriptProcessorRef s) v
    (outputAudioContextRef s) (nextStartTimeRef s) (playingSources s)
    (currentInputTranscription s) (currentOutputTranscription s)
    (trace s) (heap s).

Definition set_outputAudioContextRef (v : option AudioContext) (s : VoiceChat) : VoiceChat :=
  mkVoiceChat (isLive s) (transcriptions s) (error s) (sessionPromiseRef s)
    (streamRef s) (audioContextRef s) (scriptProcessorRef s) (sourceRef s)
    v (nextStartTimeRef s) (playingSources s)
    (currentInputTranscription s) (currentOutputTranscription s)
    (trace s) (heap s).

Definition set_nextStartTimeRef (v : Q) (s : VoiceChat) : VoiceChat :=
  mkVoiceChat (isLive s) (transcriptions s) (error s) (sessionPromiseRef s)
    (streamRef s) (audioContextRef s) (scriptProcessorRef s) (sourceRef s)
    (outputAudioContextRef s) v (playingSources s)
    (currentInputTranscription s) (currentOutputTranscription s)
    (trace s) (heap s).

Definition set_playingSources (v : gset handle) (s : VoiceChat) : VoiceChat :=
  mkVoiceChat (isLive s) (transcriptions s) (error s) (sessionPromiseRef s)
    (streamRef s) (audioContextRef s) (scriptProcessorRef s) (sourceRef s)
    (outputAudioContextRef s) (nextStartTimeRef s) v
    (currentInputTranscription s) (currentOutputTranscription s)
    (trace s) (heap s).

Definition set_currentInputTranscription (v : string) (s : VoiceChat) : VoiceChat :=
  mkVoiceChat (isLive s) (transcriptions s) (error s) (sessionPromiseRef s)
    (streamRef s) (audioContextRef s) (scriptProcessorRef s) (sourceRef s)
    (outputAudioContextRef s) (nextStartTimeRef s) (playingSources s)
    v (currentOutputTranscription s)
    (trace s) (heap s).

Definition set_currentOutputTranscription (v : string) (s : VoiceChat) : VoiceChat :=
  mkVoiceChat (isLive s) (transcriptions s) (error s) (sessionPromiseRef s)
    (streamRef s) (audioContextRef s) (scriptProcessorRef s) (sourceRef s)
    (outputAudioContextRef s) (nextStartTimeRef s) (playingSources s)
    (currentInputTranscription s) v
    (trace s) (heap s).

(** A new platform object: the next unused handle. *)
Definition alloc (s : VoiceChat) : VoiceChat :=
  mkVoiceChat (isLive s) (transcriptions s) (error s) (sessionPromiseRef s)
    (streamRef s) (audioContextRef s) (scriptProcessorRef s) (sourceRef s)
    (outputAudioContextRef s) (nextStartTimeRef s) (playingSources s)
    (currentInputTranscription s) (currentOutputTranscription s)
    (trace s) (S (heap s)).

(** [source.start(..)] was called on the node. *)
Definition is_start_of (source : handle) (c : Call) : bool :=
  match c with
  | source_start h _ _ => bool_decide (h = source)
  | _ => false
  end.

Definition started (source : handle) (tr : list Call) : bool :=
  existsb (is_start_of source) tr.

(** [source.stop()]: an [InvalidStateError] on a node never started. *)
Definition stop_source (source : handle) (s : VoiceChat) : Completion VoiceChat :=
  if started source (trace s)
  then Returns (call (source_stop source) s)
  else Throws "InvalidStateError" s.

(** [playingSources.current.forEach(source => source.stop())]. *)
Fixpoint forEach_stop (sources : list handle) (s : VoiceChat) : Completion VoiceChat :=
  match sources with
  | [] => Returns s
  | source :: rest => andThen (stop_source source s) (forEach_stop rest)
  end.

(** The first six statements of [stopConversation]: they release what the
    refs hold. *)
Definition release (s : VoiceChat) : VoiceChat :=
  let s := match sessionPromiseRef s with
           | Some session => set_sessionPromiseRef None (call (session_close session) s)
           | None => s
           end in
  let s := match streamRef s with
           | Some stream => set_streamRef None (call (track_stop stream) s)
           | None => s
           end in
  let s := match scriptProcessorRef s with
           | Some node => call (node_disconnect node) s
           | None => s
           end in
  let s := match sourceRef s with
           | Some node => call (node_disconnect node) s
           | None => s
           end in
  let s := match audioContextRef s with
           | Some c =>
               if decide (state c ≠ closed)
               then set_audioContextRef (Some (close c)) (call (context_close (ctx_id c)) s)
               else s
           | None => s
           end in
  match outputAudioContextRef s with
  | Some c =>
      if decide (state c ≠ closed)
      then set_outputAudioContextRef (Some (close c)) (call (context_close (ctx_id c)) s)
      else s
  | None => s
  end.

(** [stopConversation]: the release, then the four statements on playback
    and on [isLive]. *)
Definition stopConversation (s : VoiceChat) : Completion VoiceChat :=
  let s := release s in
  andThen (forEach_stop (elements (playingSources s)) s) (λ s,
  let s := set_playingSources ∅ s in
  let s := set_nextStartTimeRef 0 s in
  Returns (setIsLive false s)).

(** [startConversation]; [r] tells whether [new GoogleGenAI(..)] or
    [new AudioContext(..)] raises. [ai.live.connect] is an [async] method:
    it returns its promise and raises nothing at the call. *)
Definition startConversation (r : TryResult) (s : VoiceChat) : Completion VoiceChat :=
  if isLive s then Returns s else
  let s := setIsLive true s in
  let s := set_error None s in
  let s := setTranscriptions (λ _, []) s in
  let s := set_currentInputTranscription "" s in
  let s := set_currentOutputTranscription "" s in
  match r with
  | proceeds =>
      let ctx := heap s in
      let s := call (new_AudioContext ctx 24000) (alloc s) in
      let s := set_outputAudioContextRef (Some (mkAudioContext ctx 24000 running)) s in
      let session := heap s in
      let s := call (live_connect session) (alloc s) in
      Returns (set_sessionPromiseRef (Some session) s)
  | raises message =>
      stopConversation (set_error (Some message) s)
  end.

(** The [onopen] callback. It is [async] and awaits [getUserMedia]: a
    rejection ends the callback there, as a rejected promise. The
    constructors that follow a granted request are taken to succeed. *)
Definition onopen (r : MediaResult) (s : VoiceChat) : Completion VoiceChat :=
  let s := call (getUserMedia true false) s in
  match r with
  | rejected message => Throws message s
  | granted =>
      let stream := heap s in
      let s := set_streamRef (Some stream) (alloc s) in
      let ctx := heap s in
      let s := call (new_AudioContext ctx 16000) (alloc s) in
      let s := set_audioContextRef (Some (mkAudioContext ctx 16000 running)) s in
      let source := heap s in
      let s := call (createMediaStreamSource source stream) (alloc s) in
      let s := set_sourceRef (Some source) s in
      let processor := heap s in
      let s := call (createScriptProcessor processor 4096) (alloc s) in
      let s := set_scriptProcessorRef (Some processor) s in
      let s := call (node_connect source) s in
      Returns (call (node_connect processor) s)
  end.

(** The [onaudioprocess] handler installed by [onopen]. *)
Definition onaudioprocess `{Utils} (inputData : list Q) (s : VoiceChat) : VoiceChat :=
  match sessionPromiseRef s with
  | Some session => call (sendRealtimeInput session (pcmBlob inputData)) s
  | None => s
  end.

(** [source.onended]. *)
Definition onended (source : handle) (s : VoiceChat) : VoiceChat :=
  set_playingSources (playingSources s ∖ {[source]}) (call (source_ended source) s).

(** [variable += transcription.text]: a [text] that is [undefined] is
    appended as the string it converts to. *)
Definition append_text (variable : string) (transcription : Transcription) : string :=
  variable +:+ default "undefined" (text transcription).

(** The [onmessage] callback, one definition for each of its four
    statements. First the text of each transcription the message carries is
    appended to the variable of the turn; the test is on the transcription
    object, not on its text. *)
Definition accumulate (message : LiveServerMessage) (s : VoiceChat) : VoiceChat :=
  let s := match inputTranscription message with
           | Some transcription =>
               set_currentInputTranscription
                 (append_text (currentInputTranscription s) transcription) s
           | None => s
           end in
  match outputTranscription message with
  | Some transcription =>
      set_currentOutputTranscription
        (append_text (currentOutputTranscription s) transcription) s
  | None => s
  end.

(** [if (message.serverContent?.turnComplete) ..]. [setTranscriptions] is
    handed an updater that closes over the two variables of the turn, not
    over their values. React runs it when it renders next: by then the two
    assignments that follow the call have emptied the variables, and the
    updater reads them as the [panel] in which it runs has them. *)
Definition complete_turn (message : LiveServerMessage) (s : VoiceChat) : VoiceChat :=
  if turnComplete message
  then
    let updater (panel : VoiceChat) (prev : list Turn) :=
      prev ++ [ {| user := currentInputTranscription panel;
                   model := currentOutputTranscription panel |} ] in
    let s := set_currentOutputTranscription "" (set_currentInputTranscription "" s) in
    setTranscriptions (updater s) s
  else s.

(** [if (base64Audio && outputAudioContextRef.current) ..]; the empty string
    is falsy. [currentTime] is [ctx.currentTime] as read by the handler. The
    awaited [decodeAudioData] is taken to settle before another message is
    handled, so that the statements from the reading of the clock to
    [playingSources.add] run in one piece. *)
Definition play `{Utils} (currentTime : Q) (message : LiveServerMessage)
    (s : VoiceChat) : VoiceChat :=
  match inlineData message, outputAudioContextRef s with
  | Some base64Audio, Some ctx =>
      if decide (base64Audio = "") then s else
      let s := set_nextStartTimeRef (Qmax (nextStartTimeRef s) currentTime) s in
      let audioBuffer := decodeAudioData (decode base64Audio) 24000 1 in
      let source := heap s in
      let s := call (node_connect source) (alloc s) in
      let s := call (source_start source (nextStartTimeRef s) audioBuffer) s in
      let s := set_nextStartTimeRef (nextStartTimeRef s + duration audioBuffer) s in
      set_playingSources ({[source]} ∪ playingSources s) s
  | _, _ => s
  end.

(** [if (message.serverContent?.interrupted) ..]. *)
Definition interrupt (message : LiveServerMessage) (s : VoiceChat) : Completion VoiceChat :=
  if interrupted message
  then
    andThen (forEach_stop (elements (playingSources s)) s) (λ s,
    Returns (set_nextStartTimeRef 0 (set_playingSources ∅ s)))
  else Returns s.

Definition onmessage `{Utils} (currentTime : Q) (message : LiveServerMessage)
    (s : VoiceChat) : Completion VoiceChat :=
  interrupt message (play currentTime message (complete_turn message (accumulate message s))).

(** The [onerror] callback; [type] is [e.type]. *)
Definition onerror (type : string) (s : VoiceChat) : Completion VoiceChat :=
  stopConversation (set_error (Some ("Live session error: " +:+ type)) s).

(** The [onclose] callback. *)
Definition onclose (s : VoiceChat) : Completion VoiceChat :=
  stopConversation s.

(** Everything that can happen to a mounted panel. The button calls
    [stopConversation] when [isLive] holds and [startConversation] otherwise;
    [start] and [stop] are the two functions themselves. *)
Inductive Event :=
  | start (r : TryResult)
  | stop
  | opened (r : MediaResult)
  | message (currentTime : Q) (m : LiveServerMessage)
  | errored (type : string)
  | closed_by_remote
  | audioprocess (inputData : list Q)
  | ended (source : handle).

Definition handle_event `{Utils} (e : Event) (s : VoiceChat) : Completion VoiceChat :=
  match e with
  | start r => startConversation r s
  | stop => stopConversation s
  | opened r => onopen r s
  | message t m => onmessage t m s
  | errored type => onerror type s
  | closed_by_remote => onclose s
  | audioprocess inputData => Returns (onaudioprocess inputData s)
  | ended source => Returns (onended source s)
  end.

(** The panel after a sequence of events; a handler that throws leaves the
    panel as it was at the throw. *)
Definition run `{Utils} (events : list Event) (s : VoiceChat) : VoiceChat :=
  foldl (λ s e, final (handle_event e s)) s events.

Definition reachable `{Utils} (s : VoiceChat) : Prop :=
  ∃ events, s = run events initial.

(** The calls a handler added to the trace. *)
Definition calls_since (before after : VoiceChat) : list Call :=
  drop (length (trace before)) (trace after).

(** The segments scheduled so far: start time and end time of each
    [source.start] on the trace, oldest first. *)
Definition schedule (tr : list Call) : list (Q * Q) :=
  tr ≫= (λ c, match c with
              | source_start _ when buffer => [(when, (when + duration buffer)%Q)]
              | _ => []
              end).

(** The panel with more calls on its trace. *)
Definition with_calls (calls : list Call) (s : VoiceChat) : VoiceChat :=
  mkVoiceChat (isLive s) (transcriptions s) (error s) (sessionPromiseRef s)
    (streamRef s) (audioContextRef s) (scriptProcessorRef s) (sourceRef s)
    (outputAudioContextRef s) (nextStartTimeRef s) (playingSources s)
    (currentInputTranscription s) (currentOutputTranscription s)
    (trace s ++ calls) (heap s).

(** [stopConversation] called [n] times in a row. *)
Fixpoint stop_repeatedly (n : nat) (s : VoiceChat) : Completion VoiceChat :=
  match n with
  | O => Returns s
  | S n => andThen (stopConversation s) (stop_repeatedly n)
  end.

(** Every node the playback set tracks had [start] called on it. *)
Definition tracked_sources_started (s : VoiceChat) : Prop :=
  ∀ source, source ∈ playingSources s → started source (trace s) = true.

(** A node is scheduled or playing: started, and neither stopped nor
    ended since. *)
Definition is_halt_of (source : handle) (c : Call) : bool :=
  match c with
  | source_stop h | source_ended h => bool_decide (h = source)
  | _ => false
  end.

Definition scheduled_or_playing (source : handle) (tr : list Call) : bool :=
  started source tr && negb (existsb (is_halt_of source) tr).

(** Calls and notifications about playback nodes. *)
Definition is_source_call (c : Call) : bool :=
  match c with
  | source_start _ _ _ | source_stop _ | source_ended _ => true
  | _ => false
  end.

(** Every node that is scheduled or playing is in the playback set. *)
Definition all_scheduled_tracked (s : VoiceChat) : Prop :=
  ∀ source, scheduled_or_playing source (trace s) = true → source ∈ playingSources s.

(** The playback set and the platform agree. *)
Definition consistent (s : VoiceChat) : Prop :=
  tracked_sources_started s ∧ all_scheduled_tracked s.

(** The calls that release what the refs hold. *)
Definition closing_call (ref : option AudioContext) : list Call :=
  match ref with
  | Some c => if decide (state c ≠ closed) then [context_close (ctx_id c)] else []
  | None => []
  end.

Definition closed_ref (ref : option AudioContext) : option AudioContext :=
  match ref with
  | Some c => if decide (state c ≠ closed) then Some (close c) else Some c
  | None => None
  end.

Definition disconnects (s : VoiceChat) : list Call :=
  option_list (node_disconnect <$> scriptProcessorRef s)
  ++ option_list (node_disconnect <$> sourceRef s).

Definition releases (s : VoiceChat) : list Call :=
  option_list (session_close <$> sessionPromiseRef s)
  ++ option_list (track_stop <$> streamRef s)
  ++ disconnects s
  ++ closing_call (audioContextRef s)
  ++ closing_call (outputAudioContextRef s).

Definition teardown_calls (s : VoiceChat) : list Call :=
  releases s ++ (source_stop <$> elements (playingSources s)).

(** The panel after the release. *)
Definition released (s : VoiceChat) : VoiceChat :=
  mkVoiceChat (isLive s) (transcriptions s) (error s) None None
    (closed_ref (audioContextRef s)) (scriptProcessorRef s) (sourceRef s)
    (closed_ref (outputAudioContextRef s)) (nextStartTimeRef s) (playingSources s)
    (currentInputTranscription s) (currentOutputTranscription s)
    (trace s ++ releases s) (heap s).

(** The panel a completed [stopConversation] leaves. *)
Definition stopped (s : VoiceChat) : VoiceChat :=
  mkVoiceChat false (transcriptions s) (error s) None None
    (closed_ref (audioContextRef s)) (scriptProcessorRef s) (sourceRef s)
    (closed_ref (outputAudioContextRef s)) 0 ∅
    (currentInputTranscription s) (currentOutputTranscription s)
    (trace s ++ teardown_calls s) (heap s).

(** Full teardown, seen from outside: the panel is idle and holds neither
    session nor capture stream, nothing is queued for playback, the offset
    is zero, both contexts are closed, and every object the refs held has
    received its releasing call. *)
Definition torn_down (before after : VoiceChat) : Prop :=
  isLive after = false
  ∧ sessionPromiseRef after = None
  ∧ streamRef after = None
  ∧ playingSources after = ∅
  ∧ nextStartTimeRef after = 0%Q
  ∧ (∀ c, audioContextRef after = Some c → state c = closed)
  ∧ (∀ c, outputAudioContextRef after = Some c → state c = closed)
  ∧ (∀ h, sessionPromiseRef before = Some h → session_close h ∈ trace after)
  ∧ (∀ h, streamRef before = Some h → track_stop h ∈ trace after)
  ∧ (∀ h, scriptProcessorRef before = Some h → node_disconnect h ∈ trace after)
  ∧ (∀ h, sourceRef before = Some h → node_disconnect h ∈ trace after)
  ∧ (∀ h, h ∈ playingSources before → source_stop h ∈ trace after).

End VoiceChat.

(** ** The visual assistant panel *)

Module VisualAssistant.

Record VisualAssistant := mkVisualAssistant {
  isLive : bool;
  error : option string;
  videoRef : option handle;
  canvasRef : option handle;
  intervalRef : option handle;
  sessionPromiseRef : option handle;
  streamRef : option handle;
  audioContextRef : option AudioContext;
  scriptProcessorRef : option handle;
  trace : list Call;
  heap : handle;
}.

(** The panel once mounted: React has filled the two element refs. *)
Definition initial : VisualAssistant :=
  {| isLive := false; error := None;
     videoRef := Some 0; canvasRef := Some 1;
     intervalRef := None; sessionPromiseRef := None; streamRef := None;
     audioContextRef := None; scriptProcessorRef := None;
     trace := []; heap := 2 |}.

Definition setIsLive (b : bool) (s : VisualAssistant) : VisualAssistant :=
  mkVisualAssistant b (error s) (videoRef s) (canvasRef s) (intervalRef s)
    (sessionPromiseRef s) (streamRef s) (audioContextRef s)
    (scriptProcessorRef s) (trace s) (heap s).

Definition call (c : Call) (s : VisualAssistant) : VisualAssistant :=
  mkVisualAssistant (isLive s) (error s) (videoRef s) (canvasRef s) (intervalRef s)
    (sessionPromiseRef s) (streamRef s) (audioContextRef s)
    (scriptProcessorRef s) (trace s ++ [c]) (heap s).

Definition set_error (v : option string) (s : VisualAssistant) : VisualAssistant :=
  call (setError v)
    (mkVisualAssistant (isLive s) v (videoRef s) (canvasRef s) (intervalRef s)
       (sessionPromiseRef s) (streamRef s) (audioContextRef s)
       (scriptProcessorRef s) (trace s) (heap s)).

Definition set_intervalRef (v : option handle) (s : VisualAssistant) : VisualAssistant :=
  mkVisualAssistant (isLive s) (error s) (videoRef s) (canvasRef s) v
    (sessionPromiseRef s) (streamRef s) (audioContextRef s)
    (scriptProcessorRef s) (trace s) (heap s).

Definition set_sessionPromiseRef (v : option handle) (s : VisualAssistant) : VisualAssistant :=
  mkVisualAssistant (isLive s) (error s) (videoRef s) (canvasRef s) (intervalRef s)
    v (streamRef s) (audioContextRef s)
    (scriptProcessorRef s) (trace s) (heap s).

Definition set_streamRef (v : option handle) (s : VisualAssistant) : VisualAssistant :=
  mkVisualAssistant (isLive s) (error s) (videoRef s) (canvasRef s) (intervalRef s)
    (sessionPromiseRef s) v (audioContextRef s)
    (scriptProcessorRef s) (trace s) (heap s).

Definition set_audioContextRef (v : option AudioContext) (s : VisualAssistant) : VisualAssistant :=
  mkVisualAssistant (isLive s) (error s) (videoRef s) (canvasRef s) (intervalRef s)
    (sessionPromiseRef s) (streamRef s) v
    (scriptProcessorRef s) (trace s) (heap s).

Definition set_scriptProcessorRef (v : option handle) (s : VisualAssistant) : VisualAssistant :=
  mkVisualAssistant (isLive s) (error s) (videoRef s) (canvasRef s) (intervalRef s)
    (sessionPromiseRef s) (streamRef s) (audioContextRef s)
    v (trace s) (heap s).

Definition alloc (s : VisualAssistant) : VisualAssistant :=
  mkVisualAssistant (isLive s) (error s) (videoRef s) (canvasRef s) (intervalRef s)
    (sessionPromiseRef s) (streamRef s) (audioContextRef s)
    (scriptProcessorRef s) (trace s) (S (heap s)).

(** [stopSession]. No ref is cleared. A timer id that [setInterval] returned
    is a positive number, so [if (intervalRef.current)] holds for it. *)
Definition stopSession (s : VisualAssistant) : VisualAssistant :=
  let s := match intervalRef s with
           | Some timer => call (clearInterval timer) s
           | None => s
           end in
  let s := match sessionPromiseRef s with
           | Some session => call (session_close session) s
           | None => s
           end in
  let s := match streamRef s with
           | Some stream => call (track_stop stream) s
           | None => s
           end in
  let s := match scriptProcessorRef s with
           | Some node => call (node_disconnect node) s
           | None => s
           end in
  let s := match audioContextRef s with
           | Some c =>
               if decide (state c ≠ closed)
               then set_audioContextRef (Some (close c)) (call (context_close (ctx_id c)) s)
               else s
           | None => s
           end in
  setIsLive false s.

(** [startSession]; [media] is what the awaited [getUserMedia] yields and
    [r] tells whether [new GoogleGenAI(..)] raises. There is no test of
    [isLive] at the head of the function. *)
Definition startSession (media : MediaResult) (r : TryResult)
    (s : VisualAssistant) : VisualAssistant :=
  let s := setIsLive true s in
  let s := set_error None s in
  let s := call (getUserMedia true true) s in
  match media with
  | rejected message => stopSession (set_error (Some message) s)
  | granted =>
      let stream := heap s in
      let s := set_streamRef (Some stream) (alloc s) in
      let s := match videoRef s with
               | Some video => call (set_srcObject video stream) s
               | None => s
               end in
      match r with
      | raises message => stopSession (set_error (Some message) s)
      | proceeds =>
          let session := heap s in
          let s := call (live_connect session) (alloc s) in
          set_sessionPromiseRef (Some session) s
      end
  end.

(** The [onopen] callback. [streamRef.current!] is handed to
    [createMediaStreamSource], which raises a [TypeError] on [null]. *)
Definition onopen (s : VisualAssistant) : Completion VisualAssistant :=
  let ctx := heap s in
  let s := call (new_AudioContext ctx 16000) (alloc s) in
  let s := set_audioContextRef (Some (mkAudioContext ctx 16000 running)) s in
  match streamRef s with
  | None => Throws "TypeError" s
  | Some stream =>
      let source := heap s in
      let s := call (createMediaStreamSource source stream) (alloc s) in
      let processor := heap s in
      let s := call (createScriptProcessor processor 4096) (alloc s) in
      let s := set_scriptProcessorRef (Some processor) s in
      let s := call (node_connect source) s in
      let s := call (node_connect processor) s in
      let timer := heap s in
      let s := call (setInterval timer 1000) (alloc s) in
      Returns (set_intervalRef (Some timer) s)
  end.

(** The [onaudioprocess] handler installed by [onopen]. *)
Definition onaudioprocess `{Utils} (inputData : list Q) (s : VisualAssistant) : VisualAssistant :=
  match sessionPromiseRef s with
  | Some session => call (sendRealtimeInput session (pcmBlob inputData)) s
  | None => s
  end.

(** The function given to [setInterval]; [jpeg] is [blobToBase64] of the
    blob [toBlob] produced, or [None] when it produced [null]. *)
Definition onframe (jpeg : option string) (s : VisualAssistant) : VisualAssistant :=
  match videoRef s, canvasRef s with
  | Some video, Some canvas =>
      let s := call (canvas_toBlob canvas video) s in
      match jpeg with
      | Some base64Data =>
          match sessionPromiseRef s with
          | Some session =>
              call (sendRealtimeInput session
                      {| data := base64Data; mimeType := "image/jpeg" |}) s
          | None => s
          end
      | None => s
      end
  | _, _ => s
  end.

(** The [onmessage] callback: its body is a comment. *)
Definition onmessage (msg : LiveServerMessage) (s : VisualAssistant) : VisualAssistant :=
  s.

(** The [onerror] callback; [type] is [e.type]. *)
Definition onerror (type : string) (s : VisualAssistant) : VisualAssistant :=
  stopSession (set_error (Some type) s).

(** The [onclose] callback. *)
Definition onclose (s : VisualAssistant) : VisualAssistant :=
  stopSession s.

(** [startSession] is [async]: its statements up to the [await] run at the
    call, the rest when [getUserMedia] has settled, on the panel as it is
    then. *)
Definition startSession_begin (s : VisualAssistant) : VisualAssistant :=
  let s := setIsLive true s in
  let s := set_error None s in
  call (getUserMedia true true) s.

Definition startSession_resume (media : MediaResult) (r : TryResult)
    (s : VisualAssistant) : VisualAssistant :=
  match media with
  | rejected message => stopSession (set_error (Some message) s)
  | granted =>
      let stream := heap s in
      let s := set_streamRef (Some stream) (alloc s) in
      let s := match videoRef s with
               | Some video => call (set_srcObject video stream) s
               | None => s
               end in
      match r with
      | raises message => stopSession (set_error (Some message) s)
      | proceeds =>
          let session := heap s in
          let s := call (live_connect session) (alloc s) in
          set_sessionPromiseRef (Some session) s
      end
  end.

(** The button, [onClick={isLive ? stopSession : startSession}]: the render
    on screen shows the [isLive] of the panel. *)
Definition onClick (s : VisualAssistant) : VisualAssistant :=
  if isLive s then stopSession s else startSession_begin s.

(** What the user and the platform do to a mounted panel: a click on the
    button, the settling of the oldest pending [getUserMedia], and the
    acknowledgement of the session by the remote side. *)
Inductive Event :=
  | click
  | settled (media : MediaResult) (r : TryResult)
  | opened.

Definition handle_event (e : Event) (s : VisualAssistant) : VisualAssistant :=
  match e with
  | click => onClick s
  | settled media r => startSession_resume media r s
  | opened => final (onopen s)
  end.

Definition run (events : list Event) (s : VisualAssistant) : VisualAssistant :=
  foldl (λ s e, handle_event e s) s events.

Definition calls_since (before after : VisualAssistant) : list Call :=
  drop (length (trace before)) (trace after).

Definition with_calls (calls : list Call) (s : VisualAssistant) : VisualAssistant :=
  mkVisualAssistant (isLive s) (error s) (videoRef s) (canvasRef s) (intervalRef s)
    (sessionPromiseRef s) (streamRef s) (audioContextRef s)
    (scriptProcessorRef s) (trace s ++ calls) (heap s).

(** The calls of one [stopSession]: those on what the refs hold, then
    the closing of the context. *)
Definition releases (s : VisualAssistant) : list Call :=
  option_list (clearInterval <$> intervalRef s)
  ++ option_list (session_close <$> sessionPromiseRef s)
  ++ option_list (track_stop <$> streamRef s)
  ++ option_list (node_disconnect <$> scriptProcessorRef s).

Definition teardown_calls (s : VisualAssistant) : list Call :=
  releases s ++ VoiceChat.closing_call (audioContextRef s).

(** [stopSession] called [n] times in a row. *)
Fixpoint stop_repeatedly (n : nat) (s : VisualAssistant) : VisualAssistant :=
  match n with
  | O => s
  | S n => stop_repeatedly n (stopSession s)
  end.

(** Full teardown, seen from outside: the panel is idle, the context is
    closed, and the timer, the session, the capture stream and the processor
    node the refs hold have received their releasing calls. *)
Definition torn_down (before after : VisualAssistant) : Prop :=
  isLive after = false
  ∧ (∀ c, audioContextRef after = Some c → state c = closed)
  ∧ (∀ h, intervalRef before = Some h → clearInterval h ∈ trace after)
  ∧ (∀ h, sessionPromiseRef before = Some h → session_close h ∈ trace after)
  ∧ (∀ h, streamRef before = Some h → track_stop h ∈ trace after)
  ∧ (∀ h, scriptProcessorRef before = Some h → node_disconnect h ∈ trace after).

End VisualAssistant.

(** ** The text-to-speech request *)

Module TextToSpeech.

Record TextToSpeech := mkTextToSpeech {
  text : string;
  isLoading : bool;
  error : option string;
  audioContextRef : option AudioContext;
  trace : list Call;
  heap : handle;
}.

(** What [await ai.models.generateContent(payload)] yields: a rejection, or
    a response whose first part carries inline data or not. *)
Inductive Response :=
  | failed (message : string)
  | responded (base64Audio : option string).

Definition call (c : Call) (s : TextToSpeech) : TextToSpeech :=
  mkTextToSpeech (text s) (isLoading s) (error s) (audioContextRef s)
    (trace s ++ [c]) (heap s).

Definition setIsLoading (b : bool) (s : TextToSpeech) : TextToSpeech :=
  mkTextToSpeech (text s) b (error s) (audioContextRef s) (trace s) (heap s).

Definition set_error (v : option string) (s : TextToSpeech) : TextToSpeech :=
  call (setError v)
    (mkTextToSpeech (text s) (isLoading s) v (audioContextRef s) (trace s) (heap s)).

Definition set_audioContextRef (v : option AudioContext) (s : TextToSpeech) : TextToSpeech :=
  mkTextToSpeech (text s) (isLoading s) (error s) v (trace s) (heap s).

Definition alloc (s : TextToSpeech) : TextToSpeech :=
  mkTextToSpeech (text s) (isLoading s) (error s) (audioContextRef s)
    (trace s) (S (heap s)).

(** The audio context to play in: the one held unless absent or closed. *)
Definition ensure_context (s : TextToSpeech) : TextToSpeech :=
  let fresh s :=
    let ctx := heap s in
    set_audioContextRef (Some (mkAudioContext ctx 24000 running))
      (call (new_AudioContext ctx 24000) (alloc s)) in
  match audioContextRef s with
  | None => fresh s
  | Some c => if decide (state c = closed) then fresh s else s
  end.

Definition handleSpeak `{Utils} (response : Response) (s : TextToSpeech) : TextToSpeech :=
  if decide (text s = "") then s else
  if isLoading s then s else
  let s := setIsLoading true s in
  let s := set_error None s in
  let s := call generateContent s in
  let s :=
    match response with
    | failed message => set_error (Some message) s
    | responded (Some base64Audio) =>
        if decide (base64Audio = "")
        then set_error (Some "No audio data received from API.") s
        else
          let s := ensure_context s in
          let audioBuffer := decodeAudioData (decode base64Audio) 24000 1 in
          let source := heap s in
          let s := call (node_connect source) (alloc s) in
          call (source_start source 0 audioBuffer) s
    | responded None => set_error (Some "No audio data received from API.") s
    end in
  setIsLoading false s.

Definition calls_since (before after : TextToSpeech) : list Call :=
  drop (length (trace before)) (trace after).

End TextToSpeech.

(** The error messages among a list of calls: the strings handed to
    [setError]. *)
Definition error_messages (calls : list Call) : list string :=
  calls ≫= (λ c, match c with setError (Some message) => [message] | _ => [] end).

(** A handler presented exactly one error message. *)
Definition exactly_one_message (calls : list Call) : Prop :=
  ∃ message, error_messages calls = [message].

(** Calls that open a connection or ask for a device. *)
Definition is_retry (c : Call) : bool :=
  match c with
  | live_connect _ | getUserMedia _ _ => true
  | _ => false
  end.

(** ** Reading the claims *)

(** The schedule the specification words describe: each segment starts at the
    larger of the end of the segment before it and the clock at its arrival.
    An arrival is the clock reading and the duration of the segment. *)
Fixpoint plan (previous_end : Q) (arrivals : list (Q * Q)) : list (Q * Q) :=
  match arrivals with
  | [] => []
  | (clock, d) :: rest =>
      let start := Qmax previous_end clock in
      (start, (start + d)%Q) :: plan (start + d)%Q rest
  end.

(** Back-to-back playback: every segment starts where the one before ends. *)
Definition contiguous (sch : list (Q * Q)) : Prop :=
  ∀ i a b, sch !! i = Some a → sch !! S i = Some b → (b.1 == a.2)%Q.

Section Segments.
Context {U : Utils}.

(** The fragments of the two transcriptions that a list of messages
    carries, in order. *)
Definition fragment (transcription : option Transcription) : string :=
  from_option (λ t, default "undefined" (text t)) "" transcription.

Definition input_fragments (messages : list LiveServerMessage) : string :=
  foldr (λ m rest, fragment (inputTranscription m) +:+ rest) "" messages.

Definition output_fragments (messages : list LiveServerMessage) : string :=
  foldr (λ m rest, fragment (outputTranscription m) +:+ rest) "" messages.


(** A message that delivers one audio segment and no interruption. *)
Definition is_segment (m : LiveServerMessage) : Prop :=
  (∃ base64Audio, inlineData m = Some base64Audio ∧ base64Audio ≠ "")
  ∧ interrupted m = false.

Definition segment_duration (m : LiveServerMessage) : Q :=
  match inlineData m with
  | Some base64Audio => duration (decodeAudioData (decode base64Audio) 24000 1)
  | None => 0
  end.

Definition arrival (e : Q * LiveServerMessage) : Q * Q :=
  (e.1, segment_duration e.2).

Definition deliver (e : Q * LiveServerMessage) : VoiceChat.Event :=
  VoiceChat.message e.1 e.2.

End Segments.

(** ** The voice chat on screen *)

Module Mounted.

(** The panel, and whether React still has it mounted. *)
Record Mounted := mkMounted {
  panel : VoiceChat.VoiceChat;
  mounted : bool;
}.

Definition initial : Mounted :=
  {| panel := VoiceChat.initial; mounted := true |}.

(** The render of the panel. The entries of the transcript are rendered by
    [transcriptions.map((t, i) => ..)]: the parameter [t] hides the
    translation function [t] that the body calls, so with an entry to
    render [t('liveYou')] raises a [TypeError]. The sources declare no error
    boundary: React takes the panel off the screen, and the cleanup of the
    effect runs [stopConversation]. *)
Definition render (s : Mounted) : Mounted :=
  match VoiceChat.transcriptions (panel s) with
  | [] => s
  | _ :: _ => {| panel := final (VoiceChat.stopConversation (panel s));
                 mounted := false |}
  end.

(** What the user and the platform do to the panel on screen. A click
    carries what the [try] of [startConversation] does, should the click
    start a conversation. *)
Inductive Event :=
  | click (r : TryResult)
  | opened (r : MediaResult)
  | message (currentTime : Q) (m : LiveServerMessage)
  | errored (type : string)
  | closed_by_remote
  | audioprocess (inputData : list Q)
  | ended (source : handle).

Section WithUtils.
Context {U : Utils}.

(** The button is [onClick={isLive ? stopConversation : startConversation}],
    with the [isLive] of the render on screen. *)
Definition handler (e : Event) (s : VoiceChat.VoiceChat) : Completion VoiceChat.VoiceChat :=
  match e with
  | click r =>
      if VoiceChat.isLive s
      then VoiceChat.stopConversation s
      else VoiceChat.startConversation r s
  | opened r => VoiceChat.onopen r s
  | message currentTime m => VoiceChat.onmessage currentTime m s
  | errored type => VoiceChat.onerror type s
  | closed_by_remote => VoiceChat.onclose s
  | audioprocess inputData => Returns (VoiceChat.onaudioprocess inputData s)
  | ended source => Returns (VoiceChat.onended source s)
  end.

(** One event, and the render that follows it. A panel that is off the
    screen has no button and no state cells any more: it is left as it
    is. *)
Definition step (e : Event) (s : Mounted) : Mounted :=
  if mounted s
  then render {| panel := final (handler e (panel s)); mounted := true |}
  else s.

Definition run (events : list Event) (s : Mounted) : Mounted :=
  foldl (λ s e, step e s) s events.

End WithUtils.

End Mounted.

(** An instance of [Utils] on which the handlers can be evaluated: one
    character per byte, and 16-bit samples at the given rate. *)
Definition sample_utils : Utils :=
  {| encode := λ bytes, string_of_list_ascii ((λ b, ascii_of_nat (Z.to_nat b)) <$> bytes);
     decode := λ text, (λ a, Z.of_nat (nat_of_ascii a)) <$> list_ascii_of_string text;
     decodeAudioData := λ bytes rate channels,
       mkAudioBuffer (inject_Z (Z.of_nat (length bytes) / 2 / channels) / inject_Z rate) |}.

(** A voice chat with an open session: started, then acknowledged by the
    remote side with the microphone granted. *)
Definition live_voice_chat : VoiceChat.VoiceChat :=
  @VoiceChat.run sample_utils
    [VoiceChat.start proceeds; VoiceChat.opened granted] VoiceChat.initial.

(** A visual assistant with an open session: started with camera and
    microphone granted, then acknowledged by the remote side. *)
Definition live_visual_assistant : VisualAssistant.VisualAssistant :=
  final (VisualAssistant.onopen
           (VisualAssistant.startSession granted proceeds VisualAssistant.initial)).

(** A message that carries one sample of audio and nothing else. *)
Definition one_sample : LiveServerMessage :=
  {| inputTranscription := None; outputTranscription := None;
     turnComplete := false; inlineData := Some "ab"; interrupted := false |}.

(** A message without audio: a fragment of the transcription only. *)
Definition no_audio : LiveServerMessage :=
  {| inputTranscription := Some {| text := Some "hello" |};
     outputTranscription := None;
     turnComplete := false; inlineData := None; interrupted := false |}.

(** A text-to-speech panel with a text typed in and no request pending. *)
Definition ready_to_speak : TextToSpeech.TextToSpeech :=
  {| TextToSpeech.text := "hello"; TextToSpeech.isLoading := false;
     TextToSpeech.error := None; TextToSpeech.audioContextRef := None;
     TextToSpeech.trace := []; TextToSpeech.heap := 0 |}.

(** A message that carries the interruption mark and nothing else. *)
Definition interruption : LiveServerMessage :=
  {| inputTranscription := None; outputTranscription := None;
     turnComplete := false; inlineData := None; interrupted := true |}.

(** The last message of a turn: a fragment of each transcription and the
    turn-complete mark. *)
Definition end_of_turn : LiveServerMessage :=
  {| inputTranscription := Some {| text := Some " there" |};
     outputTranscription := Some {| text := Some "Hi!" |};
     turnComplete := true; inlineData := None; interrupted := false |}.

(** A voice chat that was stopped by the user: idle again, with the closed
    contexts and the disconnected nodes of the conversation still in its
    refs. *)
Definition stopped_voice_chat : VoiceChat.VoiceChat :=
  @VoiceChat.run sample_utils [VoiceChat.stop] live_voice_chat.

(** The open voice chat with one segment queued for playback. *)
Definition playing_voice_chat : VoiceChat.VoiceChat :=
  @VoiceChat.run sample_utils [VoiceChat.message 0 one_sample] live_voice_chat.

(** ** The transcription request *)

Module AudioTranscriber.

(** A [File] of the input element, as far as the panel reads it. *)
Record File := mkFile {
  name : string;
  type : string;
}.

(** The four [useState] cells and the trace. [transcription] is [None] when
    the cell holds [undefined]. *)
Record AudioTranscriber := mkAudioTranscriber {
  audioFile : option File;
  transcription : option string;
  isLoading : bool;
  error : option string;
  trace : list Call;
}.

Definition initial : AudioTranscriber :=
  {| audioFile := None; transcription := Some ""; isLoading := false;
     error := None; trace := [] |}.

(** What the awaited calls of [handleTranscribe] yield: an exception before
    the request is made ([new GoogleGenAI] raises or [fileToBase64]
    rejects), a rejected request, or a response with its [text], which is
    [undefined] when the response has none. *)
Inductive Outcome :=
  | unreadable (message : string)
  | failed (message : string)
  | responded (text : option string).

Definition setAudioFile (v : option File) (s : AudioTranscriber) : AudioTranscriber :=
  mkAudioTranscriber v (transcription s) (isLoading s) (error s) (trace s).

Definition setTranscription (v : option string) (s : AudioTranscriber) : AudioTranscriber :=
  mkAudioTranscriber (audioFile s) v (isLoading s) (error s) (trace s).

Definition setIsLoading (b : bool) (s : AudioTranscriber) : AudioTranscriber :=
  mkAudioTranscriber (audioFile s) (transcription s) b (error s) (trace s).

Definition call (c : Call) (s : AudioTranscriber) : AudioTranscriber :=
  mkAudioTranscriber (audioFile s) (transcription s) (isLoading s) (error s)
    (trace s ++ [c]).

Definition set_error (v : option string) (s : AudioTranscriber) : AudioTranscriber :=
  call (setError v)
    (mkAudioTranscriber (audioFile s) (transcription s) (isLoading s) v (trace s)).

(** [handleFileChange]; [files] is [e.target.files], [None] for [null]. *)
Definition handleFileChange (files : option (list File)) (s : AudioTranscriber) : AudioTranscriber :=
  match files ≫= head with
  | Some file => setTranscription (Some "") (setAudioFile (Some file) s)
  | None => s
  end.

Definition handleTranscribe (outcome : Outcome) (s : AudioTranscriber) : AudioTranscriber :=
  match audioFile s with
  | None => s
  | Some file =>
      if isLoading s then s else
      let s := setIsLoading true s in
      let s := set_error None s in
      let s :=
        match outcome with
        | unreadable message => set_error (Some message) s
        | failed message => set_error (Some message) (call generateContent s)
        | responded text => setTranscription text (call generateContent s)
        end in
      setIsLoading false s
  end.

Definition calls_since (before after : AudioTranscriber) : list Call :=
  drop (length (trace before)) (trace after).

(** The panel renders the transcription when the cell is truthy. *)
Definition shown (s : AudioTranscriber) : option string :=
  match transcription s with
  | Some text => if decide (text = "") then None else Some text
  | None => None
  end.

End AudioTranscriber.

(** ** The chat panel *)

(** [String.prototype.trim] is the platform's. *)
Class Strings := {
  trim : string → string;
}.

Module Chatbot.

Inductive Role := user | model.

Record ChatMessage := mkChatMessage {
  role : Role;
  text : string;
}.

(** What [sendMessageStream] and the iteration of its stream yield: the
    [text] of each chunk that arrives, [None] when it is [undefined], and
    then the end of the stream or an exception. A rejected
    [sendMessageStream] is an exception before the first chunk. *)
Record Stream := mkStream {
  chunks : list (option string);
  failure : option string;
}.

(** The [useState] cells the handler touches, [chatRef], and the messages
    handed to [sendMessageStream], oldest first. *)
Record Chatbot := mkChatbot {
  messages : list ChatMessage;
  input : string;
  isLoading : bool;
  error : option string;
  chatRef : option handle;
  sent : list string;
}.

Definition setMessages (f : list ChatMessage → list ChatMessage) (s : Chatbot) : Chatbot :=
  mkChatbot (f (messages s)) (input s) (isLoading s) (error s) (chatRef s) (sent s).

Definition setInput (v : string) (s : Chatbot) : Chatbot :=
  mkChatbot (messages s) v (isLoading s) (error s) (chatRef s) (sent s).

Definition setIsLoading (b : bool) (s : Chatbot) : Chatbot :=
  mkChatbot (messages s) (input s) b (error s) (chatRef s) (sent s).

Definition setError (v : option string) (s : Chatbot) : Chatbot :=
  mkChatbot (messages s) (input s) (isLoading s) v (chatRef s) (sent s).

Definition sendMessageStream (message : string) (s : Chatbot) : Chatbot :=
  mkChatbot (messages s) (input s) (isLoading s) (error s) (chatRef s)
    (sent s ++ [message]).

(** [accumulatedText += chunk.text]: an [undefined] text is appended as the
    string it converts to. *)
Definition append_text (accumulatedText : string) (chunk : option string) : string :=
  accumulatedText +:+ default "undefined" chunk.

(** The updater of the loop: a copy of the list with its last element
    replaced. On the empty list the index is -1 and no element is set. *)
Definition replace_last (accumulatedText : string) (prev : list ChatMessage) : list ChatMessage :=
  <[pred (length prev) := {| role := model; text := accumulatedText |}]> prev.

(** [for await (const chunk of stream) ..]. No other handler calls
    [setMessages], so the updaters of the loop meet the list the handler
    itself left. *)
Fixpoint for_await (chunks : list (option string)) (accumulatedText : string)
    (s : Chatbot) : Chatbot :=
  match chunks with
  | [] => s
  | chunk :: rest =>
      let accumulatedText := append_text accumulatedText chunk in
      for_await rest accumulatedText (setMessages (replace_last accumulatedText) s)
  end.

Definition handleSend `{Strings} (stream : Stream) (s : Chatbot) : Chatbot :=
  if decide (trim (input s) = "") then s else
  if isLoading s then s else
  match chatRef s with
  | None => s
  | Some chat =>
      let userMessage := {| role := user; text := input s |} in
      let modelPlaceholder := {| role := model; text := "" |} in
      let message := input s in
      let s := setMessages (λ prev, prev ++ [userMessage; modelPlaceholder]) s in
      let s := setInput "" s in
      let s := setIsLoading true s in
      let s := setError None s in
      let s := sendMessageStream message s in
      let s := for_await (chunks stream) "" s in
      let s := match failure stream with
               | Some message =>
                   setMessages (λ prev, take (length prev - 1) prev)
                     (setError (Some message) s)
               | None => s
               end in
      setIsLoading false s
  end.

End Chatbot.

(** ** Speech recognition in the translation panel *)

Module TranslateTool.

(** A [SpeechRecognitionResult]: its flag and the transcript of its first
    alternative. *)
Record SpeechRecognitionResult := mkSpeechRecognitionResult {
  isFinal : bool;
  transcript : string;
}.

(** The loop of [onresult] over the results it visits, with its two
    accumulators. *)
Fixpoint collect (results : list SpeechRecognitionResult)
    (interimTranscript finalTranscript : string) : string * string :=
  match results with
  | [] => (interimTranscript, finalTranscript)
  | result :: rest =>
      if isFinal result
      then collect rest interimTranscript (finalTranscript +:+ transcript result)
      else collect rest (interimTranscript +:+ transcript result) finalTranscript
  end.

(** [recognitionInstance.onresult]: the value it hands to [setSourceText].
    The loop starts at [event.resultIndex]. *)
Definition onresult (resultIndex : nat) (results : list SpeechRecognitionResult) : string :=
  let '(interimTranscript, finalTranscript) := collect (drop resultIndex results) "" "" in
  finalTranscript +:+ interimTranscript.

End TranslateTool.

(** Trimming for strings of ASCII characters: space, tab, line feed,
    vertical tab, form feed and carriage return go, at both ends. *)
Definition is_ascii_space (a : ascii) : bool :=
  bool_decide (nat_of_ascii a ∈ [9; 10; 11; 12; 13; 32]%nat).

Fixpoint trim_start (s : string) : string :=
  match s with
  | String a rest => if is_ascii_space a then trim_start rest else s
  | EmptyString => EmptyString
  end.

Definition ascii_strings : Strings :=
  {| trim := λ s, String.rev (trim_start (String.rev (trim_start s))) |}.

(** A transcriber with a file chosen and a transcription on display. *)
Definition transcribed : AudioTranscriber.AudioTranscriber :=
  {| AudioTranscriber.audioFile := Some (AudioTranscriber.mkFile "a.wav" "audio/wav");
     AudioTranscriber.transcription := Some "good morning";
     AudioTranscriber.isLoading := false;
     AudioTranscriber.error := None;
     AudioTranscriber.trace := [] |}.

(** A chat with one exchange behind it and a question typed in. *)
Definition chat_with_question : Chatbot.Chatbot :=
  {| Chatbot.messages := [ {| Chatbot.role := Chatbot.user; Chatbot.text := "hi" |};
                           {| Chatbot.role := Chatbot.model; Chatbot.text := "Hello!" |} ];
     Chatbot.input := " why? ";
     Chatbot.isLoading := false;
     Chatbot.error := None;
     Chatbot.chatRef := Some 0;
     Chatbot.sent := ["hi"] |}.

(** The texts of the chunks of a stream, joined. *)
Definition joined (chunks : list (option string)) : string :=
  foldr (λ chunk rest, default "undefined" chunk +:+ rest) "" chunks.

(** The transcripts of the results that carry the given flag, joined. *)
Definition transcripts (flag : bool) (results : list TranslateTool.SpeechRecognitionResult) : string :=
  foldr (λ result rest,
           if bool_decide (TranslateTool.isFinal result = flag)
           then TranslateTool.transcript result +:+ rest else rest)
    "" results.

(** ** Reading the further properties *)

(** Every arrival comes while the segment before it has not ended: its clock
    has not passed the offset the scheduler holds. *)
Fixpoint punctual (previous_end : Q) (arrivals : list (Q * Q)) : Prop :=
  match arrivals with
  | [] => True
  | (clock, d) :: rest =>
      (clock <= previous_end)%Q ∧ punctual (previous_end + d)%Q rest
  end.

(** What a reader of the payload gets back from the bytes, by
    [new Int16Array(bytes.buffer)]: two bytes, low byte first, read as a
    16-bit two's complement number. *)
Fixpoint read_int16 (bytes : list Z) : list Z :=
  match bytes with
  | lo :: hi :: rest =>
      (let u := (lo + 256 * hi)%Z in
       if (32768 <=? u)%Z then (u - 65536)%Z else u) :: read_int16 rest
  | _ => []
  end.

(** * Properties *)

(** ** Playback schedule *)

Lemma Qmax_when_behind (previous_end clock : Q) :
  (clock <= previous_end)%Q → Qmax previous_end clock = previous_end.
Proof.
  intros Hle. unfold Qmax, GenericMinMax.gmax.
  destruct (Qcompare_spec previous_end clock); try done. lra.
Qed.

Lemma Qmax_when_ahead (previous_end clock : Q) :
  (previous_end < clock)%Q → Qmax previous_end clock = clock.
Proof.
  intros Hlt. unfold Qmax, GenericMinMax.gmax.
  destruct (Qcompare_spec previous_end clock); try done; lra.
Qed.

(** Two neighbours of a plan: the later one starts at the larger of the
    earlier one's end and its own arrival clock. *)
Lemma plan_neighbours previous_end arrivals i a b clock d :
  Forall (λ e, (0 <= e.2)%Q) arrivals →
  plan previous_end arrivals !! i = Some a →
  plan previous_end arrivals !! S i = Some b →
  arrivals !! S i = Some (clock, d) →
  b.1 = Qmax a.2 clock ∧ (a.1 <= b.1)%Q ∧ (a.2 <= b.1)%Q
  ∧ ((clock <= a.2)%Q → b.1 = a.2)
  ∧ ((a.2 < clock)%Q → b.1 = clock).
Proof.
  revert previous_end i.
  induction arrivals as [|[clock0 d0] rest IH]; intros previous_end i Hpos Ha Hb Harr.
  - done.
  - apply Forall_cons in Hpos as [Hd0 Hpos]. simpl in Hd0.
    destruct i as [|i].
    + simpl in Ha. injection Ha as <-.
      destruct rest as [|[clock1 d1] rest]; [done|].
      simpl in Hb, Harr. injection Hb as <-. injection Harr as -> ->. simpl.
      pose proof (Q.le_max_l (Qmax previous_end clock0 + d0) clock).
      split; [done|]. split; [lra|]. split; [lra|].
      split; [apply Qmax_when_behind|apply Qmax_when_ahead].
    + simpl in Ha, Hb, Harr. eapply IH; eauto.
Qed.

Section Schedule.
Context {U : Utils}.

Lemma calls_since_app (s s' : VoiceChat.VoiceChat) calls :
  VoiceChat.trace s' = VoiceChat.trace s ++ calls →
  VoiceChat.calls_since s s' = calls.
Proof. unfold VoiceChat.calls_since. intros ->. by rewrite drop_app_length. Qed.

(** One segment delivered to a panel that holds an output context. *)
Lemma onmessage_segment clock m s ctx :
  VoiceChat.outputAudioContextRef s = Some ctx →
  is_segment m →
  ∃ s',
    VoiceChat.onmessage clock m s = Returns s'
    ∧ VoiceChat.outputAudioContextRef s' = Some ctx
    ∧ VoiceChat.nextStartTimeRef s'
      = (Qmax (VoiceChat.nextStartTimeRef s) clock + segment_duration m)%Q
    ∧ VoiceChat.trace s'
      = VoiceChat.trace s
        ++ [node_connect (VoiceChat.heap s);
            source_start (VoiceChat.heap s)
              (Qmax (VoiceChat.nextStartTimeRef s) clock)
              (decodeAudioData (decode (default "" (inlineData m))) 24000 1)].
Proof.
  intros Hctx [(b & Hb & Hne) Hint].
  destruct s, m; simpl in *. subst.
  unfold VoiceChat.onmessage, VoiceChat.interrupt, VoiceChat.play,
    VoiceChat.complete_turn, VoiceChat.accumulate, segment_duration; simpl.
  destruct inputTranscription0, outputTranscription0, turnComplete0; simpl;
    (destruct (decide (b = "")); [done|]); simpl;
    eexists; (split; [reflexivity|]); simpl;
    rewrite <- ?(assoc_L (++)); done.
Qed.

Lemma schedule_app tr1 tr2 :
  VoiceChat.schedule (tr1 ++ tr2) = VoiceChat.schedule tr1 ++ VoiceChat.schedule tr2.
Proof. unfold VoiceChat.schedule. apply bind_app. Qed.

Lemma run_cons e events s :
  VoiceChat.run (e :: events) s
  = VoiceChat.run events (final (VoiceChat.handle_event e s)).
Proof. reflexivity. Qed.

(** A run of segments extends the trace by exactly the planned starts. *)
Lemma run_segments arrivals s ctx :
  VoiceChat.outputAudioContextRef s = Some ctx →
  Forall (λ e, is_segment e.2) arrivals →
  ∃ calls,
    VoiceChat.trace (VoiceChat.run (deliver <$> arrivals) s) = VoiceChat.trace s ++ calls
    ∧ VoiceChat.schedule calls
      = plan (VoiceChat.nextStartTimeRef s) (arrival <$> arrivals).
Proof.
  revert s. induction arrivals as [|[clock m] rest IH]; intros s Hctx Hseg.
  - exists []. by rewrite app_nil_r.
  - apply Forall_cons in Hseg as [Hm Hrest]. simpl in Hm.
    destruct (onmessage_segment clock m s ctx Hctx Hm) as (s1 & Hrun & Hctx1 & Hnext & Htr).
    destruct (IH s1 Hctx1 Hrest) as (calls & Htr' & Hsch).
    eexists. rewrite fmap_cons, run_cons.
    change (VoiceChat.handle_event (deliver (clock, m)) s)
      with (VoiceChat.onmessage clock m s).
    rewrite Hrun. cbn [final].
    rewrite Htr', Htr, <- (assoc_L (++)). split; [done|].
    rewrite schedule_app, Hsch, Hnext. simpl.
    unfold segment_duration. destruct Hm as [(b & -> & _) _]. done.
Qed.

End Schedule.

(** C1, as the code has it. Segments delivered in arrival order to a voice
    chat that holds its output context are scheduled in that order, each at
    the larger of the end of the segment before it and the clock at its
    arrival. With durations that are not negative, start times never
    decrease and no segment starts before the one before it ends; a segment
    starts exactly at that end whenever the clock at its arrival has not
    passed it, and at the clock otherwise. *)
Theorem segments_start_at_max_of_previous_end_and_clock
    {U : Utils} (s : VoiceChat.VoiceChat) (ctx : AudioContext)
    (arrivals : list (Q * LiveServerMessage)) :
  VoiceChat.outputAudioContextRef s = Some ctx →
  Forall (λ e, is_segment e.2 ∧ (0 <= segment_duration e.2)%Q) arrivals →
  let s' := VoiceChat.run (deliver <$> arrivals) s in
  let sch := VoiceChat.schedule (VoiceChat.calls_since s s') in
  sch = plan (VoiceChat.nextStartTimeRef s) (arrival <$> arrivals)
  ∧ ∀ i a b e,
      sch !! i = Some a → sch !! S i = Some b → arrivals !! S i = Some e →
      b.1 = Qmax a.2 e.1
      ∧ (a.1 <= b.1)%Q ∧ (a.2 <= b.1)%Q
      ∧ ((e.1 <= a.2)%Q → b.1 = a.2)
      ∧ ((a.2 < e.1)%Q → b.1 = e.1).
Proof.
  intros Hctx Hall s' sch.
  assert (Forall (λ e, is_segment e.2) arrivals) as Hseg
    by (eapply Forall_impl; [exact Hall|]; by intros ? [? _]).
  destruct (run_segments arrivals s ctx Hctx Hseg) as (calls & Htr & Hsch).
  assert (sch = plan (VoiceChat.nextStartTimeRef s) (arrival <$> arrivals)) as Hplan.
  { subst sch s'. by rewrite (calls_since_app _ _ _ Htr). }
  split; [done|].
  intros i a b [clock m] Ha Hb He. rewrite Hplan in Ha, Hb.
  apply (plan_neighbours (VoiceChat.nextStartTimeRef s) (arrival <$> arrivals)
           i a b clock (segment_duration m)); [|done|done|].
  - apply Forall_fmap. eapply Forall_impl; [exact Hall|]. by intros ? [_ ?].
  - by rewrite list_lookup_fmap, He.
Qed.

Lemma segments_start_at_max_of_previous_end_and_clock_witness :
  let arrivals := [(0%Q, one_sample); ((1#48000)%Q, one_sample); (5%Q, one_sample)] in
  let s' := @VoiceChat.run sample_utils (deliver <$> arrivals) live_voice_chat in
  let sch := VoiceChat.schedule (VoiceChat.calls_since live_voice_chat s') in
  sch = plan 0 (@arrival sample_utils <$> arrivals)
  ∧ ∀ i a b e,
      sch !! i = Some a → sch !! S i = Some b → arrivals !! S i = Some e →
      b.1 = Qmax a.2 e.1
      ∧ (a.1 <= b.1)%Q ∧ (a.2 <= b.1)%Q
      ∧ ((e.1 <= a.2)%Q → b.1 = a.2)
      ∧ ((a.2 < e.1)%Q → b.1 = e.1).
Proof.
  apply (@segments_start_at_max_of_previous_end_and_clock sample_utils
           live_voice_chat (mkAudioContext 0 24000 running)).
  - reflexivity.
  - repeat constructor; try (by eexists; split; [reflexivity|done]); by vm_compute.
Defined.

(** C1 as stated fails: a segment that arrives after the one before it has
    finished playing starts at the clock, not at the end of that segment. *)
Lemma late_segment_leaves_a_gap :
  ¬ contiguous
      (VoiceChat.schedule
         (VoiceChat.trace
            (@VoiceChat.run sample_utils
               [VoiceChat.message 0 one_sample; VoiceChat.message 5 one_sample]
               live_voice_chat))).
Proof.
  intros H. specialize (H 0%nat (0%Q, (1#24000)%Q) (5%Q, (120001#24000)%Q)).
  vm_compute in H. specialize (H eq_refl eq_refl). discriminate H.
Qed.

(** ** Teardown of the voice chat *)

Ltac unfold_voice :=
  cbv beta iota zeta delta
    [VoiceChat.setIsLive VoiceChat.setTranscriptions VoiceChat.set_error
     VoiceChat.set_sessionPromiseRef VoiceChat.set_streamRef
     VoiceChat.set_audioContextRef VoiceChat.set_scriptProcessorRef
     VoiceChat.set_sourceRef VoiceChat.set_outputAudioContextRef
     VoiceChat.set_nextStartTimeRef VoiceChat.set_playingSources
     VoiceChat.set_currentInputTranscription
     VoiceChat.set_currentOutputTranscription
     VoiceChat.alloc VoiceChat.with_calls VoiceChat.call
     VoiceChat.isLive VoiceChat.transcriptions VoiceChat.error
     VoiceChat.sessionPromiseRef VoiceChat.streamRef VoiceChat.audioContextRef
     VoiceChat.scriptProcessorRef VoiceChat.sourceRef
     VoiceChat.outputAudioContextRef VoiceChat.nextStartTimeRef
     VoiceChat.playingSources VoiceChat.currentInputTranscription
     VoiceChat.currentOutputTranscription VoiceChat.trace VoiceChat.heap] in *.

Lemma started_app source tr calls :
  VoiceChat.started source tr = true → VoiceChat.started source (tr ++ calls) = true.
Proof. unfold VoiceChat.started. rewrite existsb_app. by intros ->. Qed.

Lemma with_calls_nil s : VoiceChat.with_calls [] s = s.
Proof. destruct s. unfold VoiceChat.with_calls; simpl. by rewrite app_nil_r. Qed.

Lemma with_calls_cons c calls s :
  VoiceChat.with_calls (c :: calls) s = VoiceChat.with_calls calls (VoiceChat.call c s).
Proof.
  destruct s. unfold VoiceChat.with_calls, VoiceChat.call; simpl.
  by rewrite <- (assoc_L (++)).
Qed.

(** The loop over the playback set returns when every node was started. *)
Lemma forEach_stop_started sources s :
  Forall (λ source, VoiceChat.started source (VoiceChat.trace s) = true) sources →
  VoiceChat.forEach_stop sources s
  = Returns (VoiceChat.with_calls (source_stop <$> sources) s).
Proof.
  revert s. induction sources as [|source rest IH]; intros s Hall; simpl.
  - by rewrite with_calls_nil.
  - apply Forall_cons in Hall as [Hsource Hrest].
    unfold VoiceChat.stop_source. rewrite Hsource. simpl.
    rewrite IH, <- with_calls_cons; [done|].
    eapply Forall_impl; [exact Hrest|]. intros ? ?. by apply started_app.
Qed.

(** The loop throws at the first node that was never started. *)
Lemma forEach_stop_throws source s :
  VoiceChat.started source (VoiceChat.trace s) = false →
  VoiceChat.forEach_stop [source] s = Throws "InvalidStateError" s.
Proof. intros H. simpl. unfold VoiceChat.stop_source. by rewrite H. Qed.

Lemma release_closed_form s : VoiceChat.release s = VoiceChat.released s.
Proof.
  unfold VoiceChat.release, VoiceChat.released, VoiceChat.releases,
    VoiceChat.disconnects.
  destruct s as [live ts err session stream actx sp src octx next ps cin cout tr hp].
  simpl.
  destruct session, stream, sp, src; simpl;
    destruct actx as [[aid arate []]|]; simpl;
    destruct octx as [[oid orate []]|]; simpl;
    unfold_voice; rewrite <- ?(assoc_L (++)); simpl; rewrite ?app_nil_r; done.
Qed.

Lemma stopConversation_returns s :
  VoiceChat.tracked_sources_started s →
  VoiceChat.stopConversation s = Returns (VoiceChat.stopped s).
Proof.
  intros Hwf. unfold VoiceChat.stopConversation. cbv zeta.
  rewrite release_closed_form, forEach_stop_started.
  - unfold VoiceChat.stopped, VoiceChat.teardown_calls, VoiceChat.released.
    simpl. unfold_voice. by rewrite <- (assoc_L (++)).
  - apply Forall_forall. intros source Hin. simpl.
    apply started_app, Hwf. by apply elem_of_elements.
Qed.

Lemma closed_ref_closed ref c :
  VoiceChat.closed_ref ref = Some c → state c = closed.
Proof.
  destruct ref as [[id rate st]|]; simpl; [|done].
  destruct st; simpl; intros; by simplify_eq.
Qed.

Lemma closing_call_closed_ref ref :
  VoiceChat.closing_call (VoiceChat.closed_ref ref) = [].
Proof. by destruct ref as [[id rate []]|]. Qed.

Lemma stopped_torn_down s : VoiceChat.torn_down s (VoiceChat.stopped s).
Proof.
  unfold VoiceChat.torn_down, VoiceChat.stopped, VoiceChat.teardown_calls,
    VoiceChat.releases, VoiceChat.disconnects; simpl.
  repeat split; try done; try apply closed_ref_closed.
  all: intros h Hh; rewrite ?Hh; simpl; set_solver.
Qed.

Lemma with_calls_app calls1 calls2 s :
  VoiceChat.with_calls calls2 (VoiceChat.with_calls calls1 s)
  = VoiceChat.with_calls (calls1 ++ calls2) s.
Proof. unfold VoiceChat.with_calls; simpl. by rewrite <- (assoc_L (++)). Qed.

Lemma torn_down_tracked s :
  VoiceChat.torn_down s s → VoiceChat.tracked_sources_started s.
Proof. intros (_ & _ & _ & Hps & _) source. rewrite Hps. set_solver. Qed.

Lemma stopped_settled s :
  VoiceChat.torn_down (VoiceChat.stopped s) (VoiceChat.stopped s).
Proof.
  destruct (stopped_torn_down s) as (H1 & H2 & H3 & H4 & H5 & H6 & H7 & _ & _ & H10 & H11 & _).
  repeat split; done.
Qed.

(** On a panel already torn down a further [stopConversation] only repeats
    the two [disconnect] calls. *)
Lemma settled_stopped s :
  VoiceChat.torn_down s s →
  VoiceChat.stopped s = VoiceChat.with_calls (VoiceChat.disconnects s) s.
Proof.
  destruct s as [live ts err session stream actx sp src octx next ps cin cout tr hp].
  unfold VoiceChat.torn_down; simpl.
  intros (-> & -> & -> & -> & -> & Ha & Ho & _).
  unfold VoiceChat.stopped, VoiceChat.with_calls, VoiceChat.teardown_calls,
    VoiceChat.releases; simpl.
  assert (VoiceChat.closed_ref actx = actx ∧ VoiceChat.closing_call actx = []) as [-> ->].
  { destruct actx as [[id rate st]|]; [|done].
    specialize (Ha _ eq_refl). simpl in Ha. by subst. }
  assert (VoiceChat.closed_ref octx = octx ∧ VoiceChat.closing_call octx = []) as [-> ->].
  { destruct octx as [[id rate st]|]; [|done].
    specialize (Ho _ eq_refl). simpl in Ho. by subst. }
  rewrite elements_empty. simpl. by rewrite !app_nil_r.
Qed.

Lemma settled_with_calls calls s :
  VoiceChat.torn_down s s →
  VoiceChat.torn_down (VoiceChat.with_calls calls s) (VoiceChat.with_calls calls s).
Proof.
  unfold VoiceChat.torn_down; simpl.
  intros (? & ? & ? & ? & ? & ? & ? & ? & ? & ? & ? & ?).
  repeat split; try done; intros h Hh; apply elem_of_app; left; auto.
Qed.

Lemma stop_repeatedly_settled n s :
  VoiceChat.torn_down s s →
  VoiceChat.stop_repeatedly n s
  = Returns (VoiceChat.with_calls (mjoin (replicate n (VoiceChat.disconnects s))) s).
Proof.
  revert s. induction n as [|n IH]; intros s Hs; simpl.
  - by rewrite with_calls_nil.
  - rewrite stopConversation_returns by by apply torn_down_tracked.
    simpl. rewrite settled_stopped by done.
    rewrite IH by by apply settled_with_calls.
    by rewrite with_calls_app.
Qed.

(** [n + 1] calls in a row: the first tears down, each later one repeats the
    two [disconnect] calls. *)
Lemma stop_repeatedly_returns n s :
  VoiceChat.tracked_sources_started s →
  VoiceChat.stop_repeatedly (S n) s
  = Returns (VoiceChat.with_calls (mjoin (replicate n (VoiceChat.disconnects s)))
               (VoiceChat.stopped s)).
Proof.
  intros Hwf. simpl. rewrite stopConversation_returns by done. simpl.
  by rewrite stop_repeatedly_settled by apply stopped_settled.
Qed.

Lemma torn_down_with_calls calls s s' :
  VoiceChat.torn_down s s' → VoiceChat.torn_down s (VoiceChat.with_calls calls s').
Proof.
  unfold VoiceChat.torn_down; simpl.
  intros (? & ? & ? & ? & ? & ? & ? & ? & ? & ? & ? & ?).
  repeat split; try done; intros h Hh; apply elem_of_app; left; auto.
Qed.

(** The calls of the first teardown include the two [disconnect] calls. *)
Lemma disconnects_in_teardown s c :
  c ∈ VoiceChat.disconnects s → c ∈ VoiceChat.teardown_calls s.
Proof. unfold VoiceChat.teardown_calls, VoiceChat.releases. rewrite !elem_of_app. auto. Qed.

(** ** Teardown of the visual assistant *)

Ltac unfold_visual :=
  cbv beta iota zeta delta
    [VisualAssistant.setIsLive VisualAssistant.set_error
     VisualAssistant.set_intervalRef VisualAssistant.set_sessionPromiseRef
     VisualAssistant.set_streamRef VisualAssistant.set_audioContextRef
     VisualAssistant.set_scriptProcessorRef VisualAssistant.alloc
     VisualAssistant.with_calls VisualAssistant.call
     VisualAssistant.isLive VisualAssistant.error VisualAssistant.videoRef
     VisualAssistant.canvasRef VisualAssistant.intervalRef
     VisualAssistant.sessionPromiseRef VisualAssistant.streamRef
     VisualAssistant.audioContextRef VisualAssistant.scriptProcessorRef
     VisualAssistant.trace VisualAssistant.heap] in *.

(** [stopSession] in one step: the refs stay, the context is closed, the
    releasing calls are made. *)
Lemma stopSession_closed_form s :
  VisualAssistant.stopSession s
  = VisualAssistant.mkVisualAssistant false (VisualAssistant.error s)
      (VisualAssistant.videoRef s) (VisualAssistant.canvasRef s)
      (VisualAssistant.intervalRef s) (VisualAssistant.sessionPromiseRef s)
      (VisualAssistant.streamRef s)
      (VoiceChat.closed_ref (VisualAssistant.audioContextRef s))
      (VisualAssistant.scriptProcessorRef s)
      (VisualAssistant.trace s ++ VisualAssistant.teardown_calls s)
      (VisualAssistant.heap s).
Proof.
  destruct s as [live err video canvas timer session stream actx sp tr hp].
  unfold VisualAssistant.stopSession, VisualAssistant.teardown_calls. simpl.
  unfold VisualAssistant.releases; simpl.
  destruct timer, session, stream, sp; simpl;
    destruct actx as [[aid arate []]|]; unfold_visual;
    rewrite <- ?(assoc_L (++)); simpl; rewrite ?app_nil_r; done.
Qed.

Lemma stopSession_torn_down s :
  VisualAssistant.torn_down s (VisualAssistant.stopSession s).
Proof.
  rewrite stopSession_closed_form.
  unfold VisualAssistant.torn_down, VisualAssistant.teardown_calls,
    VisualAssistant.releases; simpl.
  repeat split; try done; try apply closed_ref_closed.
  all: intros h Hh; rewrite ?Hh; simpl; set_solver.
Qed.

Lemma visual_torn_down_with_calls calls s s' :
  VisualAssistant.torn_down s s' →
  VisualAssistant.torn_down s (VisualAssistant.with_calls calls s').
Proof.
  unfold VisualAssistant.torn_down; simpl. intros (? & ? & ? & ? & ? & ?).
  repeat split; try done; intros h Hh; apply elem_of_app; left; auto.
Qed.

(** On a panel that is idle with its context closed, [stopSession] only
    repeats the calls on what the refs still hold. *)
Lemma stopSession_settled s :
  VisualAssistant.isLive s = false →
  VoiceChat.closing_call (VisualAssistant.audioContextRef s) = [] →
  VisualAssistant.stopSession s
  = VisualAssistant.with_calls (VisualAssistant.releases s) s.
Proof.
  intros Hl Hc. rewrite stopSession_closed_form.
  unfold VisualAssistant.teardown_calls. rewrite Hc, app_nil_r.
  destruct s as [live err video canvas timer session stream actx sp tr hp].
  unfold VisualAssistant.with_calls. simpl in *. subst.
  by destruct actx as [[id rate []]|].
Qed.

Lemma visual_stop_repeatedly_settled n s :
  VisualAssistant.isLive s = false →
  VoiceChat.closing_call (VisualAssistant.audioContextRef s) = [] →
  VisualAssistant.stop_repeatedly n s
  = VisualAssistant.with_calls (mjoin (replicate n (VisualAssistant.releases s))) s.
Proof.
  revert s. induction n as [|n IH]; intros s Hl Hc; simpl.
  - destruct s. unfold VisualAssistant.with_calls; simpl. by rewrite app_nil_r.
  - rewrite stopSession_settled, IH by done.
    unfold VisualAssistant.with_calls; simpl. by rewrite <- (assoc_L (++)).
Qed.

(** [n + 1] calls in a row: the first tears down, each later one repeats the
    calls on what the refs still hold. *)
Lemma visual_stop_repeatedly n s :
  VisualAssistant.stop_repeatedly (S n) s
  = VisualAssistant.with_calls (mjoin (replicate n (VisualAssistant.releases s)))
      (VisualAssistant.stopSession s).
Proof.
  simpl. rewrite visual_stop_repeatedly_settled.
  - by rewrite (stopSession_closed_form s).
  - by rewrite (stopSession_closed_form s).
  - rewrite (stopSession_closed_form s). simpl. apply closing_call_closed_ref.
Qed.

Lemma releases_in_teardown s c :
  c ∈ VisualAssistant.releases s → c ∈ VisualAssistant.teardown_calls s.
Proof. unfold VisualAssistant.teardown_calls. rewrite elem_of_app. auto. Qed.

Lemma visual_calls_since_app (s s' : VisualAssistant.VisualAssistant) calls :
  VisualAssistant.trace s' = VisualAssistant.trace s ++ calls →
  VisualAssistant.calls_since s s' = calls.
Proof. unfold VisualAssistant.calls_since. intros ->. by rewrite drop_app_length. Qed.

Lemma disconnects_are_disconnects s c :
  c ∈ VoiceChat.disconnects s → ∃ node, c = node_disconnect node.
Proof.
  unfold VoiceChat.disconnects.
  destruct (VoiceChat.scriptProcessorRef s) as [p|], (VoiceChat.sourceRef s) as [n|];
    simpl; intros H;
    repeat (apply elem_of_cons in H as [->|H]); try (by eexists);
    by apply elem_of_nil in H.
Qed.

(** C2. [stopConversation] and [stopSession], called any number of times in
    a row on any panel whose tracked playback nodes were started, never
    throw. After one call or more the panel is idle; the voice chat holds
    neither session nor capture stream, its playback set is empty and its
    offset is zero; every stream, node, timer, session and context the refs
    held has received its releasing call. One more call changes nothing but
    the trace, where it only repeats calls already made by the calls before
    it (on the voice chat: [disconnect] on the two nodes). *)
Theorem stop_is_idempotent
    (s : VoiceChat.VoiceChat) (v : VisualAssistant.VisualAssistant) (n : nat) :
  VoiceChat.tracked_sources_started s →
  (returns (VoiceChat.stop_repeatedly n s) = true
   ∧ let s' := final (VoiceChat.stop_repeatedly n s) in
     (n = 0 → s' = s)
     ∧ (0 < n →
        VoiceChat.torn_down s s'
        ∧ ∃ again,
            VoiceChat.stopConversation s' = Returns (VoiceChat.with_calls again s')
            ∧ ∀ c, c ∈ again →
                (∃ node, c = node_disconnect node)
                ∧ c ∈ VoiceChat.calls_since s s'))
  ∧ (let v' := VisualAssistant.stop_repeatedly n v in
     (n = 0 → v' = v)
     ∧ (0 < n →
        VisualAssistant.torn_down v v'
        ∧ ∃ again,
            VisualAssistant.stopSession v' = VisualAssistant.with_calls again v'
            ∧ ∀ c, c ∈ again → c ∈ VisualAssistant.calls_since v v')).
Proof.
  intros Hwf. destruct n as [|n].
  { repeat split; try done; lia. }
  split.
  - rewrite stop_repeatedly_returns by done. simpl.
    split; [done|]. split; [done|]. intros _.
    set (R := mjoin (replicate n (VoiceChat.disconnects s))).
    split; [apply torn_down_with_calls, stopped_torn_down|].
    exists (VoiceChat.disconnects s). split.
    + pose proof (settled_with_calls R _ (stopped_settled s)) as Hset.
      rewrite stopConversation_returns by by apply torn_down_tracked.
      by rewrite settled_stopped.
    + intros c Hc. split; [by eapply disconnects_are_disconnects|].
      rewrite (calls_since_app s _ (VoiceChat.teardown_calls s ++ R)).
      * apply elem_of_app. left. by apply disconnects_in_teardown.
      * simpl. by rewrite <- (assoc_L (++)).
  - cbv zeta. rewrite visual_stop_repeatedly.
    split; [done|]. intros _.
    set (R := mjoin (replicate n (VisualAssistant.releases v))).
    split; [apply visual_torn_down_with_calls, stopSession_torn_down|].
    exists (VisualAssistant.releases v). split.
    + rewrite stopSession_settled.
      * by rewrite (stopSession_closed_form v).
      * by rewrite (stopSession_closed_form v).
      * rewrite (stopSession_closed_form v). simpl. apply closing_call_closed_ref.
    + intros c Hc.
      rewrite (visual_calls_since_app v _ (VisualAssistant.teardown_calls v ++ R)).
      * apply elem_of_app. left. by apply releases_in_teardown.
      * rewrite (stopSession_closed_form v). simpl. by rewrite <- (assoc_L (++)).
Qed.

Lemma stop_is_idempotent_witness :
  let s := playing_voice_chat in
  let v := live_visual_assistant in
  (returns (VoiceChat.stop_repeatedly 3 s) = true
   ∧ let s' := final (VoiceChat.stop_repeatedly 3 s) in
     (3 = 0 → s' = s)
     ∧ (0 < 3 →
        VoiceChat.torn_down s s'
        ∧ ∃ again,
            VoiceChat.stopConversation s' = Returns (VoiceChat.with_calls again s')
            ∧ ∀ c, c ∈ again →
                (∃ node, c = node_disconnect node)
                ∧ c ∈ VoiceChat.calls_since s s'))
  ∧ (let v' := VisualAssistant.stop_repeatedly 3 v in
     (3 = 0 → v' = v)
     ∧ (0 < 3 →
        VisualAssistant.torn_down v v'
        ∧ ∃ again,
            VisualAssistant.stopSession v' = VisualAssistant.with_calls again v'
            ∧ ∀ c, c ∈ again → c ∈ VisualAssistant.calls_since v v')).
Proof.
  apply (stop_is_idempotent playing_voice_chat live_visual_assistant 3).
  intros source Hin.
  assert (VoiceChat.playingSources playing_voice_chat = {[6]}) as E
    by (vm_compute; reflexivity).
  rewrite E in Hin. apply elem_of_singleton in Hin. subst source.
  vm_compute. reflexivity.
Defined.

(** ** Starting while live *)

(** The voice chat tests [isLive] first: started while live, it returns at
    once, with no call made and no cell changed. *)
Lemma startConversation_while_live r s :
  VoiceChat.isLive s = true → VoiceChat.startConversation r s = Returns s.
Proof. intros H. unfold VoiceChat.startConversation. by rewrite H. Qed.

(** The two steps of [startSession], one after the other, are the function
    called with what [getUserMedia] yields. *)
Lemma startSession_in_two_steps media r s :
  VisualAssistant.startSession_resume media r (VisualAssistant.startSession_begin s)
  = VisualAssistant.startSession media r s.
Proof. reflexivity. Qed.

(** C3 fails on the visual assistant. The button tests [isLive], and
    [startSession] has no test of its own. A click that starts, a click
    that stops while [getUserMedia] is still pending, and then the granted
    devices and the acknowledgement of the session: the panel is idle by
    [isLive], yet it holds the live capture stream 2, the open session 3
    and the running timer 7. The next click runs [startSession] again: a
    second stream and a second session are acquired and take the place of
    the first in the refs. The stop that follows releases the second of
    each; the first stream is never stopped, the first session never closed
    and the first timer never cleared. *)
Theorem restart_after_an_early_stop_opens_a_second_session :
  let early_stop :=
    [VisualAssistant.click; VisualAssistant.click;
     VisualAssistant.settled granted proceeds; VisualAssistant.opened] in
  let restart :=
    [VisualAssistant.click; VisualAssistant.settled granted proceeds;
     VisualAssistant.opened] in
  let v1 := VisualAssistant.run early_stop VisualAssistant.initial in
  let v2 := VisualAssistant.run restart v1 in
  let v3 := VisualAssistant.run [VisualAssistant.click] v2 in
  (VisualAssistant.isLive v1 = false
   ∧ VisualAssistant.streamRef v1 = Some 2
   ∧ VisualAssistant.sessionPromiseRef v1 = Some 3
   ∧ VisualAssistant.intervalRef v1 = Some 7
   ∧ (track_stop 2 ∉ VisualAssistant.trace v1)
   ∧ (session_close 3 ∉ VisualAssistant.trace v1))
  ∧ (VisualAssistant.calls_since v1 v2
     = [setError None; getUserMedia true true; set_srcObject 0 8; live_connect 9;
        new_AudioContext 10 16000; createMediaStreamSource 11 8;
        createScriptProcessor 12 4096; node_connect 11; node_connect 12;
        setInterval 13 1000]
     ∧ VisualAssistant.streamRef v2 = Some 8
     ∧ VisualAssistant.sessionPromiseRef v2 = Some 9
     ∧ VisualAssistant.intervalRef v2 = Some 13)
  ∧ (VisualAssistant.isLive v3 = false
     ∧ track_stop 8 ∈ VisualAssistant.trace v3
     ∧ session_close 9 ∈ VisualAssistant.trace v3
     ∧ clearInterval 13 ∈ VisualAssistant.trace v3
     ∧ (track_stop 2 ∉ VisualAssistant.trace v3)
     ∧ (session_close 3 ∉ VisualAssistant.trace v3)
     ∧ (clearInterval 7 ∉ VisualAssistant.trace v3)).
Proof.
  cbv zeta.
  assert (∀ (c : Call) (calls : list Call), In c calls → c ∈ calls) as Hin.
  { intros c calls H. by apply list_elem_of_In. }
  assert (∀ (c : Call) (calls : list Call), ¬ In c calls → c ∉ calls) as Hout.
  { intros c calls H H'. by apply H, list_elem_of_In. }
  split; [|split].
  - repeat split; try reflexivity;
      apply Hout; vm_compute; intuition discriminate.
  - repeat split; reflexivity.
  - split; [reflexivity|].
    split; [apply Hin; vm_compute; tauto|].
    split; [apply Hin; vm_compute; tauto|].
    split; [apply Hin; vm_compute; tauto|].
    repeat split; apply Hout; vm_compute; intuition discriminate.
Qed.

(** ** Failures *)

Lemma error_messages_app calls1 calls2 :
  error_messages (calls1 ++ calls2) = error_messages calls1 ++ error_messages calls2.
Proof. unfold error_messages. apply bind_app. Qed.

Lemma error_messages_source_stop sources :
  error_messages (source_stop <$> sources) = [].
Proof. induction sources; simpl; auto. Qed.

Lemma error_messages_closing_call ref :
  error_messages (VoiceChat.closing_call ref) = [].
Proof. by destruct ref as [[id rate []]|]. Qed.

(** A teardown presents no message of its own. *)
Lemma error_messages_teardown s :
  error_messages (VoiceChat.teardown_calls s) = [].
Proof.
  unfold VoiceChat.teardown_calls, VoiceChat.releases, VoiceChat.disconnects.
  rewrite !error_messages_app, error_messages_source_stop, !error_messages_closing_call.
  by destruct (VoiceChat.sessionPromiseRef s), (VoiceChat.streamRef s),
    (VoiceChat.scriptProcessorRef s), (VoiceChat.sourceRef s).
Qed.

Lemma error_messages_visual_teardown v :
  error_messages (VisualAssistant.teardown_calls v) = [].
Proof.
  unfold VisualAssistant.teardown_calls, VisualAssistant.releases.
  rewrite !error_messages_app, !error_messages_closing_call.
  by destruct (VisualAssistant.intervalRef v), (VisualAssistant.sessionPromiseRef v),
    (VisualAssistant.streamRef v), (VisualAssistant.scriptProcessorRef v).
Qed.

(** A teardown neither reconnects nor asks for a device again. *)
Lemma no_retry_in_teardown s :
  Forall (λ c, is_retry c = false) (VoiceChat.teardown_calls s).
Proof.
  unfold VoiceChat.teardown_calls, VoiceChat.releases, VoiceChat.disconnects.
  rewrite !Forall_app. repeat split.
  - by destruct (VoiceChat.sessionPromiseRef s); repeat constructor.
  - by destruct (VoiceChat.streamRef s); repeat constructor.
  - by destruct (VoiceChat.scriptProcessorRef s); repeat constructor.
  - by destruct (VoiceChat.sourceRef s); repeat constructor.
  - by destruct (VoiceChat.audioContextRef s) as [[id rate []]|]; repeat constructor.
  - by destruct (VoiceChat.outputAudioContextRef s) as [[id rate []]|]; repeat constructor.
  - by apply Forall_fmap, Forall_true.
Qed.

Lemma set_error_tracked e s :
  VoiceChat.tracked_sources_started s →
  VoiceChat.tracked_sources_started (VoiceChat.set_error e s).
Proof. intros H source Hin. simpl in *. by apply started_app, H. Qed.

(** The error handler: one [setError], then the teardown. *)
Lemma onerror_returns type s :
  VoiceChat.tracked_sources_started s →
  VoiceChat.onerror type s
  = Returns (VoiceChat.stopped
               (VoiceChat.set_error (Some ("Live session error: " +:+ type)) s)).
Proof.
  intros H. unfold VoiceChat.onerror.
  by rewrite stopConversation_returns by by apply set_error_tracked.
Qed.

Lemma onerror_calls type s :
  VoiceChat.calls_since s
    (VoiceChat.stopped (VoiceChat.set_error (Some ("Live session error: " +:+ type)) s))
  = setError (Some ("Live session error: " +:+ type)) :: VoiceChat.teardown_calls s.
Proof. apply calls_since_app. simpl. by rewrite <- (assoc_L (++)). Qed.

(** A remote error event on the voice chat. *)
Lemma voice_chat_error_event type s :
  VoiceChat.tracked_sources_started s →
  ∃ s',
    VoiceChat.onerror type s = Returns s'
    ∧ VoiceChat.torn_down s s'
    ∧ VoiceChat.error s' = Some ("Live session error: " +:+ type)
    ∧ error_messages (VoiceChat.calls_since s s') = ["Live session error: " +:+ type]
    ∧ Forall (λ c, is_retry c = false) (VoiceChat.calls_since s s').
Proof.
  intros Hwf. eexists. split; [by apply onerror_returns|].
  rewrite onerror_calls.
  split; [apply (stopped_torn_down (VoiceChat.set_error _ s))|].
  split; [done|]. split.
  - change (error_messages (?c :: ?l)) with (error_messages [c] ++ error_messages l).
    by rewrite error_messages_teardown.
  - constructor; [done|apply no_retry_in_teardown].
Qed.

(** A remote close of the voice chat. *)
Lemma voice_chat_close_event s :
  VoiceChat.tracked_sources_started s →
  ∃ s',
    VoiceChat.onclose s = Returns s'
    ∧ VoiceChat.torn_down s s'
    ∧ VoiceChat.error s' = VoiceChat.error s
    ∧ error_messages (VoiceChat.calls_since s s') = []
    ∧ Forall (λ c, is_retry c = false) (VoiceChat.calls_since s s').
Proof.
  intros Hwf. eexists. split; [by apply stopConversation_returns|].
  rewrite (calls_since_app s (VoiceChat.stopped s) (VoiceChat.teardown_calls s)) by done.
  split; [apply stopped_torn_down|]. split; [done|]. split.
  - apply error_messages_teardown.
  - apply no_retry_in_teardown.
Qed.

(** C5, as the code has it. On a remote error event the voice chat is torn
    down at once through [stopConversation], which returns; the panel is
    idle, it neither reconnects nor asks for the microphone again, and
    exactly one error message, built from the type of the event, is
    presented. On a remote close the same teardown runs, and no message is
    presented: the error cell keeps what it held. *)
Theorem remote_error_tears_down_with_one_message
    (type : string) (s : VoiceChat.VoiceChat) :
  VoiceChat.tracked_sources_started s →
  (∃ s',
     VoiceChat.onerror type s = Returns s'
     ∧ VoiceChat.torn_down s s'
     ∧ VoiceChat.error s' = Some ("Live session error: " +:+ type)
     ∧ error_messages (VoiceChat.calls_since s s') = ["Live session error: " +:+ type]
     ∧ Forall (λ c, is_retry c = false) (VoiceChat.calls_since s s'))
  ∧ (∃ s',
       VoiceChat.onclose s = Returns s'
       ∧ VoiceChat.torn_down s s'
       ∧ VoiceChat.error s' = VoiceChat.error s
       ∧ error_messages (VoiceChat.calls_since s s') = []
       ∧ Forall (λ c, is_retry c = false) (VoiceChat.calls_since s s')).
Proof.
  intros Hwf. split.
  - by apply voice_chat_error_event.
  - by apply voice_chat_close_event.
Qed.

Lemma remote_error_tears_down_with_one_message_witness :
  let s := playing_voice_chat in
  (∃ s',
     VoiceChat.onerror "error" s = Returns s'
     ∧ VoiceChat.torn_down s s'
     ∧ VoiceChat.error s' = Some "Live session error: error"
     ∧ error_messages (VoiceChat.calls_since s s') = ["Live session error: error"]
     ∧ Forall (λ c, is_retry c = false) (VoiceChat.calls_since s s'))
  ∧ (∃ s',
       VoiceChat.onclose s = Returns s'
       ∧ VoiceChat.torn_down s s'
       ∧ VoiceChat.error s' = VoiceChat.error s
       ∧ error_messages (VoiceChat.calls_since s s') = []
       ∧ Forall (λ c, is_retry c = false) (VoiceChat.calls_since s s')).
Proof.
  apply (remote_error_tears_down_with_one_message "error" playing_voice_chat).
  intros source Hin.
  assert (VoiceChat.playingSources playing_voice_chat = {[6]}) as E
    by (vm_compute; reflexivity).
  rewrite E in Hin. apply elem_of_singleton in Hin. subst source.
  vm_compute. reflexivity.
Defined.

(** C5 as stated fails on the close event: the voice chat closed by the
    remote side presents no error message. *)
Lemma remote_close_presents_no_message :
  ¬ exactly_one_message
      (VoiceChat.calls_since live_voice_chat
         (final (VoiceChat.onclose live_voice_chat))).
Proof. intros [message H]. vm_compute in H. discriminate H. Qed.

Lemma visual_onerror_calls type v :
  VisualAssistant.calls_since v (VisualAssistant.onerror type v)
  = setError (Some type) :: VisualAssistant.teardown_calls v.
Proof.
  apply visual_calls_since_app. unfold VisualAssistant.onerror.
  rewrite stopSession_closed_form. simpl. by rewrite <- (assoc_L (++)).
Qed.

Lemma visual_onclose_calls v :
  VisualAssistant.calls_since v (VisualAssistant.onclose v)
  = VisualAssistant.teardown_calls v.
Proof.
  apply visual_calls_since_app. unfold VisualAssistant.onclose.
  by rewrite stopSession_closed_form.
Qed.

(** A device request that is rejected: the message of the rejection is
    presented and the panel is torn down. *)
Lemma startSession_rejected message r v :
  let v' := VisualAssistant.startSession (rejected message) r v in
  VisualAssistant.torn_down v v'
  ∧ VisualAssistant.error v' = Some message
  ∧ VisualAssistant.calls_since v v'
    = [setError None; getUserMedia true true; setError (Some message)]
      ++ VisualAssistant.teardown_calls v.
Proof.
  unfold VisualAssistant.startSession.
  set (v1 := VisualAssistant.set_error (Some message) _).
  assert (VisualAssistant.torn_down v (VisualAssistant.stopSession v1)) as Htd
    by apply (stopSession_torn_down v1).
  cbv zeta. repeat split; try apply Htd.
  - by rewrite stopSession_closed_form.
  - apply visual_calls_since_app. rewrite stopSession_closed_form. simpl.
    by rewrite <- !(assoc_L (++)).
Qed.

(** A message that carries neither audio nor an interruption reaches no
    device, presents nothing, and leaves the session as it is. *)
Lemma onmessage_without_audio {U : Utils} clock m s :
  inlineData m = None → interrupted m = false →
  ∃ s',
    VoiceChat.onmessage clock m s = Returns s'
    ∧ VoiceChat.trace s' = VoiceChat.trace s
    ∧ VoiceChat.isLive s' = VoiceChat.isLive s
    ∧ VoiceChat.error s' = VoiceChat.error s
    ∧ VoiceChat.sessionPromiseRef s' = VoiceChat.sessionPromiseRef s
    ∧ VoiceChat.streamRef s' = VoiceChat.streamRef s.
Proof.
  intros Ha Hi. destruct m as [tin tout tc audio int]. simpl in *. subst.
  unfold VoiceChat.onmessage, VoiceChat.interrupt, VoiceChat.play,
    VoiceChat.complete_turn, VoiceChat.accumulate; simpl.
  destruct tin, tout, tc; simpl; eexists; (split; [reflexivity|]); done.
Qed.

(** A response without audio: one message is presented and the request
    ends; the audio context is left as it is. *)
Lemma handleSpeak_without_audio {U : Utils} t :
  TextToSpeech.text t ≠ "" → TextToSpeech.isLoading t = false →
  let t' := TextToSpeech.handleSpeak (TextToSpeech.responded None) t in
  TextToSpeech.error t' = Some "No audio data received from API."
  ∧ error_messages (TextToSpeech.calls_since t t') = ["No audio data received from API."]
  ∧ TextToSpeech.isLoading t' = false
  ∧ TextToSpeech.audioContextRef t' = TextToSpeech.audioContextRef t.
Proof.
  intros Htext Hload. unfold TextToSpeech.handleSpeak.
  destruct (decide (TextToSpeech.text t = "")); [done|]. rewrite Hload.
  cbv zeta. repeat split.
  unfold TextToSpeech.calls_since. simpl.
  rewrite <- !(assoc_L (++)), drop_app_length. done.
Qed.

(** C4, as the code has it. The error classes are not handled alike.
    - A rejected device request of the visual assistant presents the message
      of the rejection and tears the panel down.
    - A remote error event presents exactly one message and tears the panel
      down, on both panels.
    - A remote close tears the panel down and presents no message, on both
      panels.
    - A message without audio is no error for the voice chat: nothing is
      torn down and nothing is presented. A text-to-speech response without
      audio presents exactly one message and ends the request. *)
Theorem error_classes_as_handled
    {U : Utils} (s : VoiceChat.VoiceChat) (v : VisualAssistant.VisualAssistant)
    (t : TextToSpeech.TextToSpeech) (type message : string) (r : TryResult)
    (clock : Q) (m : LiveServerMessage) :
  VoiceChat.tracked_sources_started s →
  inlineData m = None → interrupted m = false →
  TextToSpeech.text t ≠ "" → TextToSpeech.isLoading t = false →
  (let v' := VisualAssistant.startSession (rejected message) r v in
   VisualAssistant.torn_down v v'
   ∧ error_messages (VisualAssistant.calls_since v v') = [message])
  ∧ (∃ s', VoiceChat.onerror type s = Returns s'
           ∧ VoiceChat.torn_down s s'
           ∧ exactly_one_message (VoiceChat.calls_since s s'))
  ∧ (let v' := VisualAssistant.onerror type v in
     VisualAssistant.torn_down v v'
     ∧ error_messages (VisualAssistant.calls_since v v') = [type])
  ∧ (∃ s', VoiceChat.onclose s = Returns s'
           ∧ VoiceChat.torn_down s s'
           ∧ error_messages (VoiceChat.calls_since s s') = [])
  ∧ (let v' := VisualAssistant.onclose v in
     VisualAssistant.torn_down v v'
     ∧ error_messages (VisualAssistant.calls_since v v') = [])
  ∧ (∃ s', VoiceChat.onmessage clock m s = Returns s'
           ∧ VoiceChat.calls_since s s' = []
           ∧ VoiceChat.isLive s' = VoiceChat.isLive s
           ∧ VoiceChat.sessionPromiseRef s' = VoiceChat.sessionPromiseRef s
           ∧ VoiceChat.streamRef s' = VoiceChat.streamRef s)
  ∧ (let t' := TextToSpeech.handleSpeak (TextToSpeech.responded None) t in
     exactly_one_message (TextToSpeech.calls_since t t')
     ∧ TextToSpeech.isLoading t' = false).
Proof.
  intros Hwf Haudio Hint Htext Hload.
  destruct (voice_chat_error_event type s Hwf) as (s1 & E1 & T1 & _ & M1 & _).
  destruct (voice_chat_close_event s Hwf) as (s2 & E2 & T2 & _ & M2 & _).
  split; [|split; [|split; [|split; [|split; [|split]]]]].
  - destruct (startSession_rejected message r v) as (Htd & _ & Hcalls).
    cbv zeta. split; [done|]. rewrite Hcalls, error_messages_app. simpl.
    by rewrite error_messages_visual_teardown.
  - exists s1. split; [done|]. split; [done|]. by eexists.
  - cbv zeta. split.
    + apply (stopSession_torn_down (VisualAssistant.set_error (Some type) v)).
    + rewrite visual_onerror_calls. simpl. by rewrite error_messages_visual_teardown.
  - by exists s2.
  - cbv zeta. split; [apply stopSession_torn_down|].
    by rewrite visual_onclose_calls, error_messages_visual_teardown.
  - destruct (onmessage_without_audio clock m s Haudio Hint)
      as (s' & E & Htr & Hl & _ & Hse & Hst).
    exists s'. repeat split; try done.
    apply calls_since_app. by rewrite app_nil_r.
  - destruct (handleSpeak_without_audio t Htext Hload) as (_ & Hm & Hl & _).
    cbv zeta. split; [by eexists|done].
Qed.

Lemma error_classes_as_handled_witness :
  let s := playing_voice_chat in
  let v := live_visual_assistant in
  let t := ready_to_speak in
  (let v' := VisualAssistant.startSession (rejected "Permission denied") proceeds v in
   VisualAssistant.torn_down v v'
   ∧ error_messages (VisualAssistant.calls_since v v') = ["Permission denied"])
  ∧ (∃ s', VoiceChat.onerror "error" s = Returns s'
           ∧ VoiceChat.torn_down s s'
           ∧ exactly_one_message (VoiceChat.calls_since s s'))
  ∧ (let v' := VisualAssistant.onerror "error" v in
     VisualAssistant.torn_down v v'
     ∧ error_messages (VisualAssistant.calls_since v v') = ["error"])
  ∧ (∃ s', VoiceChat.onclose s = Returns s'
           ∧ VoiceChat.torn_down s s'
           ∧ error_messages (VoiceChat.calls_since s s') = [])
  ∧ (let v' := VisualAssistant.onclose v in
     VisualAssistant.torn_down v v'
     ∧ error_messages (VisualAssistant.calls_since v v') = [])
  ∧ (∃ s', @VoiceChat.onmessage sample_utils 0 no_audio s = Returns s'
           ∧ VoiceChat.calls_since s s' = []
           ∧ VoiceChat.isLive s' = VoiceChat.isLive s
           ∧ VoiceChat.sessionPromiseRef s' = VoiceChat.sessionPromiseRef s
           ∧ VoiceChat.streamRef s' = VoiceChat.streamRef s)
  ∧ (let t' := @TextToSpeech.handleSpeak sample_utils (TextToSpeech.responded None) t in
     exactly_one_message (TextToSpeech.calls_since t t')
     ∧ TextToSpeech.isLoading t' = false).
Proof.
  apply (@error_classes_as_handled sample_utils playing_voice_chat
           live_visual_assistant ready_to_speak "error" "Permission denied"
           proceeds 0 no_audio).
  - intros source Hin.
    assert (VoiceChat.playingSources playing_voice_chat = {[6]}) as E
      by (vm_compute; reflexivity).
    rewrite E in Hin. apply elem_of_singleton in Hin. subst source.
    vm_compute. reflexivity.
  - reflexivity.
  - reflexivity.
  - discriminate.
  - reflexivity.
Defined.

(** C4 as stated fails: the remote close of a visual assistant presents no
    error message, and a message without audio neither presents one nor
    stops the voice chat. *)
Lemma close_and_missing_audio_present_no_message :
  ¬ exactly_one_message
      (VisualAssistant.calls_since live_visual_assistant
         (VisualAssistant.onclose live_visual_assistant))
  ∧ ¬ exactly_one_message
        (VoiceChat.calls_since live_voice_chat
           (final (@VoiceChat.onmessage sample_utils 0 no_audio live_voice_chat)))
  ∧ VoiceChat.isLive
      (final (@VoiceChat.onmessage sample_utils 0 no_audio live_voice_chat)) = true.
Proof.
  repeat split.
  - intros [message H]. vm_compute in H. discriminate H.
  - intros [message H]. vm_compute in H. discriminate H.
Qed.

(** The slip beside C4: in the voice chat the device request is awaited
    inside the [async] callback [onopen], out of reach of the [try] of
    [startConversation]. A rejection ends the callback as a rejected
    promise: the panel stays live, nothing is released and no message is
    presented. *)
Lemma onopen_rejection_is_unhandled message s :
  let c := VoiceChat.onopen (rejected message) s in
  c = Throws message (VoiceChat.call (getUserMedia true false) s)
  ∧ VoiceChat.isLive (final c) = VoiceChat.isLive s
  ∧ VoiceChat.error (final c) = VoiceChat.error s
  ∧ VoiceChat.calls_since s (final c) = [getUserMedia true false].
Proof.
  cbv zeta. unfold VoiceChat.onopen. simpl. repeat split.
  unfold VoiceChat.calls_since. simpl. by rewrite drop_app_length.
Qed.

(** ** The playback set against the platform *)

Lemma started_app_eq source tr calls :
  VoiceChat.started source (tr ++ calls)
  = VoiceChat.started source tr || existsb (VoiceChat.is_start_of source) calls.
Proof. unfold VoiceChat.started. apply existsb_app. Qed.

Lemma scheduled_app source tr calls :
  VoiceChat.scheduled_or_playing source (tr ++ calls)
  = (VoiceChat.started source tr || existsb (VoiceChat.is_start_of source) calls)
    && negb (existsb (VoiceChat.is_halt_of source) tr
             || existsb (VoiceChat.is_halt_of source) calls).
Proof.
  unfold VoiceChat.scheduled_or_playing. by rewrite started_app_eq, existsb_app.
Qed.

Lemma quiet_calls source calls :
  Forall (λ c, VoiceChat.is_source_call c = false) calls →
  existsb (VoiceChat.is_start_of source) calls = false
  ∧ existsb (VoiceChat.is_halt_of source) calls = false.
Proof.
  induction 1 as [|c calls Hc _ [IH1 IH2]]; [done|].
  simpl. rewrite IH1, IH2. by destruct c.
Qed.

Lemma stops_start_nothing source sources :
  existsb (VoiceChat.is_start_of source) (source_stop <$> sources) = false.
Proof. induction sources; simpl; auto. Qed.

Lemma stops_halt source sources :
  source ∈ sources →
  existsb (VoiceChat.is_halt_of source) (source_stop <$> sources) = true.
Proof.
  induction sources as [|h rest IH]; intros H; [by apply elem_of_nil in H|].
  rewrite fmap_cons. cbn [existsb VoiceChat.is_halt_of].
  apply elem_of_cons in H as [->|H].
  - by rewrite bool_decide_eq_true_2.
  - rewrite IH by done. apply orb_true_r.
Qed.

(** Calls that concern no playback node keep the agreement. *)
Lemma consistent_quiet s s' calls :
  VoiceChat.consistent s →
  VoiceChat.trace s' = VoiceChat.trace s ++ calls →
  Forall (λ c, VoiceChat.is_source_call c = false) calls →
  VoiceChat.playingSources s' = VoiceChat.playingSources s →
  VoiceChat.consistent s'.
Proof.
  intros [Ht Ha] Htr Hq Hps. split.
  - intros source. rewrite Hps, Htr. intros Hin. by apply started_app, Ht.
  - intros source. rewrite Hps, Htr, scheduled_app.
    destruct (quiet_calls source calls Hq) as [-> ->].
    rewrite !orb_false_r. apply Ha.
Qed.

(** Scheduling one more node keeps it. *)
Lemma consistent_scheduled s s' h when buffer :
  VoiceChat.consistent s →
  VoiceChat.trace s' = VoiceChat.trace s ++ [node_connect h; source_start h when buffer] →
  VoiceChat.playingSources s' = {[h]} ∪ VoiceChat.playingSources s →
  VoiceChat.consistent s'.
Proof.
  intros [Ht Ha] Htr Hps. split.
  - intros source. rewrite Hps, Htr, started_app_eq, elem_of_union, elem_of_singleton.
    intros [->|Hin].
    + simpl. rewrite bool_decide_eq_true_2 by done. apply orb_true_r.
    + by rewrite Ht.
  - intros source. rewrite Hps, Htr, scheduled_app, elem_of_union, elem_of_singleton.
    simpl. destruct (decide (h = source)) as [->|Hne]; [auto|].
    rewrite (bool_decide_eq_false_2 _ Hne). simpl. rewrite !orb_false_r.
    intros H. right. by apply Ha.
Qed.

(** Stopping every tracked node leaves nothing scheduled or playing. *)
Lemma consistent_stopped_all s s' calls :
  VoiceChat.consistent s →
  VoiceChat.trace s'
  = VoiceChat.trace s ++ calls ++ (source_stop <$> elements (VoiceChat.playingSources s)) →
  Forall (λ c, VoiceChat.is_source_call c = false) calls →
  VoiceChat.playingSources s' = ∅ →
  VoiceChat.consistent s'
  ∧ ∀ source, VoiceChat.scheduled_or_playing source (VoiceChat.trace s') = false.
Proof.
  intros [Ht Ha] Htr Hq Hps.
  assert (∀ source, VoiceChat.scheduled_or_playing source (VoiceChat.trace s') = false) as Hnone.
  { intros source. rewrite Htr, scheduled_app, !existsb_app.
    destruct (quiet_calls source calls Hq) as [-> ->].
    rewrite stops_start_nothing. simpl. rewrite orb_false_r.
    destruct (VoiceChat.scheduled_or_playing source (VoiceChat.trace s)) eqn:E.
    - rewrite stops_halt by by apply elem_of_elements, Ha.
      rewrite orb_true_r. apply andb_false_r.
    - unfold VoiceChat.scheduled_or_playing in E.
      apply andb_false_iff in E as [->| ->%negb_false_iff]; [done|].
      apply andb_false_r. }
  split; [|done]. split.
  - intros source. rewrite Hps. set_solver.
  - intros source. by rewrite Hnone.
Qed.

(** A node that ended leaves the set. *)
Lemma consistent_ended s source :
  VoiceChat.consistent s → VoiceChat.consistent (VoiceChat.onended source s).
Proof.
  intros [Ht Ha]. split.
  - intros h. simpl. rewrite elem_of_difference. intros [Hin _].
    by apply started_app, Ht.
  - intros h. simpl. rewrite scheduled_app, elem_of_difference, elem_of_singleton.
    simpl. rewrite !orb_false_r.
    destruct (decide (source = h)) as [->|Hne].
    + rewrite bool_decide_eq_true_2 by done. rewrite orb_true_r, andb_false_r. done.
    + rewrite (bool_decide_eq_false_2 _ Hne), orb_false_r.
      intros H. split; [by apply Ha|congruence].
Qed.

(** The first two statements of [onmessage] touch the transcription only. *)
Lemma turn_frame m s :
  let s' := VoiceChat.complete_turn m (VoiceChat.accumulate m s) in
  VoiceChat.trace s' = VoiceChat.trace s
  ∧ VoiceChat.playingSources s' = VoiceChat.playingSources s
  ∧ VoiceChat.nextStartTimeRef s' = VoiceChat.nextStartTimeRef s
  ∧ VoiceChat.outputAudioContextRef s' = VoiceChat.outputAudioContextRef s
  ∧ VoiceChat.heap s' = VoiceChat.heap s.
Proof.
  unfold VoiceChat.complete_turn, VoiceChat.accumulate.
  by destruct (inputTranscription m), (outputTranscription m), (turnComplete m).
Qed.

(** The third statement either does nothing or schedules one new node. *)
Lemma play_cases {U : Utils} clock m s :
  VoiceChat.play clock m s = s
  ∨ ∃ buffer,
      VoiceChat.trace (VoiceChat.play clock m s)
      = VoiceChat.trace s
        ++ [node_connect (VoiceChat.heap s);
            source_start (VoiceChat.heap s)
              (Qmax (VoiceChat.nextStartTimeRef s) clock) buffer]
      ∧ VoiceChat.playingSources (VoiceChat.play clock m s)
        = {[VoiceChat.heap s]} ∪ VoiceChat.playingSources s.
Proof.
  unfold VoiceChat.play.
  destruct (inlineData m) as [base64Audio|]; [|by left].
  destruct (VoiceChat.outputAudioContextRef s); [|by left].
  destruct (decide (base64Audio = "")); [by left|].
  right. eexists. simpl. by rewrite <- (assoc_L (++)).
Qed.

Lemma play_consistent {U : Utils} clock m s :
  VoiceChat.consistent s → VoiceChat.consistent (VoiceChat.play clock m s).
Proof.
  intros H. destruct (play_cases clock m s) as [->|(buffer & Htr & Hps)]; [done|].
  by eapply consistent_scheduled.
Qed.

Lemma play_keeps_tracked {U : Utils} clock m s source :
  source ∈ VoiceChat.playingSources s →
  source ∈ VoiceChat.playingSources (VoiceChat.play clock m s).
Proof.
  intros H. destruct (play_cases clock m s) as [->|(buffer & _ & ->)]; set_solver.
Qed.

(** The fourth statement, on an interruption. *)
Lemma interrupt_returns m s :
  interrupted m = true →
  VoiceChat.tracked_sources_started s →
  VoiceChat.interrupt m s
  = Returns (VoiceChat.set_nextStartTimeRef 0
               (VoiceChat.set_playingSources ∅
                  (VoiceChat.with_calls
                     (source_stop <$> elements (VoiceChat.playingSources s)) s))).
Proof.
  intros Hi Ht. unfold VoiceChat.interrupt. rewrite Hi.
  rewrite forEach_stop_started; [done|].
  apply Forall_forall. intros source Hin. by apply Ht, elem_of_elements.
Qed.

(** C6. On a message that carries the interruption mark, delivered to a
    voice chat whose playback set agrees with the platform, the handler
    returns with the playback set empty and the offset at zero; it has called
    [stop] on every node the set held, and no node is scheduled or playing
    any more, the segment of the same message included. *)
Theorem interrupted_clears_playback
    {U : Utils} (clock : Q) (m : LiveServerMessage) (s : VoiceChat.VoiceChat) :
  VoiceChat.consistent s →
  interrupted m = true →
  ∃ s',
    VoiceChat.onmessage clock m s = Returns s'
    ∧ VoiceChat.playingSources s' = ∅
    ∧ VoiceChat.nextStartTimeRef s' = 0%Q
    ∧ (∀ source, source ∈ VoiceChat.playingSources s →
         source_stop source ∈ VoiceChat.calls_since s s')
    ∧ (∀ source, VoiceChat.scheduled_or_playing source (VoiceChat.trace s') = false).
Proof.
  intros Hc Hi. unfold VoiceChat.onmessage.
  destruct (turn_frame m s) as (Htr & Hps & _).
  set (s1 := VoiceChat.complete_turn m (VoiceChat.accumulate m s)) in *.
  assert (VoiceChat.consistent s1) as Hc1.
  { apply (consistent_quiet s s1 []); try done. by rewrite app_nil_r. }
  pose proof (play_consistent clock m s1 Hc1) as Hc2.
  set (s2 := VoiceChat.play clock m s1) in *.
  rewrite (interrupt_returns m s2 Hi (proj1 Hc2)).
  eexists. split; [done|]. split; [done|]. split; [done|]. split.
  - intros source Hin.
    assert (∃ calls, VoiceChat.trace s2 = VoiceChat.trace s ++ calls) as [calls Hcalls].
    { subst s2. destruct (play_cases clock m s1) as [->|(buffer & -> & _)].
      - exists []. by rewrite app_nil_r.
      - rewrite Htr. by eexists. }
    erewrite calls_since_app; last first.
    { simpl. rewrite Hcalls, <- (assoc_L (++)). done. }
    apply elem_of_app. right. apply list_elem_of_fmap. exists source.
    split; [done|]. apply elem_of_elements. subst s2.
    apply play_keeps_tracked. by rewrite Hps.
  - apply (consistent_stopped_all s2 _ []); try done.
Qed.

(** The calls of a teardown: calls that concern no playback node, then
    [stop] on every tracked node. *)
Lemma teardown_calls_split s :
  ∃ calls,
    VoiceChat.teardown_calls s
    = calls ++ (source_stop <$> elements (VoiceChat.playingSources s))
    ∧ Forall (λ c, VoiceChat.is_source_call c = false) calls.
Proof.
  unfold VoiceChat.teardown_calls. exists (VoiceChat.releases s). split; [done|].
  unfold VoiceChat.releases, VoiceChat.disconnects.
  rewrite !Forall_app. repeat split.
  - by destruct (VoiceChat.sessionPromiseRef s); repeat constructor.
  - by destruct (VoiceChat.streamRef s); repeat constructor.
  - by destruct (VoiceChat.scriptProcessorRef s); repeat constructor.
  - by destruct (VoiceChat.sourceRef s); repeat constructor.
  - by destruct (VoiceChat.audioContextRef s) as [[id rate []]|]; repeat constructor.
  - by destruct (VoiceChat.outputAudioContextRef s) as [[id rate []]|]; repeat constructor.
Qed.

Lemma stopped_consistent s :
  VoiceChat.consistent s →
  VoiceChat.consistent (VoiceChat.stopped s)
  ∧ ∀ source,
      VoiceChat.scheduled_or_playing source (VoiceChat.trace (VoiceChat.stopped s)) = false.
Proof.
  intros Hc. destruct (teardown_calls_split s) as (calls & Hsplit & Hq).
  apply (consistent_stopped_all s _ calls); try done.
  simpl. by rewrite Hsplit.
Qed.

Lemma set_error_consistent e s :
  VoiceChat.consistent s → VoiceChat.consistent (VoiceChat.set_error e s).
Proof.
  intros Hc. apply (consistent_quiet s _ [setError e]); try done.
  by repeat constructor.
Qed.

(** Every handler keeps the playback set and the platform in agreement. *)
Lemma handle_event_consistent {U : Utils} e s :
  VoiceChat.consistent s →
  VoiceChat.consistent (final (VoiceChat.handle_event e s)).
Proof.
  intros Hc. destruct e as [r| |r|clock m|type| |inputData|source]; simpl.
  - unfold VoiceChat.startConversation.
    destruct (VoiceChat.isLive s); [done|].
    destruct r as [|message].
    + apply (consistent_quiet s _
               [setError None; new_AudioContext (VoiceChat.heap s) 24000;
                live_connect (S (VoiceChat.heap s))]); try done.
      * simpl. by rewrite <- !(assoc_L (++)).
      * by repeat constructor.
    + cbv zeta.
      set (s1 := VoiceChat.set_error (Some message) _).
      assert (VoiceChat.consistent s1) as Hc1.
      { apply (consistent_quiet s _ [setError None; setError (Some message)]); try done.
        - simpl. by rewrite <- !(assoc_L (++)).
        - by repeat constructor. }
      rewrite stopConversation_returns by apply Hc1.
      by apply stopped_consistent.
  - rewrite stopConversation_returns by apply Hc. by apply stopped_consistent.
  - unfold VoiceChat.onopen. destruct r as [|message]; simpl.
    + apply (consistent_quiet s _
               [getUserMedia true false;
                new_AudioContext (S (VoiceChat.heap s)) 16000;
                createMediaStreamSource (S (S (VoiceChat.heap s))) (VoiceChat.heap s);
                createScriptProcessor (S (S (S (VoiceChat.heap s)))) 4096;
                node_connect (S (S (VoiceChat.heap s)));
                node_connect (S (S (S (VoiceChat.heap s))))]); try done.
      * simpl. by rewrite <- !(assoc_L (++)).
      * by repeat constructor.
    + apply (consistent_quiet s _ [getUserMedia true false]); try done.
      by repeat constructor.
  - unfold VoiceChat.onmessage.
    destruct (turn_frame m s) as (Htr & Hps & _).
    set (s1 := VoiceChat.complete_turn m (VoiceChat.accumulate m s)) in *.
    assert (VoiceChat.consistent s1) as Hc1.
    { apply (consistent_quiet s s1 []); try done. by rewrite app_nil_r. }
    pose proof (play_consistent clock m s1 Hc1) as Hc2.
    set (s2 := VoiceChat.play clock m s1) in *.
    destruct (interrupted m) eqn:Hi.
    + rewrite (interrupt_returns m s2 Hi (proj1 Hc2)). simpl.
      apply (consistent_stopped_all s2 _ []); try done.
    + unfold VoiceChat.interrupt. by rewrite Hi.
  - rewrite onerror_returns by apply Hc.
    by apply stopped_consistent, set_error_consistent.
  - unfold VoiceChat.onclose.
    rewrite stopConversation_returns by apply Hc. by apply stopped_consistent.
  - unfold VoiceChat.onaudioprocess.
    destruct (VoiceChat.sessionPromiseRef s) as [session|]; [|done].
    apply (consistent_quiet s _ [sendRealtimeInput session (pcmBlob inputData)]);
      try done.
    by repeat constructor.
  - by apply consistent_ended.
Qed.

Lemma initial_consistent : VoiceChat.consistent VoiceChat.initial.
Proof. split; intros source; simpl; [set_solver|done]. Qed.

Lemma run_consistent {U : Utils} events s :
  VoiceChat.consistent s → VoiceChat.consistent (VoiceChat.run events s).
Proof.
  revert s. induction events as [|e events IH]; intros s Hc; [done|].
  rewrite run_cons. by apply IH, handle_event_consistent.
Qed.

(** In every panel that events can lead to, the playback set holds exactly
    the started nodes that neither ended nor were stopped. *)
Lemma reachable_consistent {U : Utils} s :
  VoiceChat.reachable s → VoiceChat.consistent s.
Proof. intros [events ->]. apply run_consistent, initial_consistent. Qed.

Lemma playing_voice_chat_reachable : @VoiceChat.reachable sample_utils playing_voice_chat.
Proof.
  exists [VoiceChat.start proceeds; VoiceChat.opened granted;
          VoiceChat.message 0 one_sample].
  vm_compute. reflexivity.
Qed.

Lemma interrupted_clears_playback_witness :
  let s := playing_voice_chat in
  ∃ s',
    @VoiceChat.onmessage sample_utils 1 interruption s = Returns s'
    ∧ VoiceChat.playingSources s' = ∅
    ∧ VoiceChat.nextStartTimeRef s' = 0%Q
    ∧ (∀ source, source ∈ VoiceChat.playingSources s →
         source_stop source ∈ VoiceChat.calls_since s s')
    ∧ (∀ source, VoiceChat.scheduled_or_playing source (VoiceChat.trace s') = false).
Proof.
  apply (@interrupted_clears_playback sample_utils 1 interruption playing_voice_chat).
  - apply (@reachable_consistent sample_utils), playing_voice_chat_reachable.
  - reflexivity.
Defined.

(** ** Transcript *)

Lemma string_app_assoc (a b c : string) : (a +:+ b) +:+ c = a +:+ (b +:+ c).
Proof.
  induction a as [|x a IH]; [done|].
  change (String x ((a +:+ b) +:+ c) = String x (a +:+ (b +:+ c))). by rewrite IH.
Qed.

Lemma string_app_nil_r (a : string) : a +:+ "" = a.
Proof.
  induction a as [|x a IH]; [done|].
  change (String x (a +:+ "") = String x a). by rewrite IH.
Qed.

(** The loop over the playback set touches the trace only. *)
Lemma forEach_stop_frame sources s :
  let s' := final (VoiceChat.forEach_stop sources s) in
  VoiceChat.transcriptions s' = VoiceChat.transcriptions s
  ∧ VoiceChat.currentInputTranscription s' = VoiceChat.currentInputTranscription s
  ∧ VoiceChat.currentOutputTranscription s' = VoiceChat.currentOutputTranscription s.
Proof.
  revert s. induction sources as [|source rest IH]; intros s; simpl; [done|].
  unfold VoiceChat.stop_source.
  destruct (VoiceChat.started source (VoiceChat.trace s)); simpl; [|done].
  apply (IH (VoiceChat.call (source_stop source) s)).
Qed.

(** The last two statements of [onmessage] leave the transcription alone. *)
Lemma playback_frame {U : Utils} clock m s :
  let s' := final (VoiceChat.interrupt m (VoiceChat.play clock m s)) in
  VoiceChat.transcriptions s' = VoiceChat.transcriptions s
  ∧ VoiceChat.currentInputTranscription s' = VoiceChat.currentInputTranscription s
  ∧ VoiceChat.currentOutputTranscription s' = VoiceChat.currentOutputTranscription s.
Proof.
  assert (VoiceChat.transcriptions (VoiceChat.play clock m s) = VoiceChat.transcriptions s
          ∧ VoiceChat.currentInputTranscription (VoiceChat.play clock m s)
            = VoiceChat.currentInputTranscription s
          ∧ VoiceChat.currentOutputTranscription (VoiceChat.play clock m s)
            = VoiceChat.currentOutputTranscription s) as (E1 & E2 & E3).
  { unfold VoiceChat.play.
    destruct (inlineData m) as [b|]; [|done].
    destruct (VoiceChat.outputAudioContextRef s); [|done].
    by destruct (decide (b = "")). }
  cbv zeta. rewrite <- E1, <- E2, <- E3.
  generalize (VoiceChat.play clock m s). intros s2.
  unfold VoiceChat.interrupt. destruct (interrupted m); [|done].
  destruct (forEach_stop_frame (elements (VoiceChat.playingSources s2)) s2) as (F1 & F2 & F3).
  rewrite <- F1, <- F2, <- F3.
  by destruct (VoiceChat.forEach_stop _ s2).
Qed.

(** What one message does to the transcript and to the variables of the
    turn, whether the handler returns or throws. *)
Lemma onmessage_transcript {U : Utils} clock m s :
  let s' := final (VoiceChat.onmessage clock m s) in
  if turnComplete m
  then VoiceChat.transcriptions s'
       = VoiceChat.transcriptions s ++ [ {| user := ""; model := "" |} ]
       ∧ VoiceChat.currentInputTranscription s' = ""
       ∧ VoiceChat.currentOutputTranscription s' = ""
  else VoiceChat.transcriptions s' = VoiceChat.transcriptions s
       ∧ VoiceChat.currentInputTranscription s'
         = VoiceChat.currentInputTranscription s +:+ fragment (inputTranscription m)
       ∧ VoiceChat.currentOutputTranscription s'
         = VoiceChat.currentOutputTranscription s +:+ fragment (outputTranscription m).
Proof.
  unfold VoiceChat.onmessage. cbv zeta.
  destruct (playback_frame clock m (VoiceChat.complete_turn m (VoiceChat.accumulate m s)))
    as (-> & -> & ->).
  unfold VoiceChat.complete_turn, VoiceChat.accumulate, VoiceChat.append_text, fragment.
  destruct (inputTranscription m), (outputTranscription m), (turnComplete m);
    simpl; rewrite ?string_app_nil_r; done.
Qed.

(** The messages of a turn before its last gather their fragments in the two
    variables and leave the transcript alone. *)
Lemma fragments_accumulate {U : Utils} (turn : list (Q * LiveServerMessage)) s :
  Forall (λ e, turnComplete e.2 = false) turn →
  let s' := VoiceChat.run (deliver <$> turn) s in
  VoiceChat.transcriptions s' = VoiceChat.transcriptions s
  ∧ VoiceChat.currentInputTranscription s'
    = VoiceChat.currentInputTranscription s +:+ input_fragments turn.*2
  ∧ VoiceChat.currentOutputTranscription s'
    = VoiceChat.currentOutputTranscription s +:+ output_fragments turn.*2.
Proof.
  intros Hturn. revert s.
  induction turn as [|[clock0 m0] turn IH]; intros s; cbv zeta.
  - simpl. by rewrite !string_app_nil_r.
  - apply Forall_cons in Hturn as [Hm0 Hturn]. simpl in Hm0.
    rewrite fmap_cons, run_cons.
    change (VoiceChat.handle_event (deliver (clock0, m0)) s)
      with (VoiceChat.onmessage clock0 m0 s).
    pose proof (onmessage_transcript clock0 m0 s) as H. cbv zeta in H.
    rewrite Hm0 in H. destruct H as (H1 & H2 & H3).
    destruct (IH Hturn (final (VoiceChat.onmessage clock0 m0 s))) as (-> & -> & ->).
    rewrite H1, H2, H3. simpl. by rewrite !string_app_assoc.
Qed.

(** C7 fails on the code. The messages of one turn, none of which carries
    the turn-complete mark, gather their fragments in the two variables; on
    the message that carries the mark the transcript gains exactly one entry
    and both variables are emptied, but the entry is the pair of empty
    strings: the updater reads the variables after they were emptied.
    Whenever the turn gathered any text, the entry is not the pair that was
    accumulated. *)
Theorem turn_complete_appends_an_empty_entry
    {U : Utils} (turn : list (Q * LiveServerMessage)) (clock : Q)
    (m : LiveServerMessage) (s : VoiceChat.VoiceChat) :
  Forall (λ e, turnComplete e.2 = false) turn →
  turnComplete m = true →
  let before := VoiceChat.run (deliver <$> turn) s in
  let s' := VoiceChat.run (deliver <$> turn ++ [(clock, m)]) s in
  let accumulated :=
    {| user := VoiceChat.currentInputTranscription s
               +:+ input_fragments (turn.*2 ++ [m]);
       model := VoiceChat.currentOutputTranscription s
                +:+ output_fragments (turn.*2 ++ [m]) |} in
  VoiceChat.currentInputTranscription before
  = VoiceChat.currentInputTranscription s +:+ input_fragments turn.*2
  ∧ VoiceChat.currentOutputTranscription before
    = VoiceChat.currentOutputTranscription s +:+ output_fragments turn.*2
  ∧ VoiceChat.transcriptions s'
    = VoiceChat.transcriptions s ++ [ {| user := ""; model := "" |} ]
  ∧ VoiceChat.currentInputTranscription s' = ""
  ∧ VoiceChat.currentOutputTranscription s' = ""
  ∧ (accumulated ≠ {| user := ""; model := "" |} →
     VoiceChat.transcriptions s' ≠ VoiceChat.transcriptions s ++ [accumulated]).
Proof.
  intros Hturn Hm. cbv zeta.
  destruct (fragments_accumulate turn s Hturn) as (Ht & Hi & Ho).
  split; [done|]. split; [done|].
  assert (VoiceChat.run (deliver <$> turn ++ [(clock, m)]) s
          = final (VoiceChat.onmessage clock m (VoiceChat.run (deliver <$> turn) s)))
    as ->.
  { rewrite fmap_app. unfold VoiceChat.run. by rewrite foldl_app. }
  pose proof (onmessage_transcript clock m (VoiceChat.run (deliver <$> turn) s)) as H.
  cbv zeta in H. rewrite Hm in H. destruct H as (-> & -> & ->). rewrite Ht.
  split; [done|]. split; [done|]. split; [done|].
  intros Hne Heq. apply app_inv_head in Heq. injection Heq as Heq1 Heq2.
  apply Hne. by rewrite <- Heq1, <- Heq2.
Qed.

Lemma turn_complete_appends_an_empty_entry_witness :
  let turn := [(0%Q, no_audio); (1%Q, one_sample)] in
  let s := live_voice_chat in
  let before := @VoiceChat.run sample_utils (deliver <$> turn) s in
  let s' := @VoiceChat.run sample_utils (deliver <$> turn ++ [(2%Q, end_of_turn)]) s in
  let accumulated :=
    {| user := VoiceChat.currentInputTranscription s
               +:+ input_fragments (turn.*2 ++ [end_of_turn]);
       model := VoiceChat.currentOutputTranscription s
                +:+ output_fragments (turn.*2 ++ [end_of_turn]) |} in
  VoiceChat.currentInputTranscription before
  = VoiceChat.currentInputTranscription s +:+ input_fragments turn.*2
  ∧ VoiceChat.currentOutputTranscription before
    = VoiceChat.currentOutputTranscription s +:+ output_fragments turn.*2
  ∧ VoiceChat.transcriptions s'
    = VoiceChat.transcriptions s ++ [ {| user := ""; model := "" |} ]
  ∧ VoiceChat.currentInputTranscription s' = ""
  ∧ VoiceChat.currentOutputTranscription s' = ""
  ∧ (accumulated ≠ {| user := ""; model := "" |} →
     VoiceChat.transcriptions s' ≠ VoiceChat.transcriptions s ++ [accumulated]).
Proof.
  apply (@turn_complete_appends_an_empty_entry sample_utils
           [(0%Q, no_audio); (1%Q, one_sample)] 2 end_of_turn live_voice_chat).
  - by repeat constructor.
  - reflexivity.
Defined.

(** The turn of three messages on the open voice chat: ["hello there"] and
    ["Hi!"] were gathered, the entry holds neither. *)
Example one_turn_leaves_an_empty_entry :
  let turn := [(0%Q, no_audio); (1%Q, one_sample); (2%Q, end_of_turn)] in
  input_fragments turn.*2 = "hello there"
  ∧ output_fragments turn.*2 = "Hi!"
  ∧ VoiceChat.transcriptions
      (@VoiceChat.run sample_utils (deliver <$> turn) live_voice_chat)
    = [ {| user := ""; model := "" |} ].
Proof. repeat split; vm_compute; reflexivity. Qed.






(** A turn on screen: the entry is appended, and the render of it takes the
    panel off the screen. *)
Example first_entry_unmounts_the_panel :
  let s := @Mounted.run sample_utils
             [Mounted.click proceeds; Mounted.opened granted;
              Mounted.message 0 no_audio; Mounted.message 1 end_of_turn]
             Mounted.initial in
  VoiceChat.transcriptions (Mounted.panel s) = [ {| user := ""; model := "" |} ]
  ∧ Mounted.mounted s = false
  ∧ VoiceChat.isLive (Mounted.panel s) = false.
Proof. repeat split; vm_compute; reflexivity. Qed.

(** ** Outbound audio *)

(** Truncation is the floor of what is not negative and the ceiling of what
    is not positive. *)
Lemma Qtruncate_nonneg (v : Q) : (0 <= v)%Q → Qtruncate v = Qfloor v.
Proof.
  destruct v as [n d]. unfold Qle, Qtruncate, Qfloor. simpl. intros Hn.
  apply Z.quot_div_nonneg; lia.
Qed.

Lemma Qtruncate_nonpos (v : Q) : (v <= 0)%Q → Qtruncate v = Qceiling v.
Proof.
  destruct v as [n d]. unfold Qle, Qtruncate, Qceiling, Qfloor. simpl. intros Hn.
  rewrite <- (Z.opp_involutive n) at 1. rewrite Z.quot_opp_l by lia.
  f_equal. apply Z.quot_div_nonneg; lia.
Qed.

(** Truncation moves a number toward zero by less than one. *)
Lemma Qtruncate_close (v : Q) :
  (v - 1 < inject_Z (Qtruncate v))%Q ∧ (inject_Z (Qtruncate v) < v + 1)%Q.
Proof.
  destruct (Qlt_le_dec v 0) as [Hneg|Hpos].
  - rewrite Qtruncate_nonpos by lra.
    pose proof (Qceiling_lt v) as H1. pose proof (Qle_ceiling v) as H2.
    unfold Z.sub in H1. rewrite inject_Z_plus in H1. 
    change (inject_Z (- (1))) with (-1)%Q in H1.
    split; [lra|].
    assert (Qceiling v <= 0)%Z as H3.
    { rewrite <- (Qceiling_Z 0). apply Qceiling_resp_le. change (inject_Z 0) with 0%Q. lra. }
    rewrite Zle_Qle in H3. change (inject_Z 0) with 0%Q in H3. lra.
  - rewrite Qtruncate_nonneg by done.
    pose proof (Qfloor_le v) as H1. pose proof (Qlt_floor v) as H2.
    rewrite inject_Z_plus in H2. change (inject_Z 1) with 1%Q in H2. split; lra.
Qed.

(** The result of [ToInt16] is a 16-bit integer, congruent to the truncated
    number modulo 2^16. *)
Lemma ToInt16_range (v : Q) : (-32768 <= ToInt16 v <= 32767)%Z.
Proof.
  unfold ToInt16. cbv zeta.
  pose proof (Z.mod_pos_bound (Qtruncate v) 65536 eq_refl).
  destruct (Z.leb_spec 32768 (Qtruncate v mod 65536)); lia.
Qed.

Lemma ToInt16_congruent (v : Q) : ((ToInt16 v - Qtruncate v) mod 65536 = 0)%Z.
Proof.
  unfold ToInt16. cbv zeta.
  pose proof (Z.div_mod (Qtruncate v) 65536 ltac:(lia)) as Hdm.
  destruct (Z.leb_spec 32768 (Qtruncate v mod 65536)).
  - replace (Qtruncate v mod 65536 - 65536 - Qtruncate v)%Z
      with ((- (Qtruncate v / 65536) - 1) * 65536)%Z by lia.
    apply Z.mod_mul; lia.
  - replace (Qtruncate v mod 65536 - Qtruncate v)%Z
      with ((- (Qtruncate v / 65536)) * 65536)%Z by lia.
    apply Z.mod_mul; lia.
Qed.

(** Inside the 16-bit range nothing wraps. *)
Lemma ToInt16_exact (v : Q) :
  (-32768 <= Qtruncate v <= 32767)%Z → ToInt16 v = Qtruncate v.
Proof.
  intros Hr. unfold ToInt16. cbv zeta.
  destruct (Z_lt_le_dec (Qtruncate v) 0) as [Hneg|Hpos].
  - assert (Qtruncate v mod 65536 = Qtruncate v + 65536)%Z as ->.
    { symmetry. apply (Z.mod_unique _ _ (-1)); lia. }
    destruct (Z.leb_spec 32768 (Qtruncate v + 65536)); lia.
  - rewrite Z.mod_small by lia.
    destruct (Z.leb_spec 32768 (Qtruncate v)); lia.
Qed.

(** A sample of the nominal range, 1 left out, scales into the 16-bit
    range. *)
Lemma nominal_sample_fits (x : Q) :
  (-1 <= x)%Q → (x < 1)%Q → (-32768 <= Qtruncate (x * 32768) <= 32767)%Z.
Proof.
  intros Hlo Hhi. 
  destruct (Qlt_le_dec (x * 32768) 0) as [Hneg|Hpos].
  - rewrite Qtruncate_nonpos by lra. split.
    + rewrite <- (Qceiling_Z (-32768)). apply Qceiling_resp_le.
      change (inject_Z (-32768)) with (-32768)%Q. lra.
    + assert (Qceiling (x * 32768) <= 0)%Z; [|lia].
      rewrite <- (Qceiling_Z 0). apply Qceiling_resp_le.
      change (inject_Z 0) with 0%Q. lra.
  - rewrite Qtruncate_nonneg by done. split.
    + assert (0 <= Qfloor (x * 32768))%Z; [|lia].
      rewrite <- (Qfloor_Z 0). apply Qfloor_resp_le. by change (inject_Z 0) with 0%Q.
    + assert (Qfloor (x * 32768) < 32768)%Z; [|lia].
      rewrite Zlt_Qlt. pose proof (Qfloor_le (x * 32768)).
      change (inject_Z 32768) with 32768%Q. lra.
Qed.

(** The sample 1 itself scales to 32768 and wraps to the lowest value. *)
Example full_scale_sample_wraps :
  Int16Array [1%Q; (32767 # 32768)%Q; (-1)%Q] = [-32768; 32767; -32768]%Z.
Proof. reflexivity. Qed.

Example half_scale_frame :
  Uint8Array (Int16Array [(1 # 2)%Q; (-1 # 2)%Q; 0%Q]) = [0; 64; 0; 192; 0; 0]%Z.
Proof. reflexivity. Qed.

(** Two bytes for each 16-bit element. *)
Lemma Uint8Array_length int16 : length (Uint8Array int16) = (2 * length int16)%nat.
Proof.
  unfold Uint8Array. induction int16 as [|v rest IH]; [done|].
  rewrite bind_cons, length_app, IH. simpl. lia.
Qed.

(** The two bytes of a 16-bit number give the number back. *)
Lemma read_int16_bytes (v : Z) (rest : list Z) :
  (-32768 <= v <= 32767)%Z →
  read_int16 ((v mod 256)%Z :: ((v mod 65536) / 256)%Z :: rest)
  = v :: read_int16 rest.
Proof.
  intros Hr. cbn [read_int16]. cbv zeta. f_equal.
  assert (v mod 256 + 256 * (v mod 65536 / 256) = v mod 65536)%Z as ->.
  { pose proof (Z.div_mod (v mod 65536) 256 ltac:(lia)) as Hdm.
    replace ((v mod 65536) mod 256)%Z with (v mod 256)%Z in Hdm; [lia|].
    symmetry. apply Z.mod_mod_divide. by exists 256%Z. }
  destruct (Z_lt_le_dec v 0) as [Hneg|Hpos].
  - assert (v mod 65536 = v + 65536)%Z as ->.
    { symmetry. apply (Z.mod_unique _ _ (-1)); lia. }
    destruct (Z.leb_spec 32768 (v + 65536)); lia.
  - rewrite Z.mod_small by lia.
    destruct (Z.leb_spec 32768 v); lia.
Qed.

(** The bytes of a 16-bit array, read back two by two, are its elements. *)
Lemma read_int16_Uint8Array (int16 : list Z) :
  Forall (λ v, (-32768 <= v <= 32767)%Z) int16 →
  read_int16 (Uint8Array int16) = int16.
Proof.
  unfold Uint8Array. induction 1 as [|v rest Hv Hrest IH]; [done|].
  rewrite bind_cons. cbn [app]. rewrite read_int16_bytes by done. by rewrite IH.
Qed.

(** Where the two bytes of an element stand, and what they are. *)
Lemma Uint8Array_lookup (int16 : list Z) (i : nat) (v : Z) :
  int16 !! i = Some v →
  Uint8Array int16 !! (2 * i)%nat = Some (v mod 256)%Z
  ∧ Uint8Array int16 !! (2 * i + 1)%nat = Some ((v mod 65536) / 256)%Z.
Proof.
  unfold Uint8Array. revert i.
  induction int16 as [|v0 rest IH]; intros i Hi; [done|].
  rewrite bind_cons. cbn [app]. destruct i as [|i].
  - injection Hi as ->. done.
  - destruct (IH i Hi) as [H1 H2].
    replace (2 * S i)%nat with (S (S (2 * i))) by lia.
    replace (S (S (2 * i)) + 1)%nat with (S (S (2 * i + 1))) by lia.
    done.
Qed.

Lemma Uint8Array_bytes (int16 : list Z) :
  Forall (λ b, (0 <= b <= 255)%Z) (Uint8Array int16).
Proof.
  unfold Uint8Array. induction int16 as [|v rest IH]; [done|].
  rewrite bind_cons. cbn [app].
  pose proof (Z.mod_pos_bound v 256 eq_refl).
  pose proof (Z.mod_pos_bound v 65536 eq_refl).
  repeat constructor; try lia; [apply Z.div_pos; lia| |done].
  apply Z.lt_succ_r, Z.div_lt_upper_bound; lia.
Qed.

(** Once the session ref is cleared a captured frame goes nowhere. *)
Lemma onaudioprocess_without_session {U : Utils} inputData s :
  VoiceChat.sessionPromiseRef s = None → VoiceChat.onaudioprocess inputData s = s.
Proof. intros H. unfold VoiceChat.onaudioprocess. by rewrite H. Qed.

(** C8. On both panels the handler of a captured frame makes exactly one
    call, [sendRealtimeInput] on the session held, with the blob of that
    frame alone: MIME type [audio/pcm;rate=16000] and, as data, the encoded
    bytes of the 16-bit array. Nothing else changes, so no frame is kept.
    The array has one element per sample; the element for sample [x] is
    [ToInt16 (x * 32768)], a 16-bit integer congruent modulo 2^16 to
    [x * 32768] truncated; for [-1 <= x < 1] it is [x * 32768] truncated,
    less than one away from [x * 32768]. The bytes that are encoded are the
    converted samples and nothing else: two bytes per sample, each between
    0 and 255, the low byte of sample [i] at place [2 i] and its high byte
    at place [2 i + 1], so that read back two by two as 16-bit two's
    complement numbers they are the elements of the array. *)
Theorem outbound_frame_is_converted_and_pushed
    {U : Utils} (inputData : list Q) (s : VoiceChat.VoiceChat)
    (v : VisualAssistant.VisualAssistant) (session session' : handle) :
  VoiceChat.sessionPromiseRef s = Some session →
  VisualAssistant.sessionPromiseRef v = Some session' →
  let pcm := Int16Array inputData in
  let blob := {| data := encode (Uint8Array pcm); mimeType := "audio/pcm;rate=16000" |} in
  VoiceChat.onaudioprocess inputData s
  = VoiceChat.with_calls [sendRealtimeInput session blob] s
  ∧ VisualAssistant.onaudioprocess inputData v
    = VisualAssistant.with_calls [sendRealtimeInput session' blob] v
  ∧ length pcm = length inputData
  ∧ length (Uint8Array pcm) = (2 * length inputData)%nat
  ∧ Forall (λ b, (0 <= b <= 255)%Z) (Uint8Array pcm)
  ∧ read_int16 (Uint8Array pcm) = pcm
  ∧ ∀ i x,
      inputData !! i = Some x →
      ∃ y,
        pcm !! i = Some y
        ∧ y = ToInt16 (x * 32768)
        ∧ (-32768 <= y <= 32767)%Z
        ∧ ((y - Qtruncate (x * 32768)) mod 65536 = 0)%Z
        ∧ Uint8Array pcm !! (2 * i)%nat = Some (y mod 256)%Z
        ∧ Uint8Array pcm !! (2 * i + 1)%nat = Some ((y mod 65536) / 256)%Z
        ∧ ((-1 <= x)%Q → (x < 1)%Q →
           y = Qtruncate (x * 32768)
           ∧ (x * 32768 - 1 < inject_Z y)%Q ∧ (inject_Z y < x * 32768 + 1)%Q).
Proof.
  intros Hs Hv pcm blob. split; [|split; [|split; [|split; [|split; [|split]]]]].
  - unfold VoiceChat.onaudioprocess. by rewrite Hs.
  - unfold VisualAssistant.onaudioprocess. by rewrite Hv.
  - subst pcm. unfold Int16Array. by rewrite length_fmap.
  - subst pcm. rewrite Uint8Array_length. unfold Int16Array. by rewrite length_fmap.
  - apply Uint8Array_bytes.
  - apply read_int16_Uint8Array. subst pcm. unfold Int16Array.
    apply Forall_fmap, Forall_true. intros x. apply ToInt16_range.
  - intros i x Hx. exists (ToInt16 (x * 32768)).
    assert (pcm !! i = Some (ToInt16 (x * 32768))) as Hy.
    { subst pcm. unfold Int16Array. by rewrite list_lookup_fmap, Hx. }
    destruct (Uint8Array_lookup pcm i _ Hy) as [Hlow Hhigh].
    split; [done|]. split; [done|]. split; [apply ToInt16_range|].
    split; [apply ToInt16_congruent|].
    split; [done|]. split; [done|].
    intros Hlo Hhi. rewrite ToInt16_exact by by apply nominal_sample_fits.
    split; [done|]. apply Qtruncate_close.
Qed.

Lemma outbound_frame_is_converted_and_pushed_witness :
  let inputData := [(1 # 2)%Q; (-1 # 2)%Q; 0%Q] in
  let pcm := Int16Array inputData in
  let blob := {| data := @encode sample_utils (Uint8Array pcm);
                 mimeType := "audio/pcm;rate=16000" |} in
  @VoiceChat.onaudioprocess sample_utils inputData live_voice_chat
  = VoiceChat.with_calls [sendRealtimeInput 1 blob] live_voice_chat
  ∧ @VisualAssistant.onaudioprocess sample_utils inputData live_visual_assistant
    = VisualAssistant.with_calls [sendRealtimeInput 3 blob] live_visual_assistant
  ∧ length pcm = length inputData
  ∧ length (Uint8Array pcm) = (2 * length inputData)%nat
  ∧ Forall (λ b, (0 <= b <= 255)%Z) (Uint8Array pcm)
  ∧ read_int16 (Uint8Array pcm) = pcm
  ∧ ∀ i x,
      inputData !! i = Some x →
      ∃ y,
        pcm !! i = Some y
        ∧ y = ToInt16 (x * 32768)
        ∧ (-32768 <= y <= 32767)%Z
        ∧ ((y - Qtruncate (x * 32768)) mod 65536 = 0)%Z
        ∧ Uint8Array pcm !! (2 * i)%nat = Some (y mod 256)%Z
        ∧ Uint8Array pcm !! (2 * i + 1)%nat = Some ((y mod 65536) / 256)%Z
        ∧ ((-1 <= x)%Q → (x < 1)%Q →
           y = Qtruncate (x * 32768)
           ∧ (x * 32768 - 1 < inject_Z y)%Q ∧ (inject_Z y < x * 32768 + 1)%Q).
Proof.
  apply (@outbound_frame_is_converted_and_pushed sample_utils
           [(1 # 2)%Q; (-1 # 2)%Q; 0%Q] live_voice_chat live_visual_assistant 1 3);
    reflexivity.
Defined.

(** ** Inbound messages of the visual assistant *)

Lemma visual_messages_ignored messages v :
  foldl (λ v m, VisualAssistant.onmessage m v) v messages = v.
Proof. induction messages as [|m rest IH]; [done|]. exact IH. Qed.

(** C10. When the remote side acknowledges a visual assistant that holds
    its capture stream, [onopen] returns with a timer of period 1000 ms set
    and kept in [intervalRef]. From then on the handler of inbound messages
    changes no cell of the panel and makes no call, whatever the messages
    and however many: no playback is scheduled and the timer stays set. The
    function of the timer, run after the messages, captures the video
    element and sends the frame to the session as an [image/jpeg] blob. *)
Theorem visual_assistant_ignores_inbound_messages
    (v0 : VisualAssistant.VisualAssistant) (stream session video canvas : handle)
    (messages : list LiveServerMessage) (jpeg : string) :
  VisualAssistant.streamRef v0 = Some stream →
  VisualAssistant.sessionPromiseRef v0 = Some session →
  VisualAssistant.videoRef v0 = Some video →
  VisualAssistant.canvasRef v0 = Some canvas →
  ∃ v timer,
    VisualAssistant.onopen v0 = Returns v
    ∧ VisualAssistant.intervalRef v = Some timer
    ∧ setInterval timer 1000 ∈ VisualAssistant.calls_since v0 v
    ∧ let v' := foldl (λ v m, VisualAssistant.onmessage m v) v messages in
      v' = v
      ∧ VisualAssistant.calls_since v v' = []
      ∧ VisualAssistant.intervalRef v' = Some timer
      ∧ VisualAssistant.onframe (Some jpeg) v'
        = VisualAssistant.with_calls
            [canvas_toBlob canvas video;
             sendRealtimeInput session {| data := jpeg; mimeType := "image/jpeg" |}]
            v'.
Proof.
  intros Hstream Hsession Hvideo Hcanvas.
  destruct v0 as [live err video0 canvas0 timer0 session0 stream0 actx sp tr hp].
  simpl in *. subst.
  eexists. exists (S (S (S hp))).
  split; [unfold VisualAssistant.onopen; simpl; reflexivity|].
  split; [done|]. split.
  - unfold VisualAssistant.calls_since. unfold_visual.
    rewrite <- !(assoc_L (++)), drop_app_length. set_solver.
  - rewrite visual_messages_ignored. cbv zeta.
    split; [done|]. split.
    + unfold VisualAssistant.calls_since. by rewrite drop_all.
    + split; [done|].
      unfold VisualAssistant.onframe. unfold_visual. by rewrite <- !(assoc_L (++)).
Qed.

Lemma visual_assistant_ignores_inbound_messages_witness :
  let v0 := VisualAssistant.startSession granted proceeds VisualAssistant.initial in
  ∃ v timer,
    VisualAssistant.onopen v0 = Returns v
    ∧ VisualAssistant.intervalRef v = Some timer
    ∧ setInterval timer 1000 ∈ VisualAssistant.calls_since v0 v
    ∧ let v' := foldl (λ v m, VisualAssistant.onmessage m v) v [one_sample; interruption] in
      v' = v
      ∧ VisualAssistant.calls_since v v' = []
      ∧ VisualAssistant.intervalRef v' = Some timer
      ∧ VisualAssistant.onframe (Some "/9j/4AAQ") v'
        = VisualAssistant.with_calls
            [canvas_toBlob 1 0;
             sendRealtimeInput 3 {| data := "/9j/4AAQ"; mimeType := "image/jpeg" |}]
            v'.
Proof.
  apply (visual_assistant_ignores_inbound_messages
           (VisualAssistant.startSession granted proceeds VisualAssistant.initial)
           2 3 0 1 [one_sample; interruption] "/9j/4AAQ");
    reflexivity.
Defined.

(** ** Capture frames *)

(** Both panels create their script processor with a buffer of 4096 samples:
    that is the size of every frame [onaudioprocess] receives. *)
Lemma capture_frames_have_4096_samples
    (s : VoiceChat.VoiceChat) (v : VisualAssistant.VisualAssistant) (stream : handle) :
  VisualAssistant.streamRef v = Some stream →
  (∃ node, createScriptProcessor node 4096
           ∈ VoiceChat.calls_since s (final (VoiceChat.onopen granted s)))
  ∧ (∃ node, createScriptProcessor node 4096
             ∈ VisualAssistant.calls_since v (final (VisualAssistant.onopen v))).
Proof.
  intros Hstream. split.
  - exists (S (S (S (VoiceChat.heap s)))).
    unfold VoiceChat.calls_since, VoiceChat.onopen. simpl.
    rewrite <- !(assoc_L (++)), drop_app_length. set_solver.
  - exists (S (S (VisualAssistant.heap v))).
    unfold VisualAssistant.calls_since, VisualAssistant.onopen. simpl.
    rewrite Hstream. simpl.
    rewrite <- !(assoc_L (++)), drop_app_length. set_solver.
Qed.

(** * Further properties *)

(** ** More on the playback schedule *)

(** X1. Whatever the events a voice chat has gone through since it was
    mounted, its playback set agrees with the platform: every node in the
    set had [start] called, and every node that was started and has neither
    ended nor been stopped is in the set. *)
Theorem playback_set_agrees_after_any_run
    {U : Utils} (events : list VoiceChat.Event) (source : handle) :
  let s := VoiceChat.run events VoiceChat.initial in
  (source ∈ VoiceChat.playingSources s →
   VoiceChat.started source (VoiceChat.trace s) = true)
  ∧ (VoiceChat.scheduled_or_playing source (VoiceChat.trace s) = true →
     source ∈ VoiceChat.playingSources s).
Proof.
  cbv zeta.
  destruct (run_consistent events VoiceChat.initial initial_consistent) as [Ht Ha].
  split; [apply Ht|apply Ha].
Qed.

(** The offset after a run of segments. *)
Lemma run_segments_offset {U : Utils} arrivals s ctx :
  VoiceChat.outputAudioContextRef s = Some ctx →
  Forall (λ e, is_segment e.2) arrivals →
  VoiceChat.outputAudioContextRef (VoiceChat.run (deliver <$> arrivals) s) = Some ctx
  ∧ VoiceChat.nextStartTimeRef (VoiceChat.run (deliver <$> arrivals) s)
    = foldl (λ offset e, (Qmax offset e.1 + e.2)%Q)
        (VoiceChat.nextStartTimeRef s) (arrival <$> arrivals).
Proof.
  revert s. induction arrivals as [|[clock m] rest IH]; intros s Hctx Hseg; [done|].
  apply Forall_cons in Hseg as [Hm Hrest]. simpl in Hm.
  destruct (onmessage_segment clock m s ctx Hctx Hm) as (s1 & Hrun & Hctx1 & Hnext & _).
  rewrite fmap_cons, run_cons.
  change (VoiceChat.handle_event (deliver (clock, m)) s)
    with (VoiceChat.onmessage clock m s).
  rewrite Hrun. cbn [final].
  destruct (IH s1 Hctx1 Hrest) as [-> ->]. split; [done|].
  rewrite fmap_cons. simpl. by rewrite Hnext.
Qed.

(** A punctual plan is back to back from the offset on. *)
Lemma plan_punctual previous_end arrivals :
  punctual previous_end arrivals →
  contiguous (plan previous_end arrivals)
  ∧ (∀ a, head (plan previous_end arrivals) = Some a → a.1 = previous_end)
  ∧ foldl (λ offset e, (Qmax offset e.1 + e.2)%Q) previous_end arrivals
    = foldl (λ offset e, (offset + e.2)%Q) previous_end arrivals.
Proof.
  revert previous_end.
  induction arrivals as [|[clock d] rest IH]; intros previous_end Hp.
  - split; [by intros i a b|]. split; [by intros a|done].
  - destruct Hp as [Hclock Hrest]. simpl.
    rewrite (Qmax_when_behind previous_end clock Hclock).
    destruct (IH _ Hrest) as (Hcont & Hhead & Hfold).
    split; [|split; [by intros a [= <-]|done]].
    intros [|i] a b Ha Hb; simpl in *.
    + injection Ha as <-. simpl.
      destruct (plan (previous_end + d) rest) as [|c l] eqn:E; [done|].
      simpl in Hb. injection Hb as <-.
      by rewrite (Hhead c eq_refl).
    + by eapply Hcont.
Qed.

(** X2. Segments that each arrive while the audio before them has not run
    out play back to back: the first starts at the offset the scheduler
    held, each later one starts exactly where the one before it ends, and
    the offset afterwards is the old offset plus the durations, added in
    arrival order. *)
Theorem punctual_segments_play_back_to_back
    {U : Utils} (s : VoiceChat.VoiceChat) (ctx : AudioContext)
    (arrivals : list (Q * LiveServerMessage)) :
  VoiceChat.outputAudioContextRef s = Some ctx →
  Forall (λ e, is_segment e.2) arrivals →
  punctual (VoiceChat.nextStartTimeRef s) (arrival <$> arrivals) →
  let s' := VoiceChat.run (deliver <$> arrivals) s in
  let sch := VoiceChat.schedule (VoiceChat.calls_since s s') in
  contiguous sch
  ∧ length sch = length arrivals
  ∧ (∀ a, head sch = Some a → a.1 = VoiceChat.nextStartTimeRef s)
  ∧ VoiceChat.nextStartTimeRef s'
    = foldl (λ offset e, (offset + segment_duration e.2)%Q)
        (VoiceChat.nextStartTimeRef s) arrivals.
Proof.
  intros Hctx Hseg Hp s' sch.
  destruct (run_segments arrivals s ctx Hctx Hseg) as (calls & Htr & Hsch).
  assert (sch = plan (VoiceChat.nextStartTimeRef s) (arrival <$> arrivals)) as ->.
  { subst sch s'. by rewrite (calls_since_app _ _ _ Htr). }
  destruct (plan_punctual _ _ Hp) as (Hcont & Hhead & Hfold).
  split; [done|]. split.
  { clear. generalize (VoiceChat.nextStartTimeRef s).
    induction arrivals as [|[clock m] rest IH]; intros q; [done|].
    simpl. by rewrite IH. }
  split; [done|].
  subst s'. destruct (run_segments_offset arrivals s ctx Hctx Hseg) as [_ ->].
  rewrite Hfold. clear. generalize (VoiceChat.nextStartTimeRef s).
  induction arrivals as [|[clock m] rest IH]; intros q; [done|].
  simpl. apply IH.
Qed.

Lemma punctual_segments_play_back_to_back_witness :
  let arrivals := [(0%Q, one_sample); ((1 # 48000)%Q, one_sample);
                   ((1 # 12000)%Q, one_sample)] in
  let s := live_voice_chat in
  let s' := @VoiceChat.run sample_utils (deliver <$> arrivals) s in
  let sch := VoiceChat.schedule (VoiceChat.calls_since s s') in
  contiguous sch
  ∧ length sch = length arrivals
  ∧ (∀ a, head sch = Some a → a.1 = VoiceChat.nextStartTimeRef s)
  ∧ VoiceChat.nextStartTimeRef s'
    = foldl (λ offset e, (offset + @segment_duration sample_utils e.2)%Q)
        (VoiceChat.nextStartTimeRef s) arrivals.
Proof.
  apply (@punctual_segments_play_back_to_back sample_utils live_voice_chat
           (mkAudioContext 0 24000 running)).
  - reflexivity.
  - repeat constructor; by eexists.
  - vm_compute. repeat split; discriminate.
Defined.

Lemma plan_lookup previous_end arrivals i a clock d :
  plan previous_end arrivals !! i = Some a →
  arrivals !! i = Some (clock, d) →
  ∃ offset, a = (Qmax offset clock, (Qmax offset clock + d)%Q).
Proof.
  revert previous_end i.
  induction arrivals as [|[clock0 d0] rest IH]; intros previous_end i Ha He; [done|].
  destruct i as [|i]; simpl in *.
  - injection Ha as <-. injection He as -> ->. by eexists.
  - by eapply IH.
Qed.

(** X3. No segment is scheduled in the past: each starts no earlier than
    the clock read at its arrival, ends its own duration later, and there is
    exactly one [start] per segment delivered. *)
Theorem segments_never_start_in_the_past
    {U : Utils} (s : VoiceChat.VoiceChat) (ctx : AudioContext)
    (arrivals : list (Q * LiveServerMessage)) :
  VoiceChat.outputAudioContextRef s = Some ctx →
  Forall (λ e, is_segment e.2) arrivals →
  let s' := VoiceChat.run (deliver <$> arrivals) s in
  let sch := VoiceChat.schedule (VoiceChat.calls_since s s') in
  length sch = length arrivals
  ∧ ∀ i a e,
      sch !! i = Some a → arrivals !! i = Some e →
      (e.1 <= a.1)%Q ∧ a.2 = (a.1 + segment_duration e.2)%Q.
Proof.
  intros Hctx Hseg s' sch.
  destruct (run_segments arrivals s ctx Hctx Hseg) as (calls & Htr & Hsch).
  assert (sch = plan (VoiceChat.nextStartTimeRef s) (arrival <$> arrivals)) as ->.
  { subst sch s'. by rewrite (calls_since_app _ _ _ Htr). }
  split.
  { clear. generalize (VoiceChat.nextStartTimeRef s).
    induction arrivals as [|[clock m] rest IH]; intros q; [done|].
    simpl. by rewrite IH. }
  intros i a [clock m] Ha He.
  destruct (plan_lookup _ (arrival <$> arrivals) i a clock (segment_duration m) Ha)
    as [offset ->].
  { by rewrite list_lookup_fmap, He. }
  split; [apply Q.le_max_r|done].
Qed.

Lemma segments_never_start_in_the_past_witness :
  let arrivals := [(3%Q, one_sample); (1%Q, one_sample)] in
  let s := live_voice_chat in
  let s' := @VoiceChat.run sample_utils (deliver <$> arrivals) s in
  let sch := VoiceChat.schedule (VoiceChat.calls_since s s') in
  length sch = length arrivals
  ∧ ∀ i a e,
      sch !! i = Some a → arrivals !! i = Some e →
      (e.1 <= a.1)%Q ∧ a.2 = (a.1 + @segment_duration sample_utils e.2)%Q.
Proof.
  apply (@segments_never_start_in_the_past sample_utils live_voice_chat
           (mkAudioContext 0 24000 running)).
  - reflexivity.
  - repeat constructor; by eexists.
Defined.

(** What a message with the interruption mark leaves behind. *)
Lemma onmessage_interrupted {U : Utils} clock m s :
  VoiceChat.consistent s →
  interrupted m = true →
  ∃ s',
    VoiceChat.onmessage clock m s = Returns s'
    ∧ VoiceChat.nextStartTimeRef s' = 0%Q
    ∧ VoiceChat.playingSources s' = ∅
    ∧ VoiceChat.outputAudioContextRef s' = VoiceChat.outputAudioContextRef s.
Proof.
  intros Hc Hi. unfold VoiceChat.onmessage.
  destruct (turn_frame m s) as (Htr & Hps & _ & Hctx & _).
  set (s1 := VoiceChat.complete_turn m (VoiceChat.accumulate m s)) in *.
  assert (VoiceChat.consistent s1) as Hc1.
  { apply (consistent_quiet s s1 []); try done. by rewrite app_nil_r. }
  pose proof (play_consistent clock m s1 Hc1) as Hc2.
  assert (VoiceChat.outputAudioContextRef (VoiceChat.play clock m s1)
          = VoiceChat.outputAudioContextRef s1) as Hplay.
  { unfold VoiceChat.play.
    destruct (inlineData m) as [b|]; [|done].
    destruct (VoiceChat.outputAudioContextRef s1) eqn:E; [|done].
    by destruct (decide (b = "")). }
  rewrite (interrupt_returns m _ Hi (proj1 Hc2)).
  eexists. split; [done|]. split; [done|]. split; [done|].
  simpl. by rewrite Hplay.
Qed.

(** X4. After an interruption the schedule starts afresh: the first segment
    that arrives afterwards starts at the clock read at its arrival, however
    far ahead the offset had run before the interruption. *)
Theorem first_segment_after_interruption_starts_at_the_clock
    {U : Utils} (s : VoiceChat.VoiceChat) (ctx : AudioContext)
    (clock1 clock2 : Q) (m1 m2 : LiveServerMessage) :
  VoiceChat.consistent s →
  VoiceChat.outputAudioContextRef s = Some ctx →
  interrupted m1 = true →
  is_segment m2 →
  (0 <= clock2)%Q →
  let s1 := final (VoiceChat.onmessage clock1 m1 s) in
  let s2 := final (VoiceChat.onmessage clock2 m2 s1) in
  ∃ start,
    VoiceChat.schedule (VoiceChat.calls_since s1 s2)
    = [(start, (start + segment_duration m2)%Q)]
    ∧ (start == clock2)%Q.
Proof.
  intros Hc Hctx Hi Hseg Hclock.
  destruct (onmessage_interrupted clock1 m1 s Hc Hi) as (s1 & -> & Hnext & _ & Hctx1).
  cbn [final]. rewrite Hctx in Hctx1.
  destruct (onmessage_segment clock2 m2 s1 ctx Hctx1 Hseg) as (s2 & -> & _ & _ & Htr).
  cbn [final]. exists (Qmax (VoiceChat.nextStartTimeRef s1) clock2).
  rewrite (calls_since_app _ _ _ Htr). split.
  - simpl. unfold segment_duration. by destruct Hseg as [(b & -> & _) _].
  - rewrite Hnext. by apply Q.max_r.
Qed.

Lemma first_segment_after_interruption_starts_at_the_clock_witness :
  let s := playing_voice_chat in
  let s1 := final (@VoiceChat.onmessage sample_utils 1 interruption s) in
  let s2 := final (@VoiceChat.onmessage sample_utils 7 one_sample s1) in
  ∃ start,
    VoiceChat.schedule (VoiceChat.calls_since s1 s2)
    = [(start, (start + @segment_duration sample_utils one_sample)%Q)]
    ∧ (start == 7)%Q.
Proof.
  apply (@first_segment_after_interruption_starts_at_the_clock sample_utils
           playing_voice_chat (mkAudioContext 0 24000 running) 1 7
           interruption one_sample).
  - apply (@reachable_consistent sample_utils), playing_voice_chat_reachable.
  - reflexivity.
  - reflexivity.
  - split; [by eexists|done].
  - done.
Defined.

(** ** The life cycle of a conversation *)

Lemma started_through_calls s s' calls :
  VoiceChat.tracked_sources_started s →
  VoiceChat.trace s' = VoiceChat.trace s ++ calls →
  VoiceChat.playingSources s' = VoiceChat.playingSources s →
  VoiceChat.tracked_sources_started s'.
Proof.
  intros Ht Htr Hps source. rewrite Hps, Htr. intros Hin. by apply started_app, Ht.
Qed.

(** [startConversation] on an idle panel, when nothing raises. *)
Lemma startConversation_proceeds s :
  VoiceChat.isLive s = false →
  VoiceChat.startConversation proceeds s
  = Returns
      (VoiceChat.mkVoiceChat true [] None (Some (S (VoiceChat.heap s)))
         (VoiceChat.streamRef s) (VoiceChat.audioContextRef s)
         (VoiceChat.scriptProcessorRef s) (VoiceChat.sourceRef s)
         (Some (mkAudioContext (VoiceChat.heap s) 24000 running))
         (VoiceChat.nextStartTimeRef s) (VoiceChat.playingSources s) "" ""
         (VoiceChat.trace s
          ++ [setError None; new_AudioContext (VoiceChat.heap s) 24000;
              live_connect (S (VoiceChat.heap s))])
         (S (S (VoiceChat.heap s)))).
Proof.
  intros Hlive. unfold VoiceChat.startConversation. rewrite Hlive.
  destruct s. unfold_voice. by rewrite <- !(assoc_L (++)).
Qed.

(** [onopen] with the microphone granted. *)
Lemma onopen_granted s :
  VoiceChat.onopen granted s
  = Returns
      (VoiceChat.mkVoiceChat (VoiceChat.isLive s) (VoiceChat.transcriptions s)
         (VoiceChat.error s) (VoiceChat.sessionPromiseRef s)
         (Some (VoiceChat.heap s))
         (Some (mkAudioContext (S (VoiceChat.heap s)) 16000 running))
         (Some (S (S (S (VoiceChat.heap s)))))
         (Some (S (S (VoiceChat.heap s))))
         (VoiceChat.outputAudioContextRef s)
         (VoiceChat.nextStartTimeRef s) (VoiceChat.playingSources s)
         (VoiceChat.currentInputTranscription s)
         (VoiceChat.currentOutputTranscription s)
         (VoiceChat.trace s
          ++ [getUserMedia true false;
              new_AudioContext (S (VoiceChat.heap s)) 16000;
              createMediaStreamSource (S (S (VoiceChat.heap s))) (VoiceChat.heap s);
              createScriptProcessor (S (S (S (VoiceChat.heap s)))) 4096;
              node_connect (S (S (VoiceChat.heap s)));
              node_connect (S (S (S (VoiceChat.heap s))))])
         (S (S (S (S (VoiceChat.heap s)))))).
Proof.
  unfold VoiceChat.onopen. destruct s. unfold_voice. by rewrite <- !(assoc_L (++)).
Qed.

(** X5. A conversation that is started on an idle panel, acknowledged with
    the microphone granted and then stopped releases exactly what it
    created. The start and the acknowledgement make the nine calls of their
    statements, in the order of the statements. The stop makes, in some
    order, one releasing call for each object created (the session closed,
    the stream stopped, both nodes disconnected, both audio contexts
    closed) and a [stop] for each node of the playback set, and no other
    call, whatever the refs held before; the panel ends idle with the
    session and stream refs cleared. *)
Theorem conversation_releases_what_it_created (s : VoiceChat.VoiceChat) :
  VoiceChat.isLive s = false →
  VoiceChat.tracked_sources_started s →
  let s1 := final (VoiceChat.startConversation proceeds s) in
  let s2 := final (VoiceChat.onopen granted s1) in
  let h := VoiceChat.heap s in
  ∃ s3,
    VoiceChat.stopConversation s2 = Returns s3
    ∧ VoiceChat.calls_since s s2
      = [setError None;
         new_AudioContext h 24000; live_connect (1 + h);
         getUserMedia true false;
         new_AudioContext (3 + h) 16000;
         createMediaStreamSource (4 + h) (2 + h);
         createScriptProcessor (5 + h) 4096;
         node_connect (4 + h); node_connect (5 + h)]
    ∧ VoiceChat.calls_since s2 s3
      ≡ₚ [session_close (1 + h); track_stop (2 + h);
          node_disconnect (5 + h); node_disconnect (4 + h);
          context_close (3 + h); context_close h]
         ++ (source_stop <$> elements (VoiceChat.playingSources s))
    ∧ VoiceChat.isLive s3 = false
    ∧ VoiceChat.sessionPromiseRef s3 = None
    ∧ VoiceChat.streamRef s3 = None
    ∧ VoiceChat.playingSources s3 = ∅.
Proof.
  intros Hlive Ht. cbv zeta.
  rewrite (startConversation_proceeds s Hlive). cbn [final].
  rewrite onopen_granted. cbn [final].
  set (s2 := VoiceChat.mkVoiceChat _ _ _ _ _ _ _ _ _ _ _ _ _ _ _).
  assert (VoiceChat.tracked_sources_started s2) as Ht2.
  { intros source Hin. by apply started_app, started_app, Ht. }
  exists (VoiceChat.stopped s2). split; [by apply stopConversation_returns|].
  split.
  { apply calls_since_app. subst s2. cbn. by rewrite <- !(assoc_L (++)). }
  split; [|done].
  erewrite calls_since_app; [|reflexivity]. reflexivity.
Qed.

Lemma conversation_releases_what_it_created_witness :
  let s := stopped_voice_chat in
  let s1 := final (VoiceChat.startConversation proceeds s) in
  let s2 := final (VoiceChat.onopen granted s1) in
  let h := VoiceChat.heap s in
  ∃ s3,
    VoiceChat.stopConversation s2 = Returns s3
    ∧ VoiceChat.calls_since s s2
      = [setError None;
         new_AudioContext h 24000; live_connect (1 + h);
         getUserMedia true false;
         new_AudioContext (3 + h) 16000;
         createMediaStreamSource (4 + h) (2 + h);
         createScriptProcessor (5 + h) 4096;
         node_connect (4 + h); node_connect (5 + h)]
    ∧ VoiceChat.calls_since s2 s3
      ≡ₚ [session_close (1 + h); track_stop (2 + h);
          node_disconnect (5 + h); node_disconnect (4 + h);
          context_close (3 + h); context_close h]
         ++ (source_stop <$> elements (VoiceChat.playingSources s))
    ∧ VoiceChat.isLive s3 = false
    ∧ VoiceChat.sessionPromiseRef s3 = None
    ∧ VoiceChat.streamRef s3 = None
    ∧ VoiceChat.playingSources s3 = ∅.
Proof.
  apply (conversation_releases_what_it_created stopped_voice_chat).
  - reflexivity.
  - intros source Hin.
    assert (VoiceChat.playingSources stopped_voice_chat = ∅) as E
      by (vm_compute; reflexivity).
    rewrite E in Hin. by apply not_elem_of_empty in Hin.
Defined.

(** X6. When the microphone is refused to a voice chat, nothing tells the
    user: after [startConversation] on an idle panel and an [onopen] whose
    device request is rejected, the panel is still live, the error cell is
    empty, the session just opened is still held and not closed, and no
    stream was taken. *)
Theorem refused_microphone_leaves_the_voice_chat_live
    (message : string) (s : VoiceChat.VoiceChat) :
  VoiceChat.isLive s = false →
  let s1 := final (VoiceChat.startConversation proceeds s) in
  let s2 := final (VoiceChat.onopen (rejected message) s1) in
  returns (VoiceChat.onopen (rejected message) s1) = false
  ∧ VoiceChat.isLive s2 = true
  ∧ VoiceChat.error s2 = None
  ∧ VoiceChat.sessionPromiseRef s2 = Some (1 + VoiceChat.heap s)
  ∧ VoiceChat.streamRef s2 = VoiceChat.streamRef s
  ∧ VoiceChat.calls_since s s2
    = [setError None; new_AudioContext (VoiceChat.heap s) 24000;
       live_connect (1 + VoiceChat.heap s); getUserMedia true false].
Proof.
  intros Hlive. cbv zeta. unfold VoiceChat.startConversation. rewrite Hlive.
  repeat split.
  apply calls_since_app. simpl. by rewrite <- !(assoc_L (++)).
Qed.

Lemma refused_microphone_leaves_the_voice_chat_live_witness :
  let s := VoiceChat.initial in
  let s1 := final (VoiceChat.startConversation proceeds s) in
  let s2 := final (VoiceChat.onopen (rejected "Permission denied") s1) in
  returns (VoiceChat.onopen (rejected "Permission denied") s1) = false
  ∧ VoiceChat.isLive s2 = true
  ∧ VoiceChat.error s2 = None
  ∧ VoiceChat.sessionPromiseRef s2 = Some (1 + VoiceChat.heap s)
  ∧ VoiceChat.streamRef s2 = VoiceChat.streamRef s
  ∧ VoiceChat.calls_since s s2
    = [setError None; new_AudioContext (VoiceChat.heap s) 24000;
       live_connect (1 + VoiceChat.heap s); getUserMedia true false].
Proof.
  apply (refused_microphone_leaves_the_voice_chat_live "Permission denied"
           VoiceChat.initial).
  reflexivity.
Defined.

(** X7. When [startConversation] fails before it connects, on an idle
    panel, the message of the exception is the one message presented, the
    panel is idle again with an empty transcript, and neither an audio
    context nor a session was created. *)
Theorem failed_start_presents_the_exception
    (message : string) (s : VoiceChat.VoiceChat) :
  VoiceChat.isLive s = false →
  VoiceChat.tracked_sources_started s →
  ∃ s',
    VoiceChat.startConversation (raises message) s = Returns s'
    ∧ VoiceChat.isLive s' = false
    ∧ VoiceChat.error s' = Some message
    ∧ VoiceChat.transcriptions s' = []
    ∧ error_messages (VoiceChat.calls_since s s') = [message]
    ∧ Forall (λ c, is_retry c = false) (VoiceChat.calls_since s s')
    ∧ VoiceChat.outputAudioContextRef s'
      = VoiceChat.closed_ref (VoiceChat.outputAudioContextRef s).
Proof.
  intros Hlive Ht. unfold VoiceChat.startConversation. rewrite Hlive. cbv zeta.
  set (s1 := VoiceChat.set_error (Some message) _).
  assert (VoiceChat.tracked_sources_started s1) as Ht1.
  { apply (started_through_calls s _ [setError None; setError (Some message)]);
      [done| |done].
    simpl. by rewrite <- !(assoc_L (++)). }
  exists (VoiceChat.stopped s1). split; [by apply stopConversation_returns|].
  assert (VoiceChat.calls_since s (VoiceChat.stopped s1)
          = [setError None; setError (Some message)] ++ VoiceChat.teardown_calls s)
    as ->.
  { apply calls_since_app. simpl. by rewrite <- !(assoc_L (++)). }
  split; [done|]. split; [done|]. split; [done|]. split.
  - rewrite error_messages_app. simpl. by rewrite error_messages_teardown.
  - split; [|done]. apply Forall_app. split; [by repeat constructor|].
    apply no_retry_in_teardown.
Qed.

Lemma failed_start_presents_the_exception_witness :
  let s := stopped_voice_chat in
  ∃ s',
    VoiceChat.startConversation (raises "An API Key must be set") s = Returns s'
    ∧ VoiceChat.isLive s' = false
    ∧ VoiceChat.error s' = Some "An API Key must be set"
    ∧ VoiceChat.transcriptions s' = []
    ∧ error_messages (VoiceChat.calls_since s s') = ["An API Key must be set"]
    ∧ Forall (λ c, is_retry c = false) (VoiceChat.calls_since s s')
    ∧ VoiceChat.outputAudioContextRef s'
      = VoiceChat.closed_ref (VoiceChat.outputAudioContextRef s).
Proof.
  apply (failed_start_presents_the_exception "An API Key must be set"
           stopped_voice_chat).
  - reflexivity.
  - intros source Hin.
    assert (VoiceChat.playingSources stopped_voice_chat = ∅) as E
      by (vm_compute; reflexivity).
    rewrite E in Hin. by apply not_elem_of_empty in Hin.
Defined.

(** The teardown stops the tracks of the stream in [streamRef] and of no
    other. *)
Lemma teardown_stops_only_the_held_stream s stream :
  track_stop stream ∈ VoiceChat.teardown_calls s →
  VoiceChat.streamRef s = Some stream.
Proof.
  unfold VoiceChat.teardown_calls, VoiceChat.releases, VoiceChat.disconnects,
    VoiceChat.closing_call.
  rewrite !elem_of_app. intros [[Hin|[Hin|[[Hin|Hin]|[Hin|Hin]]]]|Hin].
  - destruct (VoiceChat.sessionPromiseRef s);
      apply list_elem_of_In in Hin; cbn in Hin; intuition congruence.
  - destruct (VoiceChat.streamRef s);
      apply list_elem_of_In in Hin; cbn in Hin; intuition congruence.
  - destruct (VoiceChat.scriptProcessorRef s);
      apply list_elem_of_In in Hin; cbn in Hin; intuition congruence.
  - destruct (VoiceChat.sourceRef s);
      apply list_elem_of_In in Hin; cbn in Hin; intuition congruence.
  - destruct (VoiceChat.audioContextRef s) as [c|]; [destruct (decide _)|];
      apply list_elem_of_In in Hin; cbn in Hin; intuition congruence.
  - destruct (VoiceChat.outputAudioContextRef s) as [c|]; [destruct (decide _)|];
      apply list_elem_of_In in Hin; cbn in Hin; intuition congruence.
  - apply list_elem_of_fmap in Hin as (? & ? & _). discriminate.
Qed.

(** X8. [onopen] does not look at [isLive]. When a conversation is stopped
    before the remote side acknowledges it and the acknowledgement comes
    afterwards, the idle panel takes the microphone and keeps it: the new
    stream is in [streamRef] and no [stop] has reached it; only a further
    [stopConversation] releases it. *)
Theorem late_acknowledgement_takes_the_microphone (s : VoiceChat.VoiceChat) :
  VoiceChat.isLive s = false →
  VoiceChat.streamRef s = None →
  VoiceChat.tracked_sources_started s →
  let s1 := final (VoiceChat.startConversation proceeds s) in
  let s2 := final (VoiceChat.stopConversation s1) in
  let s3 := final (VoiceChat.onopen granted s2) in
  let s4 := final (VoiceChat.stopConversation s3) in
  let stream := (2 + VoiceChat.heap s)%nat in
  VoiceChat.isLive s3 = false
  ∧ VoiceChat.streamRef s3 = Some stream
  ∧ getUserMedia true false ∈ VoiceChat.calls_since s s3
  ∧ (track_stop stream ∉ VoiceChat.calls_since s s3)
  ∧ track_stop stream ∈ VoiceChat.calls_since s3 s4
  ∧ VoiceChat.streamRef s4 = None.
Proof.
  intros Hlive Hstream Ht. cbv zeta.
  rewrite (startConversation_proceeds s Hlive). cbn [final].
  set (s1 := VoiceChat.mkVoiceChat _ _ _ _ _ _ _ _ _ _ _ _ _ _ _).
  assert (VoiceChat.tracked_sources_started s1) as Ht1.
  { intros source Hin. by apply started_app, Ht. }
  rewrite (stopConversation_returns s1 Ht1). cbn [final].
  rewrite (onopen_granted (VoiceChat.stopped s1)). cbn [final].
  set (s3 := VoiceChat.mkVoiceChat _ _ _ _ _ _ _ _ _ _ _ _ _ _ _).
  assert (VoiceChat.tracked_sources_started s3) as Ht3.
  { intros source Hin. by apply not_elem_of_empty in Hin. }
  rewrite (stopConversation_returns s3 Ht3). cbn [final].
  assert (VoiceChat.calls_since s s3
          = [setError None; new_AudioContext (VoiceChat.heap s) 24000;
             live_connect (S (VoiceChat.heap s))]
            ++ VoiceChat.teardown_calls s1
            ++ [getUserMedia true false;
                new_AudioContext (3 + VoiceChat.heap s) 16000;
                createMediaStreamSource (4 + VoiceChat.heap s) (2 + VoiceChat.heap s);
                createScriptProcessor (5 + VoiceChat.heap s) 4096;
                node_connect (4 + VoiceChat.heap s);
                node_connect (5 + VoiceChat.heap s)]) as Hcalls.
  { apply calls_since_app.
    change (VoiceChat.trace s3)
      with (((VoiceChat.trace s
              ++ [setError None; new_AudioContext (VoiceChat.heap s) 24000;
                  live_connect (S (VoiceChat.heap s))])
             ++ VoiceChat.teardown_calls s1)
            ++ [getUserMedia true false;
                new_AudioContext (3 + VoiceChat.heap s) 16000;
                createMediaStreamSource (4 + VoiceChat.heap s) (2 + VoiceChat.heap s);
                createScriptProcessor (5 + VoiceChat.heap s) 4096;
                node_connect (4 + VoiceChat.heap s);
                node_connect (5 + VoiceChat.heap s)]).
    by rewrite <- !(assoc_L (++)). }
  split; [done|]. split; [done|]. split.
  { rewrite Hcalls. rewrite !elem_of_app. right. right. apply list_elem_of_here. }
  split.
  { rewrite Hcalls. intros Hin.
    apply elem_of_app in Hin as [Hin|Hin];
      [apply list_elem_of_In in Hin; cbn in Hin; intuition discriminate|].
    apply elem_of_app in Hin as [Hin|Hin];
      [|apply list_elem_of_In in Hin; cbn in Hin; intuition discriminate].
    apply teardown_stops_only_the_held_stream in Hin.
    change (VoiceChat.streamRef s1) with (VoiceChat.streamRef s) in Hin.
    congruence. }
  split; [|done].
  erewrite calls_since_app; [|reflexivity].
  unfold VoiceChat.teardown_calls, VoiceChat.releases.
  change (VoiceChat.streamRef s3) with (Some (2 + VoiceChat.heap s)%nat).
  rewrite !elem_of_app. left. right. left. apply list_elem_of_here.
Qed.

Lemma late_acknowledgement_takes_the_microphone_witness :
  let s := VoiceChat.initial in
  let s1 := final (VoiceChat.startConversation proceeds s) in
  let s2 := final (VoiceChat.stopConversation s1) in
  let s3 := final (VoiceChat.onopen granted s2) in
  let s4 := final (VoiceChat.stopConversation s3) in
  let stream := (2 + VoiceChat.heap s)%nat in
  VoiceChat.isLive s3 = false
  ∧ VoiceChat.streamRef s3 = Some stream
  ∧ getUserMedia true false ∈ VoiceChat.calls_since s s3
  ∧ (track_stop stream ∉ VoiceChat.calls_since s s3)
  ∧ track_stop stream ∈ VoiceChat.calls_since s3 s4
  ∧ VoiceChat.streamRef s4 = None.
Proof.
  apply (late_acknowledgement_takes_the_microphone VoiceChat.initial).
  - reflexivity.
  - reflexivity.
  - intros source Hin. by apply not_elem_of_empty in Hin.
Defined.

(** X9. Whatever the events a voice chat has gone through since it was
    mounted, [stopConversation] returns and leaves it torn down: idle,
    without session or capture stream, nothing queued, both contexts
    closed, and everything the refs held released. *)
Theorem stop_after_any_run_tears_down
    {U : Utils} (events : list VoiceChat.Event) :
  let s := VoiceChat.run events VoiceChat.initial in
  ∃ s', VoiceChat.stopConversation s = Returns s' ∧ VoiceChat.torn_down s s'.
Proof.
  cbv zeta.
  destruct (run_consistent events VoiceChat.initial initial_consistent) as [Ht _].
  exists (VoiceChat.stopped (VoiceChat.run events VoiceChat.initial)).
  split; [by apply stopConversation_returns|apply stopped_torn_down].
Qed.

(** X11. A stopped voice chat sends no audio: [stopConversation] clears the
    session ref, so a frame that the capture node still delivers afterwards
    is dropped by [onaudioprocess] and the panel stays as it is. *)
Theorem stopped_voice_chat_sends_no_audio
    {U : Utils} (inputData : list Q) (s : VoiceChat.VoiceChat) :
  VoiceChat.tracked_sources_started s →
  let s' := final (VoiceChat.stopConversation s) in
  VoiceChat.sessionPromiseRef s' = None
  ∧ VoiceChat.onaudioprocess inputData s' = s'.
Proof.
  intros Ht. cbv zeta. rewrite stopConversation_returns by done. cbn [final].
  split; [done|]. by apply onaudioprocess_without_session.
Qed.

Lemma stopped_voice_chat_sends_no_audio_witness :
  let s := live_voice_chat in
  let s' := final (VoiceChat.stopConversation s) in
  VoiceChat.sessionPromiseRef s' = None
  ∧ @VoiceChat.onaudioprocess sample_utils [(1 # 2)%Q] s' = s'.
Proof.
  apply (@stopped_voice_chat_sends_no_audio sample_utils [(1 # 2)%Q] live_voice_chat).
  intros source Hin. by apply not_elem_of_empty in Hin.
Defined.

(** ** Samples outside the nominal range *)

(** X12. Nothing clamps a sample before the conversion. A sample [x] with
    [1 <= x < 2] scales past the largest 16-bit number and comes out
    negative, 65536 below its scaled value; a sample [y] with
    [-2 < y <= -32769/32768] comes out positive, 65536 above. *)
Theorem over_range_samples_change_sign (x y : Q) :
  (1 <= x)%Q → (x < 2)%Q → (-2 < y)%Q → (y <= -32769 # 32768)%Q →
  Int16Array [x; y]
  = [(Qfloor (x * 32768) - 65536)%Z; (Qceiling (y * 32768) + 65536)%Z]
  ∧ (-32768 <= Qfloor (x * 32768) - 65536 < 0)%Z
  ∧ (0 < Qceiling (y * 32768) + 65536 <= 32767)%Z.
Proof.
  intros Hx1 Hx2 Hy1 Hy2.
  assert (32768 <= Qfloor (x * 32768) < 65536)%Z as Hfx.
  { split.
    - apply (Z.le_trans _ (Qfloor (inject_Z 32768))); [rewrite Qfloor_Z; lia|].
      apply Qfloor_resp_le. change (inject_Z 32768) with 32768%Q. lra.
    - rewrite Zlt_Qlt. pose proof (Qfloor_le (x * 32768)).
      change (inject_Z 65536) with 65536%Q. lra. }
  assert (-65536 < Qceiling (y * 32768) <= -32769)%Z as Hcy.
  { split.
    - rewrite Zlt_Qlt. pose proof (Qle_ceiling (y * 32768)).
      change (inject_Z (-65536)) with (-65536)%Q. lra.
    - rewrite <- (Qceiling_Z (-32769)). apply Qceiling_resp_le.
      change (inject_Z (-32769)) with (-32769)%Q.
      assert (y * 32768 <= (-32769 # 32768) * 32768)%Q as H by nra.
      assert ((-32769 # 32768) * 32768 == -32769)%Q as E by reflexivity.
      rewrite E in H. exact H. }
  split; [|lia].
  unfold Int16Array. rewrite !fmap_cons, fmap_nil. unfold ToInt16. cbv zeta.
  rewrite (Qtruncate_nonneg (x * 32768)) by nra.
  rewrite (Qtruncate_nonpos (y * 32768)) by nra.
  rewrite (Z.mod_small (Qfloor (x * 32768))) by lia.
  assert (Qceiling (y * 32768) mod 65536 = Qceiling (y * 32768) + 65536)%Z as ->.
  { symmetry. apply (Z.mod_unique _ _ (-1)); lia. }
  destruct (Z.leb_spec 32768 (Qfloor (x * 32768))); [|lia].
  destruct (Z.leb_spec 32768 (Qceiling (y * 32768) + 65536)); [lia|done].
Qed.

Lemma over_range_samples_change_sign_witness :
  Int16Array [(3 # 2)%Q; (-3 # 2)%Q]
  = [(Qfloor ((3 # 2) * 32768) - 65536)%Z; (Qceiling ((-3 # 2) * 32768) + 65536)%Z]
  ∧ (-32768 <= Qfloor ((3 # 2) * 32768) - 65536 < 0)%Z
  ∧ (0 < Qceiling ((-3 # 2) * 32768) + 65536 <= 32767)%Z.
Proof.
  apply (over_range_samples_change_sign (3 # 2) (-3 # 2)); by vm_compute.
Defined.

(** X13. The bytes of a frame's payload carry its 16-bit samples without
    loss: read back two by two, low byte first, as two's complement, they
    are the elements of the [Int16Array]. *)
Theorem payload_bytes_read_back_as_the_samples (inputData : list Q) :
  read_int16 (Uint8Array (Int16Array inputData)) = Int16Array inputData.
Proof.
  unfold Int16Array, Uint8Array.
  induction inputData as [|x rest IH]; [done|].
  rewrite fmap_cons, bind_cons.
  change ([?a; ?b] ++ ?l) with (a :: b :: l).
  cbn [app]. rewrite read_int16_bytes by apply ToInt16_range.
  by rewrite IH.
Qed.

(** ** More on the visual assistant *)

(** X14. The function of the timer changes nothing but the trace, and it
    sends a frame exactly when the video element, the canvas, the blob and
    the session are all there; what it sends is the blob's data as
    [image/jpeg], to the session in [sessionPromiseRef]. *)
Theorem frame_is_sent_only_when_complete
    (jpeg : option string) (s : VisualAssistant.VisualAssistant) :
  ∃ calls,
    VisualAssistant.onframe jpeg s = VisualAssistant.with_calls calls s
    ∧ ∀ session blob,
        sendRealtimeInput session blob ∈ calls ↔
        ∃ video canvas base64Data,
          VisualAssistant.videoRef s = Some video
          ∧ VisualAssistant.canvasRef s = Some canvas
          ∧ jpeg = Some base64Data
          ∧ VisualAssistant.sessionPromiseRef s = Some session
          ∧ blob = {| data := base64Data; mimeType := "image/jpeg" |}.
Proof.
  destruct s as [live err video canvas timer session stream actx sp tr hp].
  unfold VisualAssistant.onframe. cbn [VisualAssistant.videoRef VisualAssistant.canvasRef].
  destruct video as [video|], canvas as [canvas|];
    try (exists []; split;
         [unfold_visual; by rewrite app_nil_r
         |intros ? ?; split; [by intros ?%elem_of_nil|by intros (? & ? & ? & ? & ? & ?)]]).
  destruct jpeg as [base64Data|], session as [session|]; unfold_visual.
  - exists [canvas_toBlob canvas video;
            sendRealtimeInput session {| data := base64Data; mimeType := "image/jpeg" |}].
    split; [by rewrite <- !(assoc_L (++))|].
    intros session' blob. split.
    + intros Hin. apply list_elem_of_In in Hin. cbn in Hin.
      destruct Hin as [Hin|[Hin|[]]]; [discriminate|].
      injection Hin as <- <-. by exists video, canvas, base64Data.
    + intros (? & ? & ? & _ & _ & [= <-] & [= <-] & ->).
      apply list_elem_of_further, list_elem_of_here.
  - exists [canvas_toBlob canvas video]. split; [done|].
    intros session' blob. split.
    + intros Hin. apply list_elem_of_In in Hin. cbn in Hin.
      destruct Hin as [Hin|[]]. discriminate.
    + by intros (? & ? & ? & _ & _ & _ & ? & _).
  - exists [canvas_toBlob canvas video]. split; [done|].
    intros session' blob. split.
    + intros Hin. apply list_elem_of_In in Hin. cbn in Hin.
      destruct Hin as [Hin|[]]. discriminate.
    + by intros (? & ? & ? & _ & _ & ? & _).
  - exists [canvas_toBlob canvas video]. split; [done|].
    intros session' blob. split.
    + intros Hin. apply list_elem_of_In in Hin. cbn in Hin.
      destruct Hin as [Hin|[]]. discriminate.
    + by intros (? & ? & ? & _ & _ & ? & _).
Qed.

(** X15. When the client cannot be built after the camera was granted,
    [startSession] presents the exception and releases the stream it has
    just acquired: the tracks are stopped, no connection is opened, the
    panel ends idle with exactly one message. The stopped stream stays in
    [streamRef]. *)
Theorem failed_connect_releases_the_camera
    (message : string) (s : VisualAssistant.VisualAssistant) :
  let s' := VisualAssistant.startSession granted (raises message) s in
  let stream := VisualAssistant.heap s in
  VisualAssistant.isLive s' = false
  ∧ VisualAssistant.error s' = Some message
  ∧ VisualAssistant.streamRef s' = Some stream
  ∧ track_stop stream ∈ VisualAssistant.calls_since s s'
  ∧ error_messages (VisualAssistant.calls_since s s') = [message]
  ∧ Forall (λ c, ∀ session, c ≠ live_connect session) (VisualAssistant.calls_since s s').
Proof.
  cbv zeta. unfold VisualAssistant.startSession. cbv zeta.
  rewrite stopSession_closed_form.
  destruct s as [live err video canvas timer session stream actx sp tr hp].
  unfold VisualAssistant.teardown_calls, VisualAssistant.releases.
  destruct video as [video|]; unfold_visual.
  - split; [done|]. split; [done|]. split; [done|].
    rewrite (visual_calls_since_app _ _
               ([setError None; getUserMedia true true; set_srcObject video hp;
                 setError (Some message)]
                ++ option_list (clearInterval <$> timer)
                ++ option_list (session_close <$> session)
                ++ [track_stop hp]
                ++ option_list (node_disconnect <$> sp)
                ++ VoiceChat.closing_call actx)).
    2:{ cbn. by rewrite <- !(assoc_L (++)). }
    split; [|split].
    + rewrite !elem_of_app. right. right. right. left. apply list_elem_of_here.
    + rewrite !error_messages_app.
      destruct timer, session, sp, actx as [[? ? []]|]; reflexivity.
    + rewrite !Forall_app.
      destruct timer, session, sp, actx as [c|];
        cbn; try destruct (decide _); repeat split; by repeat constructor.
  - split; [done|]. split; [done|]. split; [done|].
    rewrite (visual_calls_since_app _ _
               ([setError None; getUserMedia true true; setError (Some message)]
                ++ option_list (clearInterval <$> timer)
                ++ option_list (session_close <$> session)
                ++ [track_stop hp]
                ++ option_list (node_disconnect <$> sp)
                ++ VoiceChat.closing_call actx)).
    2:{ cbn. by rewrite <- !(assoc_L (++)). }
    split; [|split].
    + rewrite !elem_of_app. right. right. right. left. apply list_elem_of_here.
    + rewrite !error_messages_app.
      destruct timer, session, sp, actx as [[? ? []]|]; reflexivity.
    + rewrite !Forall_app.
      destruct timer, session, sp, actx as [c|];
        cbn; try destruct (decide _); repeat split; by repeat constructor.
Qed.

(** X16. [stopSession] closes the session but keeps it in
    [sessionPromiseRef]: a frame that the capture node delivers after the
    stop is still converted and sent, to the session that was closed. *)
Theorem stopped_visual_assistant_still_sends
    {U : Utils} (inputData : list Q) (s : VisualAssistant.VisualAssistant)
    (session : handle) :
  VisualAssistant.sessionPromiseRef s = Some session →
  let s' := VisualAssistant.stopSession s in
  VisualAssistant.isLive s' = false
  ∧ session_close session ∈ VisualAssistant.calls_since s s'
  ∧ VisualAssistant.sessionPromiseRef s' = Some session
  ∧ VisualAssistant.calls_since s' (VisualAssistant.onaudioprocess inputData s')
    = [sendRealtimeInput session (pcmBlob inputData)].
Proof.
  intros Hsession. cbv zeta. rewrite stopSession_closed_form.
  split; [done|]. split.
  - erewrite visual_calls_since_app; [|reflexivity].
    unfold VisualAssistant.teardown_calls, VisualAssistant.releases.
    rewrite Hsession, !elem_of_app. left. right. left. apply list_elem_of_here.
  - split; [done|].
    unfold VisualAssistant.onaudioprocess. cbn [VisualAssistant.sessionPromiseRef].
    rewrite Hsession. by apply visual_calls_since_app.
Qed.

Lemma stopped_visual_assistant_still_sends_witness :
  let s := live_visual_assistant in
  let s' := VisualAssistant.stopSession s in
  VisualAssistant.isLive s' = false
  ∧ session_close 3 ∈ VisualAssistant.calls_since s s'
  ∧ VisualAssistant.sessionPromiseRef s' = Some 3
  ∧ VisualAssistant.calls_since s'
      (@VisualAssistant.onaudioprocess sample_utils [(1 # 2)%Q] s')
    = [sendRealtimeInput 3 (@pcmBlob sample_utils [(1 # 2)%Q])].
Proof.
  apply (@stopped_visual_assistant_still_sends sample_utils [(1 # 2)%Q]
           live_visual_assistant 3).
  reflexivity.
Defined.

(** ** Text to speech *)

Ltac unfold_speech :=
  cbv beta iota zeta delta
    [TextToSpeech.call TextToSpeech.setIsLoading TextToSpeech.set_error
     TextToSpeech.set_audioContextRef TextToSpeech.alloc
     TextToSpeech.text TextToSpeech.isLoading TextToSpeech.error
     TextToSpeech.audioContextRef TextToSpeech.trace TextToSpeech.heap] in *.

Lemma speech_calls_since_app (t t' : TextToSpeech.TextToSpeech) calls :
  TextToSpeech.trace t' = TextToSpeech.trace t ++ calls →
  TextToSpeech.calls_since t t' = calls.
Proof. unfold TextToSpeech.calls_since. intros ->. by rewrite drop_app_length. Qed.

(** A request that is answered with audio: the calls it makes, with a
    context created only when none is held or the one held is closed. *)
Lemma handleSpeak_with_audio {U : Utils} base64Audio t :
  TextToSpeech.text t ≠ "" → TextToSpeech.isLoading t = false → base64Audio ≠ "" →
  let t' := TextToSpeech.handleSpeak (TextToSpeech.responded (Some base64Audio)) t in
  let fresh := match TextToSpeech.audioContextRef t with
               | Some c => bool_decide (state c = closed)
               | None => true
               end in
  let buffer := decodeAudioData (decode base64Audio) 24000 1 in
  TextToSpeech.text t' = TextToSpeech.text t
  ∧ TextToSpeech.isLoading t' = false
  ∧ TextToSpeech.error t' = None
  ∧ TextToSpeech.audioContextRef t'
    = (if fresh then Some (mkAudioContext (TextToSpeech.heap t) 24000 running)
       else TextToSpeech.audioContextRef t)
  ∧ TextToSpeech.trace t'
    = TextToSpeech.trace t
      ++ [setError None; generateContent]
      ++ (if fresh
          then [new_AudioContext (TextToSpeech.heap t) 24000;
                node_connect (S (TextToSpeech.heap t));
                source_start (S (TextToSpeech.heap t)) 0 buffer]
          else [node_connect (TextToSpeech.heap t);
                source_start (TextToSpeech.heap t) 0 buffer]).
Proof.
  intros Htext Hload Haudio. cbv zeta. unfold TextToSpeech.handleSpeak.
  destruct (decide (TextToSpeech.text t = "")) as [|_]; [done|].
  rewrite Hload. destruct (decide (base64Audio = "")) as [|_]; [done|].
  unfold TextToSpeech.ensure_context.
  destruct t as [text loading err [c|] tr hp]; unfold_speech.
  - destruct (decide (state c = closed)) as [Hc|Hc].
    + rewrite (bool_decide_eq_true_2 _ Hc).
      repeat split. by rewrite <- !(assoc_L (++)).
    + rewrite (bool_decide_eq_false_2 _ Hc).
      repeat split. by rewrite <- !(assoc_L (++)).
  - repeat split. by rewrite <- !(assoc_L (++)).
Qed.

(** A request that is not answered with audio. *)
Lemma handleSpeak_silent {U : Utils} response message t :
  TextToSpeech.text t ≠ "" → TextToSpeech.isLoading t = false →
  (response = TextToSpeech.failed message
   ∨ message = "No audio data received from API."
     ∧ (response = TextToSpeech.responded None
        ∨ response = TextToSpeech.responded (Some ""))) →
  let t' := TextToSpeech.handleSpeak response t in
  TextToSpeech.isLoading t' = false
  ∧ TextToSpeech.text t' = TextToSpeech.text t
  ∧ TextToSpeech.error t' = Some message
  ∧ TextToSpeech.calls_since t t'
    = [setError None; generateContent; setError (Some message)].
Proof.
  intros Htext Hload Hr. cbv zeta. unfold TextToSpeech.handleSpeak.
  destruct (decide (TextToSpeech.text t = "")) as [|_]; [done|].
  rewrite Hload.
  destruct t as [text loading err ctx tr hp].
  destruct Hr as [->|[-> [->| ->]]];
    (repeat split; [apply speech_calls_since_app; unfold_speech;
                    by rewrite <- !(assoc_L (++))]).
Qed.

(** X17. From a panel with a text and no request pending, [handleSpeak]
    always ends the request: [isLoading] is false afterwards and the text is
    kept. It ends without an error message exactly when the response
    carries audio; otherwise exactly one message is presented and nothing
    is played. *)
Theorem speak_ends_the_request
    {U : Utils} (response : TextToSpeech.Response) (t : TextToSpeech.TextToSpeech) :
  TextToSpeech.text t ≠ "" → TextToSpeech.isLoading t = false →
  let t' := TextToSpeech.handleSpeak response t in
  let audible :=
    ∃ base64Audio,
      response = TextToSpeech.responded (Some base64Audio) ∧ base64Audio ≠ "" in
  let calls := TextToSpeech.calls_since t t' in
  TextToSpeech.isLoading t' = false
  ∧ TextToSpeech.text t' = TextToSpeech.text t
  ∧ (TextToSpeech.error t' = None ↔ audible)
  ∧ (audible →
     error_messages calls = []
     ∧ ∃ source buffer, source_start source 0 buffer ∈ calls)
  ∧ (¬ audible →
     (∃ message, TextToSpeech.error t' = Some message
                 ∧ error_messages calls = [message])
     ∧ ∀ source when buffer, source_start source when buffer ∉ calls).
Proof.
  intros Htext Hload. cbv zeta.
  pose proof (λ message, handleSpeak_silent response message t Htext Hload) as Hsilent.
  cbv zeta in Hsilent.
  destruct response as [message|[base64Audio|]].
  - destruct (Hsilent message (or_introl eq_refl)) as (Hl & Ht & He & Hc).
    rewrite Hl, Ht, He, Hc. split; [done|]. split; [done|]. split.
    { split; [done|]. by intros (? & ? & _). }
    split; [by intros (? & ? & _)|]. intros _. split; [by exists message|].
    intros source when buffer Hin. apply list_elem_of_In in Hin. cbn in Hin.
    intuition discriminate.
  - destruct (decide (base64Audio = "")) as [->|Haudio].
    + destruct (Hsilent _ (or_intror (conj eq_refl (or_intror eq_refl))))
        as (Hl & Ht & He & Hc).
      rewrite Hl, Ht, He, Hc. split; [done|]. split; [done|]. split.
      { split; [done|]. by intros (? & [= <-] & ?). }
      split; [by intros (? & [= <-] & ?)|]. intros _. split; [by eexists|].
      intros source when buffer Hin. apply list_elem_of_In in Hin. cbn in Hin.
      intuition discriminate.
    + destruct (handleSpeak_with_audio base64Audio t Htext Hload Haudio)
        as (Ht & Hl & He & _ & Hc).
      apply speech_calls_since_app in Hc.
      rewrite Hl, Ht, He, Hc. split; [done|]. split; [done|]. split.
      { split; [|done]. intros _. by exists base64Audio. }
      split.
      * intros _. rewrite error_messages_app. split.
        { by destruct (match TextToSpeech.audioContextRef t with
                       | Some c => bool_decide (state c = closed) | None => true end). }
        destruct (match TextToSpeech.audioContextRef t with
                  | Some c => bool_decide (state c = closed) | None => true end);
          eexists _, _; rewrite elem_of_app; right.
        -- apply list_elem_of_further, list_elem_of_further, list_elem_of_here.
        -- apply list_elem_of_further, list_elem_of_here.
      * intros Hn. destruct Hn. by exists base64Audio.
  - destruct (Hsilent _ (or_intror (conj eq_refl (or_introl eq_refl))))
      as (Hl & Ht & He & Hc).
    rewrite Hl, Ht, He, Hc. split; [done|]. split; [done|]. split.
    { split; [done|]. by intros (? & ? & _). }
    split; [by intros (? & ? & _)|]. intros _. split; [by eexists|].
    intros source when buffer Hin. apply list_elem_of_In in Hin. cbn in Hin.
    intuition discriminate.
Qed.

Lemma speak_ends_the_request_witness :
  let t := ready_to_speak in
  let response := TextToSpeech.responded (Some "abcd") in
  let t' := @TextToSpeech.handleSpeak sample_utils response t in
  let audible :=
    ∃ base64Audio,
      response = TextToSpeech.responded (Some base64Audio) ∧ base64Audio ≠ "" in
  let calls := TextToSpeech.calls_since t t' in
  TextToSpeech.isLoading t' = false
  ∧ TextToSpeech.text t' = TextToSpeech.text t
  ∧ (TextToSpeech.error t' = None ↔ audible)
  ∧ (audible →
     error_messages calls = []
     ∧ ∃ source buffer, source_start source 0 buffer ∈ calls)
  ∧ (¬ audible →
     (∃ message, TextToSpeech.error t' = Some message
                 ∧ error_messages calls = [message])
     ∧ ∀ source when buffer, source_start source when buffer ∉ calls).
Proof.
  apply (@speak_ends_the_request sample_utils
           (TextToSpeech.responded (Some "abcd")) ready_to_speak).
  - discriminate.
  - reflexivity.
Defined.

(** X18. The audio context is created once: a request answered with audio
    leaves a running context in [audioContextRef], and the next one plays
    in the same context without creating another. No request closes a
    context. *)
Theorem speaking_again_reuses_the_context
    {U : Utils} (first second : string) (t : TextToSpeech.TextToSpeech) :
  TextToSpeech.text t ≠ "" → TextToSpeech.isLoading t = false →
  first ≠ "" → second ≠ "" →
  let t1 := TextToSpeech.handleSpeak (TextToSpeech.responded (Some first)) t in
  let t2 := TextToSpeech.handleSpeak (TextToSpeech.responded (Some second)) t1 in
  (∃ ctx, TextToSpeech.audioContextRef t1 = Some ctx ∧ state ctx ≠ closed)
  ∧ TextToSpeech.audioContextRef t2 = TextToSpeech.audioContextRef t1
  ∧ TextToSpeech.calls_since t1 t2
    = [setError None; generateContent; node_connect (TextToSpeech.heap t1);
       source_start (TextToSpeech.heap t1) 0 (decodeAudioData (decode second) 24000 1)]
  ∧ Forall (λ c, ∀ ctx, c ≠ context_close ctx) (TextToSpeech.calls_since t t2).
Proof.
  intros Htext Hload Hfirst Hsecond. cbv zeta.
  destruct (handleSpeak_with_audio first t Htext Hload Hfirst)
    as (Ht1 & Hl1 & He1 & Hctx1 & Hc1).
  set (t1 := TextToSpeech.handleSpeak (TextToSpeech.responded (Some first)) t) in *.
  assert (∃ ctx, TextToSpeech.audioContextRef t1 = Some ctx ∧ state ctx ≠ closed)
    as (ctx & Hctx & Hopen).
  { rewrite Hctx1. destruct (TextToSpeech.audioContextRef t) as [c|].
    - destruct (bool_decide (state c = closed)) eqn:E.
      + by eexists.
      + exists c. split; [done|]. by apply bool_decide_eq_false in E.
    - by eexists. }
  assert (TextToSpeech.text t1 ≠ "") as Htext1 by by rewrite Ht1.
  destruct (handleSpeak_with_audio second t1 Htext1 Hl1 Hsecond)
    as (Ht2 & Hl2 & He2 & Hctx2 & Hc2).
  rewrite Hctx in Hctx2, Hc2.
  rewrite (bool_decide_eq_false_2 (state ctx = closed) Hopen) in Hctx2, Hc2.
  split; [by exists ctx|]. split; [by rewrite Hctx2|].
  split; [by apply speech_calls_since_app|].
  erewrite speech_calls_since_app; [|by rewrite Hc2, Hc1, <- !(assoc_L (++))].
  rewrite !Forall_app.
  destruct (match TextToSpeech.audioContextRef t with
            | Some c => bool_decide (state c = closed) | None => true end);
    repeat split; by repeat constructor.
Qed.

Lemma speaking_again_reuses_the_context_witness :
  let t := ready_to_speak in
  let t1 := @TextToSpeech.handleSpeak sample_utils
              (TextToSpeech.responded (Some "abcd")) t in
  let t2 := @TextToSpeech.handleSpeak sample_utils
              (TextToSpeech.responded (Some "ef")) t1 in
  (∃ ctx, TextToSpeech.audioContextRef t1 = Some ctx ∧ state ctx ≠ closed)
  ∧ TextToSpeech.audioContextRef t2 = TextToSpeech.audioContextRef t1
  ∧ TextToSpeech.calls_since t1 t2
    = [setError None; generateContent; node_connect (TextToSpeech.heap t1);
       source_start (TextToSpeech.heap t1) 0
         (@decodeAudioData sample_utils (@decode sample_utils "ef") 24000 1)]
  ∧ Forall (λ c, ∀ ctx, c ≠ context_close ctx) (TextToSpeech.calls_since t t2).
Proof.
  apply (@speaking_again_reuses_the_context sample_utils "abcd" "ef" ready_to_speak);
    discriminate || reflexivity.
Defined.

(** ** The transcription request *)

Ltac unfold_transcriber :=
  cbv beta iota zeta delta
    [AudioTranscriber.setAudioFile AudioTranscriber.setTranscription
     AudioTranscriber.setIsLoading AudioTranscriber.call AudioTranscriber.set_error
     AudioTranscriber.audioFile AudioTranscriber.transcription
     AudioTranscriber.isLoading AudioTranscriber.error AudioTranscriber.trace] in *.

Lemma transcriber_calls_since_app (s s' : AudioTranscriber.AudioTranscriber) calls :
  AudioTranscriber.trace s' = AudioTranscriber.trace s ++ calls →
  AudioTranscriber.calls_since s s' = calls.
Proof. unfold AudioTranscriber.calls_since. intros ->. by rewrite drop_app_length. Qed.

(** X19. With a file chosen and no request pending, [handleTranscribe]
    always ends the request and keeps the file. A response replaces the
    transcription by its text and presents no message. A failure, before or
    after the request was made, presents exactly one message and leaves the
    transcription as it was; when the file could not be read no request is
    made at all. *)
Theorem transcribe_ends_the_request
    (outcome : AudioTranscriber.Outcome) (s : AudioTranscriber.AudioTranscriber)
    (file : AudioTranscriber.File) :
  AudioTranscriber.audioFile s = Some file →
  AudioTranscriber.isLoading s = false →
  let s' := AudioTranscriber.handleTranscribe outcome s in
  let calls := AudioTranscriber.calls_since s s' in
  AudioTranscriber.isLoading s' = false
  ∧ AudioTranscriber.audioFile s' = Some file
  ∧ (AudioTranscriber.error s' = None ↔ ∃ text, outcome = AudioTranscriber.responded text)
  ∧ (∀ text, outcome = AudioTranscriber.responded text →
       AudioTranscriber.transcription s' = text
       ∧ calls = [setError None; generateContent])
  ∧ (∀ message,
       outcome = AudioTranscriber.unreadable message
       ∨ outcome = AudioTranscriber.failed message →
       AudioTranscriber.transcription s' = AudioTranscriber.transcription s
       ∧ AudioTranscriber.error s' = Some message
       ∧ error_messages calls = [message])
  ∧ (∀ message, outcome = AudioTranscriber.unreadable message →
       generateContent ∉ calls).
Proof.
  intros Hfile Hload. cbv zeta. unfold AudioTranscriber.handleTranscribe.
  rewrite Hfile, Hload.
  destruct s as [file0 text0 loading err tr]. cbn in Hfile, Hload. subst.
  destruct outcome as [message|message|text].
  - rewrite (transcriber_calls_since_app _ _ [setError None; setError (Some message)])
      by (unfold_transcriber; by rewrite <- !(assoc_L (++))).
    unfold_transcriber.
    split; [done|]. split; [done|]. split; [split; [done|by intros [? ?]]|].
    split; [done|]. split.
    + by intros ? [[= <-]|?].
    + intros _ _ Hin. apply list_elem_of_In in Hin. cbn in Hin. intuition discriminate.
  - rewrite (transcriber_calls_since_app _ _
               [setError None; generateContent; setError (Some message)])
      by (unfold_transcriber; by rewrite <- !(assoc_L (++))).
    unfold_transcriber.
    split; [done|]. split; [done|]. split; [split; [done|by intros [? ?]]|].
    split; [done|]. split; [|done].
    by intros ? [?|[= <-]].
  - rewrite (transcriber_calls_since_app _ _ [setError None; generateContent])
      by (unfold_transcriber; by rewrite <- !(assoc_L (++))).
    unfold_transcriber.
    split; [done|]. split; [done|]. split; [split; [by exists text|done]|].
    split; [by intros ? [= <-]|]. split; [by intros ? [?|?]|done].
Qed.

Lemma transcribe_ends_the_request_witness :
  let outcome := AudioTranscriber.failed "quota exceeded" in
  let s := transcribed in
  let file := AudioTranscriber.mkFile "a.wav" "audio/wav" in
  let s' := AudioTranscriber.handleTranscribe outcome s in
  let calls := AudioTranscriber.calls_since s s' in
  AudioTranscriber.isLoading s' = false
  ∧ AudioTranscriber.audioFile s' = Some file
  ∧ (AudioTranscriber.error s' = None ↔ ∃ text, outcome = AudioTranscriber.responded text)
  ∧ (∀ text, outcome = AudioTranscriber.responded text →
       AudioTranscriber.transcription s' = text
       ∧ calls = [setError None; generateContent])
  ∧ (∀ message,
       outcome = AudioTranscriber.unreadable message
       ∨ outcome = AudioTranscriber.failed message →
       AudioTranscriber.transcription s' = AudioTranscriber.transcription s
       ∧ AudioTranscriber.error s' = Some message
       ∧ error_messages calls = [message])
  ∧ (∀ message, outcome = AudioTranscriber.unreadable message →
       generateContent ∉ calls).
Proof.
  apply (transcribe_ends_the_request (AudioTranscriber.failed "quota exceeded")
           transcribed (AudioTranscriber.mkFile "a.wav" "audio/wav"));
    reflexivity.
Defined.

(** X20. Choosing a file empties the transcription and touches neither the
    error nor the pending flag, so the message of an earlier failure stays
    on display. A request for the new file that fails then shows no text of
    the file before; failing again on the same file keeps the text shown. *)
Theorem failed_transcription_shows_no_text_of_another_file
    (files : option (list AudioTranscriber.File)) (file : AudioTranscriber.File)
    (message : string) (s : AudioTranscriber.AudioTranscriber) :
  files ≫= head = Some file →
  AudioTranscriber.isLoading s = false →
  let s1 := AudioTranscriber.handleFileChange files s in
  let s2 := AudioTranscriber.handleTranscribe (AudioTranscriber.failed message) s1 in
  let s3 := AudioTranscriber.handleTranscribe (AudioTranscriber.failed message) s in
  AudioTranscriber.audioFile s1 = Some file
  ∧ AudioTranscriber.error s1 = AudioTranscriber.error s
  ∧ AudioTranscriber.shown s1 = None
  ∧ AudioTranscriber.shown s2 = None
  ∧ AudioTranscriber.error s2 = Some message
  ∧ AudioTranscriber.shown s3 = AudioTranscriber.shown s.
Proof.
  intros Hfiles Hload. cbv zeta.
  unfold AudioTranscriber.handleFileChange, AudioTranscriber.handleTranscribe.
  rewrite Hfiles. destruct s as [file0 text0 loading err tr]. cbn in Hload. subst.
  unfold AudioTranscriber.shown. unfold_transcriber.
  repeat split. by destruct file0.
Qed.

Lemma failed_transcription_shows_no_text_of_another_file_witness :
  let files := Some [AudioTranscriber.mkFile "b.mp3" "audio/mpeg"] in
  let s := transcribed in
  let s1 := AudioTranscriber.handleFileChange files s in
  let s2 := AudioTranscriber.handleTranscribe (AudioTranscriber.failed "offline") s1 in
  let s3 := AudioTranscriber.handleTranscribe (AudioTranscriber.failed "offline") s in
  AudioTranscriber.audioFile s1 = Some (AudioTranscriber.mkFile "b.mp3" "audio/mpeg")
  ∧ AudioTranscriber.error s1 = AudioTranscriber.error s
  ∧ AudioTranscriber.shown s1 = None
  ∧ AudioTranscriber.shown s2 = None
  ∧ AudioTranscriber.error s2 = Some "offline"
  ∧ AudioTranscriber.shown s3 = AudioTranscriber.shown s.
Proof.
  apply (failed_transcription_shows_no_text_of_another_file
           (Some [AudioTranscriber.mkFile "b.mp3" "audio/mpeg"])
           (AudioTranscriber.mkFile "b.mp3" "audio/mpeg") "offline" transcribed);
    reflexivity.
Defined.

(** ** The chat panel *)

Lemma joined_cons chunk rest :
  joined (chunk :: rest) = default "undefined" chunk +:+ joined rest.
Proof. done. Qed.

(** The updater of the loop replaces the element at the end. *)
Lemma replace_last_snoc text prev last :
  Chatbot.replace_last text (prev ++ [last])
  = prev ++ [ {| Chatbot.role := Chatbot.model; Chatbot.text := text |} ].
Proof.
  unfold Chatbot.replace_last.
  rewrite length_app, Nat.add_1_r, Nat.pred_succ.
  rewrite <- (Nat.add_0_r (length prev)) at 1. by rewrite insert_app_r.
Qed.

(** The loop over the chunks touches the last message only, and leaves there
    the texts received, joined after what was accumulated before. *)
Lemma for_await_messages chunks accumulatedText s prev last :
  Chatbot.messages s = prev ++ [last] →
  let s' := Chatbot.for_await chunks accumulatedText s in
  Chatbot.messages s'
  = prev ++ [ match chunks with
              | [] => last
              | _ => {| Chatbot.role := Chatbot.model;
                        Chatbot.text := accumulatedText +:+ joined chunks |}
              end ]
  ∧ Chatbot.input s' = Chatbot.input s
  ∧ Chatbot.isLoading s' = Chatbot.isLoading s
  ∧ Chatbot.error s' = Chatbot.error s
  ∧ Chatbot.chatRef s' = Chatbot.chatRef s
  ∧ Chatbot.sent s' = Chatbot.sent s.
Proof.
  revert accumulatedText s last.
  induction chunks as [|chunk rest IH]; intros accumulatedText s last Hm; [done|].
  cbn [Chatbot.for_await]. cbv zeta.
  set (s1 := Chatbot.setMessages _ s).
  assert (Chatbot.messages s1
          = prev ++ [ {| Chatbot.role := Chatbot.model;
                         Chatbot.text := Chatbot.append_text accumulatedText chunk |} ])
    as Hm1.
  { subst s1. cbn. rewrite Hm. apply replace_last_snoc. }
  destruct (IH (Chatbot.append_text accumulatedText chunk) s1 _ Hm1)
    as (-> & -> & -> & -> & -> & ->).
  split; [|done]. f_equal. f_equal.
  destruct rest as [|chunk' rest].
  - unfold Chatbot.append_text. by rewrite joined_cons, string_app_nil_r.
  - f_equal. unfold Chatbot.append_text.
    by rewrite (joined_cons chunk), string_app_assoc.
Qed.

(** What [handleSend] does once its guard lets it through. *)
Lemma handleSend_sends {T : Strings} stream s chat :
  trim (Chatbot.input s) ≠ "" →
  Chatbot.isLoading s = false →
  Chatbot.chatRef s = Some chat →
  let s' := Chatbot.handleSend stream s in
  let question := {| Chatbot.role := Chatbot.user; Chatbot.text := Chatbot.input s |} in
  let answer := {| Chatbot.role := Chatbot.model;
                   Chatbot.text := joined (Chatbot.chunks stream) |} in
  Chatbot.messages s'
  = Chatbot.messages s
    ++ question :: match Chatbot.failure stream with
                   | Some _ => []
                   | None => [answer]
                   end
  ∧ Chatbot.input s' = ""
  ∧ Chatbot.isLoading s' = false
  ∧ Chatbot.error s' = Chatbot.failure stream
  ∧ Chatbot.sent s' = Chatbot.sent s ++ [Chatbot.input s].
Proof.
  intros Hinput Hload Hchat. cbv zeta. unfold Chatbot.handleSend.
  destruct (decide (trim (Chatbot.input s) = "")) as [|_]; [done|].
  rewrite Hload, Hchat. cbv zeta.
  set (s1 := Chatbot.sendMessageStream _ _).
  destruct (for_await_messages (Chatbot.chunks stream) "" s1
              (Chatbot.messages s
               ++ [ {| Chatbot.role := Chatbot.user; Chatbot.text := Chatbot.input s |} ])
              {| Chatbot.role := Chatbot.model; Chatbot.text := "" |})
    as (Hm & Hi & Hl & He & Hc & Hs).
  { subst s1. cbn. by rewrite <- app_assoc. }
  cbv zeta in Hm, Hi, Hl, He, Hc, Hs.
  assert (match Chatbot.chunks stream with
          | [] => {| Chatbot.role := Chatbot.model; Chatbot.text := "" |}
          | _ => {| Chatbot.role := Chatbot.model;
                    Chatbot.text := "" +:+ joined (Chatbot.chunks stream) |}
          end
          = {| Chatbot.role := Chatbot.model;
               Chatbot.text := joined (Chatbot.chunks stream) |}) as Hlast.
  { by destruct (Chatbot.chunks stream). }
  rewrite Hlast in Hm.
  destruct (Chatbot.failure stream) as [message|]; cbn.
  - rewrite Hm, Hi, Hs. repeat split; try done.
    rewrite length_app, Nat.add_1_r. cbn. by rewrite Nat.sub_0_r, take_app_length.
  - rewrite Hm, Hi, He, Hs. repeat split; try done.
    by rewrite <- app_assoc.
Qed.

(** X21. A message that streams to its end leaves two new entries at the end
    of the conversation: the text that was typed, as the user's, and the
    texts of all the chunks joined in order, as the model's. The typed text
    is what was sent, untrimmed; the input is emptied and the request is
    over without an error. *)
Theorem streamed_answer_is_the_chunks_joined
    {T : Strings} (stream : Chatbot.Stream) (s : Chatbot.Chatbot) (chat : handle) :
  trim (Chatbot.input s) ≠ "" →
  Chatbot.isLoading s = false →
  Chatbot.chatRef s = Some chat →
  Chatbot.failure stream = None →
  let s' := Chatbot.handleSend stream s in
  Chatbot.messages s'
  = Chatbot.messages s
    ++ [ {| Chatbot.role := Chatbot.user; Chatbot.text := Chatbot.input s |};
         {| Chatbot.role := Chatbot.model;
            Chatbot.text := joined (Chatbot.chunks stream) |} ]
  ∧ Chatbot.sent s' = Chatbot.sent s ++ [Chatbot.input s]
  ∧ Chatbot.input s' = ""
  ∧ Chatbot.isLoading s' = false
  ∧ Chatbot.error s' = None.
Proof.
  intros Hinput Hload Hchat Hfail.
  destruct (handleSend_sends stream s chat Hinput Hload Hchat)
    as (Hm & Hi & Hl & He & Hs).
  cbv zeta in *. rewrite Hfail in Hm, He. by rewrite Hm, Hi, Hl, He, Hs.
Qed.

Lemma streamed_answer_is_the_chunks_joined_witness :
  let stream := Chatbot.mkStream [Some "Be"; Some "cause"; None] None in
  let s := chat_with_question in
  let s' := @Chatbot.handleSend ascii_strings stream s in
  Chatbot.messages s'
  = Chatbot.messages s
    ++ [ {| Chatbot.role := Chatbot.user; Chatbot.text := Chatbot.input s |};
         {| Chatbot.role := Chatbot.model;
            Chatbot.text := joined (Chatbot.chunks stream) |} ]
  ∧ Chatbot.sent s' = Chatbot.sent s ++ [Chatbot.input s]
  ∧ Chatbot.input s' = ""
  ∧ Chatbot.isLoading s' = false
  ∧ Chatbot.error s' = None.
Proof.
  apply (@streamed_answer_is_the_chunks_joined ascii_strings
           (Chatbot.mkStream [Some "Be"; Some "cause"; None] None)
           chat_with_question 0).
  - vm_compute. discriminate.
  - reflexivity.
  - reflexivity.
  - reflexivity.
Defined.

(** X22. When the stream fails, at its start or after any number of chunks,
    the model's entry goes, with whatever text it had gathered: the
    conversation gains the user's entry alone, the exception's message is
    presented, the request is over and the input stays emptied. *)
Theorem failed_answer_is_dropped
    {T : Strings} (stream : Chatbot.Stream) (s : Chatbot.Chatbot) (chat : handle)
    (message : string) :
  trim (Chatbot.input s) ≠ "" →
  Chatbot.isLoading s = false →
  Chatbot.chatRef s = Some chat →
  Chatbot.failure stream = Some message →
  let s' := Chatbot.handleSend stream s in
  Chatbot.messages s'
  = Chatbot.messages s
    ++ [ {| Chatbot.role := Chatbot.user; Chatbot.text := Chatbot.input s |} ]
  ∧ Chatbot.error s' = Some message
  ∧ Chatbot.input s' = ""
  ∧ Chatbot.isLoading s' = false.
Proof.
  intros Hinput Hload Hchat Hfail.
  destruct (handleSend_sends stream s chat Hinput Hload Hchat)
    as (Hm & Hi & Hl & He & Hs).
  cbv zeta in *. rewrite Hfail in Hm, He. by rewrite Hm, Hi, Hl, He.
Qed.

Lemma failed_answer_is_dropped_witness :
  let stream := Chatbot.mkStream [Some "Be"; Some "cause"] (Some "network error") in
  let s := chat_with_question in
  let s' := @Chatbot.handleSend ascii_strings stream s in
  Chatbot.messages s'
  = Chatbot.messages s
    ++ [ {| Chatbot.role := Chatbot.user; Chatbot.text := Chatbot.input s |} ]
  ∧ Chatbot.error s' = Some "network error"
  ∧ Chatbot.input s' = ""
  ∧ Chatbot.isLoading s' = false.
Proof.
  apply (@failed_answer_is_dropped ascii_strings
           (Chatbot.mkStream [Some "Be"; Some "cause"] (Some "network error"))
           chat_with_question 0 "network error").
  - vm_compute. discriminate.
  - reflexivity.
  - reflexivity.
  - reflexivity.
Defined.

(** X23. Whatever the panel and whatever the stream, [handleSend] leaves the
    conversation so far as it was: the messages before are a prefix of the
    messages after, at most two are added, and at most one message is sent,
    the typed text. With a blank input, a request pending or no chat held,
    nothing changes at all. *)
Theorem conversation_so_far_is_kept
    {T : Strings} (stream : Chatbot.Stream) (s : Chatbot.Chatbot) :
  let s' := Chatbot.handleSend stream s in
  Chatbot.messages s `prefix_of` Chatbot.messages s'
  ∧ length (Chatbot.messages s') ≤ length (Chatbot.messages s) + 2
  ∧ (Chatbot.sent s' = Chatbot.sent s ∨ Chatbot.sent s' = Chatbot.sent s ++ [Chatbot.input s])
  ∧ (trim (Chatbot.input s) = "" ∨ Chatbot.isLoading s = true ∨ Chatbot.chatRef s = None →
     s' = s).
Proof.
  cbv zeta.
  destruct (decide (trim (Chatbot.input s) = "")) as [Hblank|Hinput].
  { unfold Chatbot.handleSend. rewrite decide_True by done.
    repeat split; try done; [lia|by left]. }
  destruct (Chatbot.isLoading s) eqn:Hload.
  { unfold Chatbot.handleSend. rewrite decide_False, Hload by done.
    repeat split; try done; [lia|by left]. }
  destruct (Chatbot.chatRef s) as [chat|] eqn:Hchat.
  2:{ unfold Chatbot.handleSend. rewrite decide_False, Hload, Hchat by done.
      repeat split; try done; [lia|by left]. }
  destruct (handleSend_sends stream s chat Hinput Hload Hchat)
    as (Hm & _ & _ & _ & Hs).
  cbv zeta in *. rewrite Hm, Hs. split; [by eexists|]. split.
  - rewrite length_app. destruct (Chatbot.failure stream); cbn; lia.
  - split; [by right|]. by intros [?|[?|?]].
Qed.

(** ** Speech recognition in the translation panel *)

(** The loop appends to each accumulator the transcripts that go to it. *)
Lemma collect_transcripts results interimTranscript finalTranscript :
  TranslateTool.collect results interimTranscript finalTranscript
  = (interimTranscript +:+ transcripts false results,
     finalTranscript +:+ transcripts true results).
Proof.
  revert interimTranscript finalTranscript.
  induction results as [|[[] text] rest IH]; intros interimTranscript finalTranscript.
  - cbn. by rewrite !string_app_nil_r.
  - cbn [TranslateTool.collect TranslateTool.isFinal TranslateTool.transcript].
    rewrite IH. cbn. by rewrite string_app_assoc.
  - cbn [TranslateTool.collect TranslateTool.isFinal TranslateTool.transcript].
    rewrite IH. cbn. by rewrite string_app_assoc.
Qed.

(** X24. The text [onresult] hands to [setSourceText] is made of the
    results from [resultIndex] on alone: the transcripts of the final ones,
    in order, and after them the transcripts of the others, in order.
    Results before [resultIndex] have no part in it; with [resultIndex]
    past the last result the text is empty. *)
Theorem recognised_text_puts_finals_first
    (resultIndex : nat) (results : list TranslateTool.SpeechRecognitionResult) :
  TranslateTool.onresult resultIndex results
  = transcripts true (drop resultIndex results)
    +:+ transcripts false (drop resultIndex results)
  ∧ (∀ earlier, length earlier = resultIndex →
       TranslateTool.onresult resultIndex (earlier ++ results)
       = TranslateTool.onresult 0 results)
  ∧ (length results ≤ resultIndex → TranslateTool.onresult resultIndex results = "").
Proof.
  assert (∀ index rs,
            TranslateTool.onresult index rs
            = transcripts true (drop index rs) +:+ transcripts false (drop index rs))
    as Hform.
  { intros index rs. unfold TranslateTool.onresult. by rewrite collect_transcripts. }
  split; [apply Hform|]. split.
  - intros earlier <-. by rewrite !Hform, drop_app_length.
  - intros Hle. by rewrite Hform, drop_ge.
Qed.
